(** * The evidence pool of CometBFT, embedded in Rocq

    The definitions below follow [package evidence] (the pool, its pruner,
    its consensus buffer and its two database key layouts) function by
    function.  Go values are modelled as follows:

    - [int64] and [uint32] are integers of [Z] with the wrap-around of the
      machine operations written out ([int64.add], [int64.sub], [uint32.add]);
    - [[]byte] and Go strings are [string]s, i.e. lists of 8-bit characters,
      ordered bytewise like [bytes.Compare];
    - [time.Time] is a number of nanoseconds, [time.Duration] a signed 64-bit
      number of nanoseconds, and [Time.Sub] saturates as in the Go library;
    - the evidence database is a finite map from keys to values which is
      iterated in ascending key order, together with a log of the writes it
      received and an oracle that says which of its operations fail;
    - the concurrent list of pending evidence is a [list];
    - a method of [*Pool] is a function in the monad [M] that threads the pool
      and can panic. *)

From Stdlib Require Import ZArith Lia Bool List Ascii String.
From stdpp Require Import base option list gmap strings sorting pretty.

Local Open Scope string_scope.
Local Open Scope Z_scope.

(** ** Machine integers *)

Module int64.
Definition min : Z := - 2 ^ 63.
Definition max : Z := 2 ^ 63 - 1.
Definition wrap (z : Z) : Z := (z + 2 ^ 63) mod 2 ^ 64 - 2 ^ 63.
Definition add (a b : Z) : Z := wrap (a + b).
Definition sub (a b : Z) : Z := wrap (a - b).
Definition in_range (z : Z) : Prop := min <= z <= max.
End int64.

Module uint32.
Definition wrap (z : Z) : Z := z mod 2 ^ 32.
(** [atomic.AddUint32(&x, d)] *)
Definition add (a d : Z) : Z := wrap (a + d).
(** [^uint32(0)], the all-ones word: adding it subtracts one. *)
Definition ones : Z := 2 ^ 32 - 1.
End uint32.

(** ** Time *)

Module time.
(** Nanoseconds since the epoch. *)
Definition Time := Z.
(** [type Duration int64], in nanoseconds. *)
Definition Duration := Z.
Definition minDuration : Duration := int64.min.
Definition maxDuration : Duration := int64.max.
Definition Second : Duration := 1000000000.
(** [t.Sub(u)]: the difference, or the minimum or maximum duration when the
    difference does not fit into a [Duration]. *)
Definition Sub (t u : Time) : Duration :=
  let d := t - u in
  if d <? minDuration then minDuration
  else if maxDuration <? d then maxDuration
  else d.
Definition Add (t : Time) (d : Duration) : Time := t + d.
Definition After (t u : Time) : bool := u <? t.
(** The zero value of [Time]: January 1, year 1, 00:00 UTC. *)
Definition zero : Time := -62135596800 * 1000000000.
End time.

(** ** Byte strings and their order *)

Abbreviation bytes := string.

Definition bytes_lt (a b : bytes) : Prop := String.compare a b = Lt.
Definition bytes_le (a b : bytes) : Prop := String.compare a b <> Gt.

Fixpoint HasPrefix (s prefix : bytes) : bool :=
  match prefix, s with
  | EmptyString, _ => true
  | String c p, String d t => if Ascii.eqb c d then HasPrefix t p else false
  | String _ _, EmptyString => false
  end.

(** ** Formatting: [%X] *)

(** One upper-case hexadecimal digit. *)
Definition upperhex (d : N) : ascii :=
  if (d <? 10)%N then ascii_of_N (48 + d) else ascii_of_N (55 + d).

(** The [k] low hexadecimal digits of [n], most significant first. *)
Fixpoint hexFixed (k : nat) (n : Z) : string :=
  match k with
  | O => EmptyString
  | S k' => String (upperhex (Z.to_N ((n / 16 ^ Z.of_nat k') mod 16))) (hexFixed k' n)
  end.

(** [fmt.Sprintf("%X", b)] for a byte slice: two digits per byte. *)
Fixpoint hexBytes (b : bytes) : string :=
  match b with
  | EmptyString => EmptyString
  | String c t =>
      String (upperhex (N_of_ascii c / 16)) (String (upperhex (N_of_ascii c mod 16)) (hexBytes t))
  end.

(** [bE]: big endian padded hex, [fmt.Sprintf("%0.16X", h)].  The precision
    asks for at least sixteen digits, and an [int64] never has more; a negative
    number is printed as a minus sign and the digits of its magnitude. *)
Definition bE (h : Z) : string :=
  if h <? 0 then String "-" (hexFixed 16 (- h)) else hexFixed 16 h.

(** ** The evidence database

    [dbm.DB] is an interface of the database package.  It is modelled as a
    finite map that is iterated in ascending key order.  Every operation may
    fail: the oracle [faulty] says, for the n-th operation on the handle,
    whether the engine returns an error.  [writes] records the write
    operations that were carried out, in order. *)

Inductive WriteOp : Type :=
| WSet (key value : bytes)
| WSetSync (key value : bytes)
| WDelete (key : bytes).

Record DB : Type := mkDB {
  entries : gmap string string;
  writes : list WriteOp;
  clock : nat;
  faulty : nat -> bool
}.

Definition key_le (a b : bytes * bytes) : Prop := Is_true (String.leb a.1 b.1).

#[global] Instance key_le_dec (a b : bytes * bytes) : Decision (key_le a b).
Proof. unfold key_le. apply _. Defined.

(** The entries in ascending key order. *)
Definition sortedEntries (m : gmap string string) : list (bytes * bytes) :=
  merge_sort key_le (map_to_list m).

Definition prefixEntries (prefix : bytes) (m : gmap string string) : list (bytes * bytes) :=
  List.filter (fun kv => HasPrefix kv.1 prefix) (sortedEntries m).

Module db.
Definition tick (d : DB) : DB :=
  mkDB (entries d) (writes d) (S (clock d)) (faulty d).

(** One operation of the engine: [None] when the engine reports an error. *)
Definition op {A : Type} (run : DB -> A * DB) (d : DB) : option A * DB :=
  if faulty d (clock d) then (None, tick d)
  else let '(a, d') := run (tick d) in (Some a, d').

(** [Get] returns a nil slice, not an error, for a key that is absent. *)
Definition Get (key : bytes) : DB -> option bytes * DB :=
  op (fun d => (default EmptyString (entries d !! key), d)).

Definition Has (key : bytes) : DB -> option bool * DB :=
  op (fun d => (bool_decide (is_Some (entries d !! key)), d)).

Definition Set_ (key value : bytes) : DB -> option unit * DB :=
  op (fun d => (tt, mkDB (<[key := value]> (entries d)) (writes d ++ [WSet key value])
                         (clock d) (faulty d))).

Definition SetSync (key value : bytes) : DB -> option unit * DB :=
  op (fun d => (tt, mkDB (<[key := value]> (entries d)) (writes d ++ [WSetSync key value])
                         (clock d) (faulty d))).

Definition Delete (key : bytes) : DB -> option unit * DB :=
  op (fun d => (tt, mkDB (delete key (entries d)) (writes d ++ [WDelete key])
                         (clock d) (faulty d))).

(** [Iterator(nil, nil)]: the iterator reads a snapshot of the whole store. *)
Definition Iterator : DB -> option (list (bytes * bytes)) * DB :=
  op (fun d => (sortedEntries (entries d), d)).

(** [IteratePrefix]: a snapshot of the entries whose key starts with [prefix]. *)
Definition IteratePrefix (prefix : bytes) : DB -> option (list (bytes * bytes)) * DB :=
  op (fun d => (prefixEntries prefix (entries d), d)).

(** [iter.Error()]: [Some tt] stands for nil, [None] for an error. *)
Definition IterError : DB -> option unit * DB :=
  op (fun d => (tt, d)).

(** An engine that never fails. *)
Definition reliable (d : DB) : Prop := forall n, faulty d n = false.

(** An in-memory database holding [m]. *)
Definition mem (m : gmap string string) : DB := mkDB m [] O (fun _ => false).
End db.

(** ** Collaborators

    The pool is polymorphic over the evidence type and uses functions of the
    packages [types], [state] and [orderedcode] and the protobuf codec; they
    are the fields of [Externals].  Where the Go function returns an error,
    the field returns the error's message on the right. *)

Inductive OrderedItem : Type :=
| OInt64 (i : Z)
| OString (s : string).

Class Externals : Type := {
  (** [types.Evidence] and its methods *)
  Evidence : Type;
  Height : Evidence -> Z;
  Time : Evidence -> time.Time;
  Hash : Evidence -> bytes;
  (** the type test for a pointer to [types.LightClientAttackEvidence] *)
  IsLightClientAttackEvidence : Evidence -> bool;
  (** [types.Vote], [types.ValidatorSet], [types.NewDuplicateVoteEvidence] *)
  Vote : Type;
  Vote_Height : Vote -> Z;
  ValidatorSet : Type;
  NewDuplicateVoteEvidence : Vote -> Vote -> time.Time -> ValidatorSet -> Evidence + string;
  (** [cmtproto.Evidence] and the codec *)
  EvidencePB : Type;
  EvidenceToProto : Evidence -> EvidencePB + string;
  EvidenceFromProto : EvidencePB -> Evidence + string;
  Marshal : EvidencePB -> bytes + string;
  Unmarshal : bytes -> EvidencePB + string;
  (** [cmtproto.EvidenceList.Size()] *)
  EvidenceList_Size : list EvidencePB -> Z;
  (** [proto.Marshal(&gogotypes.Int64Value{Value: h})] *)
  Marshal_Int64Value : Z -> bytes + string;
  (** [orderedcode.Append(nil, items...)]; it cannot fail on integers and strings *)
  orderedcode_Append : list OrderedItem -> bytes
}.

(** ** The pool *)

Section Pool.
Context `{Ext : Externals}.

Inductive error : Type :=
| ErrExternal (msg : string)
| ErrDatabase
| ErrEvidenceAlreadyCommitted
| ErrDuplicateEvidence
| ErrInvalidEvidence (ev : Evidence) (reason : error)
| ErrCannotLoadState (e : error)
| ErrMsgToProto (messageName : string) (e : error)
| Errorf (format : string) (e : error).

(** [types.EvidenceParams], the part of the consensus parameters the pool reads *)
Record EvidenceParams : Type := mkEvidenceParams {
  MaxAgeNumBlocks : Z;
  MaxAgeDuration : time.Duration;
  MaxBytes : Z
}.

(** [sm.State]; [ConsensusParams_Evidence] is [ConsensusParams.Evidence]. *)
Record sm_State : Type := mkState {
  LastBlockHeight : Z;
  LastBlockTime : time.Time;
  LastValidators : ValidatorSet;
  ConsensusParams_Evidence : EvidenceParams
}.

(** [sm.Store] *)
Record sm_Store : Type := mkStore {
  Load : sm_State + string;
  LoadValidators : Z -> ValidatorSet + string
}.

Record BlockMeta : Type := mkBlockMeta {
  Header_Height : Z;
  Header_Time : time.Time
}.

(** [BlockStore]; [LoadBlockMeta] returns nil for a height it does not have. *)
Record BlockStore : Type := mkBlockStore {
  LoadBlockMeta : Z -> option BlockMeta
}.

Record duplicateVoteSet : Type := mkDuplicateVoteSet {
  VoteA : Vote;
  VoteB : Vote
}.

Record KeyLayout : Type := mkKeyLayout {
  CalcKeyCommitted : Evidence -> bytes;
  CalcKeyPending : Evidence -> bytes;
  PrefixToBytesPending : bytes;
  PrefixToBytesCommitted : bytes
}.

Inductive Level : Type := Debug | Info | Error.

(** [log.Logger]: [NopLogger] discards, [Recorder] keeps the lines it was given. *)
Inductive Logger : Type :=
| NopLogger
| Recorder (lines : list (Level * string)).

Record Pool : Type := mkPool {
  logger : Logger;
  evidenceStore : DB;
  evidenceList : list Evidence;
  evidenceSize : Z;
  stateDB : sm_Store;
  blockStore : BlockStore;
  state : sm_State;
  consensusBuffer : list duplicateVoteSet;
  pruningHeight : Z;
  pruningTime : time.Time;
  dbKeyLayout : option KeyLayout
}.

Definition set_logger (l : Logger) (p : Pool) : Pool :=
  mkPool l (evidenceStore p) (evidenceList p) (evidenceSize p) (stateDB p) (blockStore p)
         (state p) (consensusBuffer p) (pruningHeight p) (pruningTime p) (dbKeyLayout p).
Definition set_evidenceStore (d : DB) (p : Pool) : Pool :=
  mkPool (logger p) d (evidenceList p) (evidenceSize p) (stateDB p) (blockStore p)
         (state p) (consensusBuffer p) (pruningHeight p) (pruningTime p) (dbKeyLayout p).
Definition set_evidenceList (l : list Evidence) (p : Pool) : Pool :=
  mkPool (logger p) (evidenceStore p) l (evidenceSize p) (stateDB p) (blockStore p)
         (state p) (consensusBuffer p) (pruningHeight p) (pruningTime p) (dbKeyLayout p).
Definition set_evidenceSize (n : Z) (p : Pool) : Pool :=
  mkPool (logger p) (evidenceStore p) (evidenceList p) n (stateDB p) (blockStore p)
         (state p) (consensusBuffer p) (pruningHeight p) (pruningTime p) (dbKeyLayout p).
Definition set_state (s : sm_State) (p : Pool) : Pool :=
  mkPool (logger p) (evidenceStore p) (evidenceList p) (evidenceSize p) (stateDB p) (blockStore p)
         s (consensusBuffer p) (pruningHeight p) (pruningTime p) (dbKeyLayout p).
Definition set_consensusBuffer (b : list duplicateVoteSet) (p : Pool) : Pool :=
  mkPool (logger p) (evidenceStore p) (evidenceList p) (evidenceSize p) (stateDB p) (blockStore p)
         (state p) b (pruningHeight p) (pruningTime p) (dbKeyLayout p).
Definition set_pruning (h : Z) (t : time.Time) (p : Pool) : Pool :=
  mkPool (logger p) (evidenceStore p) (evidenceList p) (evidenceSize p) (stateDB p) (blockStore p)
         (state p) (consensusBuffer p) h t (dbKeyLayout p).
Definition set_dbKeyLayout (l : option KeyLayout) (p : Pool) : Pool :=
  mkPool (logger p) (evidenceStore p) (evidenceList p) (evidenceSize p) (stateDB p) (blockStore p)
         (state p) (consensusBuffer p) (pruningHeight p) (pruningTime p) l.

(** *** The monad of pool methods *)

Inductive outcome (A : Type) : Type :=
| Ok (a : A) (p : Pool)
| Panic (msg : string) (p : Pool).
Arguments Ok {A} a p.
Arguments Panic {A} msg p.

Definition M (A : Type) : Type := Pool -> outcome A.

Definition ret {A : Type} (a : A) : M A := fun p => Ok a p.
Definition bind {A B : Type} (c : M A) (k : A -> M B) : M B :=
  fun p => match c p with
           | Ok a p' => k a p'
           | Panic msg p' => Panic msg p'
           end.
Definition panic {A : Type} (msg : string) : M A := fun p => Panic msg p.
Definition get : M Pool := fun p => Ok p p.
Definition modify (f : Pool -> Pool) : M unit := fun p => Ok tt (f p).

Notation "'do' X <- A ; B" := (bind A (fun X => B))
  (at level 10, X name, A at level 100, B at level 200).
Notation "'do' ( X , Y ) <- A ; B" := (bind A (fun '(X, Y) => B))
  (at level 10, X name, Y name, A at level 100, B at level 200).

(** A call of a logger method. *)
Definition log (lvl : Level) (msg : string) : M unit :=
  modify (fun p => match logger p with
                   | NopLogger => p
                   | Recorder lines => set_logger (Recorder (lines ++ [(lvl, msg)])) p
                   end).

(** An operation on [evpool.evidenceStore]. *)
Definition store {A : Type} (f : DB -> option A * DB) : M (option A) :=
  fun p => let '(r, d) := f (evidenceStore p) in Ok r (set_evidenceStore d p).

(** A method call on [evpool.dbKeyLayout]; on a nil interface it panics. *)
Definition layout : M KeyLayout :=
  fun p => match dbKeyLayout p with
           | Some l => Ok l p
           | None => Panic "invalid memory address or nil pointer dereference" p
           end.

Definition external {A : Type} (r : A + string) : A + error :=
  match r with
  | inl a => inl a
  | inr msg => inr (ErrExternal msg)
  end.

(** *** DB key layout representation *)

Definition baseKeyCommitted : ascii := ascii_of_N 0.
Definition baseKeyPending : ascii := ascii_of_N 1.
Definition prefixCommitted : Z := 9.
Definition prefixPending : Z := 10.

Definition keySuffix (evidence : Evidence) : bytes :=
  bE (Height evidence) ++ "/" ++ hexBytes (Hash evidence).

Definition v1LegacyLayout : KeyLayout := {|
  PrefixToBytesCommitted := String baseKeyCommitted EmptyString;
  PrefixToBytesPending := String baseKeyPending EmptyString;
  CalcKeyCommitted := fun evidence => String baseKeyCommitted (keySuffix evidence);
  CalcKeyPending := fun evidence => String baseKeyPending (keySuffix evidence)
|}.

Definition v2Layout : KeyLayout := {|
  PrefixToBytesCommitted := orderedcode_Append [OInt64 prefixCommitted];
  PrefixToBytesPending := orderedcode_Append [OInt64 prefixPending];
  CalcKeyCommitted := fun evidence =>
    orderedcode_Append [OInt64 prefixCommitted; OInt64 (Height evidence); OString (Hash evidence)];
  CalcKeyPending := fun evidence =>
    orderedcode_Append [OInt64 prefixPending; OInt64 (Height evidence); OString (Hash evidence)]
|}.

(** *** Pool methods *)

(** [verify] checks a piece of evidence against the state, the state store
    and the block store (file verify.go); the pool only calls it. *)
Variable verify : sm_State -> sm_Store -> BlockStore -> Evidence -> option error.

Definition isEmpty : M bool :=
  do r <- store db.Iterator;
  match r with
  | None => panic "database error"
  | Some [] => ret true
  | Some (_ :: _) => ret false
  end.

Definition setDBLayout (dbKeyLayoutVersion : string) : M unit :=
  do empty <- isEmpty;
  do dbKeyLayoutVersion <-
    (if negb empty then
       do r <- store (db.Get "version");
       match r with
       | None => panic "database error"
       | Some version =>
           if negb (String.length version =? 0)%nat then ret version
           else ret dbKeyLayoutVersion
       end
     else ret dbKeyLayoutVersion);
  do dbKeyLayoutVersion <-
    (if (dbKeyLayoutVersion =? "v1")%string || (dbKeyLayoutVersion =? "")%string then
       do _ <- modify (set_dbKeyLayout (Some v1LegacyLayout));
       ret "v1"
     else if (dbKeyLayoutVersion =? "v2")%string then
       do _ <- modify (set_dbKeyLayout (Some v2Layout));
       ret dbKeyLayoutVersion
     else panic "unknown key layout version");
  do r <- store (db.SetSync "version" dbKeyLayoutVersion);
  match r with
  | None => panic "database error"
  | Some _ => ret tt
  end.

Definition PoolOptions : Type := M unit.

Definition WithDBKeyLayout (dbKeyLayoutV : string) : PoolOptions :=
  setDBLayout dbKeyLayoutV.

Definition Size (evpool : Pool) : Z := evidenceSize evpool.

Definition State (evpool : Pool) : sm_State := state evpool.

Definition isExpired (evpool : Pool) (height : Z) (t : time.Time) : bool :=
  let params := ConsensusParams_Evidence (State evpool) in
  let ageDuration := time.Sub (LastBlockTime (State evpool)) t in
  let ageNumBlocks := int64.sub (LastBlockHeight (State evpool)) height in
  (MaxAgeNumBlocks params <? ageNumBlocks) && (MaxAgeDuration params <? ageDuration).

Definition isCommitted (evidence : Evidence) : M bool :=
  do l <- layout;
  let key := CalcKeyCommitted l evidence in
  do r <- store (db.Has key);
  match r with
  | None => do _ <- log Error "Unable to find committed evidence"; ret false
  | Some ok => ret ok
  end.

Definition isPending (evidence : Evidence) : M bool :=
  do l <- layout;
  let key := CalcKeyPending l evidence in
  do r <- store (db.Has key);
  match r with
  | None => do _ <- log Error "Unable to find pending evidence"; ret false
  | Some ok => ret ok
  end.

Definition addPendingEvidence (ev : Evidence) : M (option error) :=
  match external (EvidenceToProto ev) with
  | inr e => ret (Some (ErrMsgToProto "Evidence" e))
  | inl evpb =>
      match external (Marshal evpb) with
      | inr e => ret (Some (Errorf "unable to marshal evidence: %w" e))
      | inl evBytes =>
          do l <- layout;
          let key := CalcKeyPending l ev in
          do r <- store (db.Set_ key evBytes);
          match r with
          | None => ret (Some (Errorf "can't persist evidence: %w" ErrDatabase))
          | Some _ =>
              do _ <- modify (fun p => set_evidenceSize (uint32.add (evidenceSize p) 1) p);
              ret None
          end
      end
  end.

Definition removePendingEvidence (evidence : Evidence) : M unit :=
  do l <- layout;
  let key := CalcKeyPending l evidence in
  do r <- store (db.Delete key);
  match r with
  | None => log Error "Unable to delete pending evidence"
  | Some _ =>
      do _ <- modify (fun p => set_evidenceSize (uint32.add (evidenceSize p) uint32.ones) p);
      log Debug "Deleted pending evidence"
  end.

Definition evMapKey (ev : Evidence) : string := Hash ev.

(** The loop walks the list once; an element whose key is in the map is
    unlinked, and its successor is still reached through it. *)
Definition removeEvidenceFromList (blockEvidenceMap : gset string) : M unit :=
  modify (fun p =>
    set_evidenceList
      (List.filter (fun ev => negb (bool_decide (evMapKey ev ∈ blockEvidenceMap))) (evidenceList p)) p).

Definition PushBack (ev : Evidence) : M unit :=
  modify (fun p => set_evidenceList (evidenceList p ++ [ev]) p).

Fixpoint markEvidenceAsCommitted_loop (evidence : list Evidence) (blockEvidenceMap : gset string)
  : M (gset string) :=
  match evidence with
  | [] => ret blockEvidenceMap
  | ev :: rest =>
      do pending <- isPending ev;
      do blockEvidenceMap <-
        (if pending then
           do _ <- removePendingEvidence ev;
           ret ({[evMapKey ev]} ∪ blockEvidenceMap)
         else ret blockEvidenceMap);
      do l <- layout;
      let key := CalcKeyCommitted l ev in
      match external (Marshal_Int64Value (Height ev)) with
      | inr _ =>
          do _ <- log Error "failed to marshal committed evidence";
          markEvidenceAsCommitted_loop rest blockEvidenceMap
      | inl evBytes =>
          do r <- store (db.Set_ key evBytes);
          do _ <- match r with
                  | None => log Error "Unable to save committed evidence"
                  | Some _ => ret tt
                  end;
          markEvidenceAsCommitted_loop rest blockEvidenceMap
      end
  end.

Definition markEvidenceAsCommitted (evidence : list Evidence) : M unit :=
  do blockEvidenceMap <- markEvidenceAsCommitted_loop evidence ∅;
  if negb (size blockEvidenceMap =? 0)%nat then removeEvidenceFromList blockEvidenceMap
  else ret tt.

Definition iterError : M (option error) :=
  do r <- store db.IterError;
  match r with
  | None => ret (Some ErrDatabase)
  | Some _ => ret None
  end.

Fixpoint listEvidence_loop (items : list (bytes * bytes)) (maxBytes : Z)
    (totalSize : Z) (evidence : list Evidence) (evList : list EvidencePB)
  : M (list Evidence * Z * option error) :=
  match items with
  | [] =>
      do e <- iterError;
      ret (evidence, totalSize, e)
  | (_, value) :: rest =>
      match external (Unmarshal value) with
      | inr e => ret (evidence, totalSize, Some e)
      | inl evpb =>
          let evList := (evList ++ [evpb])%list in
          let evSize := EvidenceList_Size evList in
          if negb (maxBytes =? -1) && (maxBytes <? evSize) then
            do e <- iterError;
            ret (evidence, totalSize, e)
          else
            match external (EvidenceFromProto evpb) with
            | inr e => ret ([], totalSize, Some e)
            | inl ev => listEvidence_loop rest maxBytes evSize (evidence ++ [ev]) evList
            end
      end
  end.

(** [listEvidence] lists evidence from oldest to newest within [maxBytes]. *)
Definition listEvidence (prefixKey : bytes) (maxBytes : Z)
  : M (list Evidence * Z * option error) :=
  do r <- store (db.IteratePrefix prefixKey);
  match r with
  | None => ret ([], 0, Some (Errorf "database error: %v" ErrDatabase))
  | Some items => listEvidence_loop items maxBytes 0 [] []
  end.

(** On an unmarshalling error the Go function also returns an empty
    duplicate-vote evidence, which no caller reads. *)
Definition bytesToEv (evBytes : bytes) : Evidence + error :=
  match external (Unmarshal evBytes) with
  | inr e => inr e
  | inl evpb => external (EvidenceFromProto evpb)
  end.

Definition removeIfAny (blockEvidenceMap : gset string) : M unit :=
  if negb (size blockEvidenceMap =? 0)%nat then removeEvidenceFromList blockEvidenceMap
  else ret tt.

Fixpoint removeExpiredPendingEvidence_loop (items : list (bytes * bytes))
    (blockEvidenceMap : gset string) : M (Z * time.Time) :=
  match items with
  | [] =>
      do _ <- removeIfAny blockEvidenceMap;
      do p <- get;
      ret (LastBlockHeight (State p), LastBlockTime (State p))
  | (_, value) :: rest =>
      match bytesToEv value with
      | inr _ =>
          do _ <- log Error "Error in transition evidence from protobuf";
          removeExpiredPendingEvidence_loop rest blockEvidenceMap
      | inl ev =>
          do p <- get;
          if negb (isExpired p (Height ev) (Time ev)) then
            do _ <- removeIfAny blockEvidenceMap;
            do p <- get;
            ret (int64.add (int64.add (Height ev)
                              (MaxAgeNumBlocks (ConsensusParams_Evidence (State p)))) 1,
                 time.Add (time.Add (Time ev)
                              (MaxAgeDuration (ConsensusParams_Evidence (State p)))) time.Second)
          else
            do _ <- removePendingEvidence ev;
            removeExpiredPendingEvidence_loop rest ({[evMapKey ev]} ∪ blockEvidenceMap)
      end
  end.

Definition removeExpiredPendingEvidence : M (Z * time.Time) :=
  do l <- layout;
  do r <- store (db.IteratePrefix (PrefixToBytesPending l));
  match r with
  | None =>
      do _ <- log Error "Unable to iterate over pending evidence";
      do p <- get;
      ret (LastBlockHeight (State p), LastBlockTime (State p))
  | Some items => removeExpiredPendingEvidence_loop items ∅
  end.

Definition updateState (state : sm_State) : M unit :=
  modify (set_state state).

(** The body of the loop of [processConsensusBuffer]; a [continue] ends it. *)
Definition processVoteSet (state : sm_State) (voteSet : duplicateVoteSet) : M unit :=
  do made <-
    (if Vote_Height (VoteA voteSet) =? LastBlockHeight state then
       ret (Some (external (NewDuplicateVoteEvidence (VoteA voteSet) (VoteB voteSet)
                              (LastBlockTime state) (LastValidators state))))
     else if Vote_Height (VoteA voteSet) <? LastBlockHeight state then
       do p <- get;
       match LoadValidators (stateDB p) (Vote_Height (VoteA voteSet)) with
       | inr _ =>
           do _ <- log Error "failed to load validator set for conflicting votes";
           ret None
       | inl valSet =>
           match LoadBlockMeta (blockStore p) (Vote_Height (VoteA voteSet)) with
           | None =>
               do _ <- log Error "failed to load block time for conflicting votes";
               ret None
           | Some blockMeta =>
               ret (Some (external (NewDuplicateVoteEvidence (VoteA voteSet) (VoteB voteSet)
                                      (Header_Time blockMeta) valSet)))
           end
       end
     else
       do _ <- log Error
         "inbound duplicate votes from consensus are of a greater height than current state";
       ret None);
  match made with
  | None => ret tt
  | Some (inr _) => log Error "error in generating evidence from votes"
  | Some (inl dve) =>
      do pending <- isPending dve;
      if pending then log Info "evidence already pending; ignoring"
      else
        do committed <- isCommitted dve;
        if committed then log Info "evidence already committed; ignoring"
        else
          do e <- addPendingEvidence dve;
          match e with
          | Some _ =>
              log Error "failed to flush evidence from consensus buffer to pending list: %w"
          | None =>
              do _ <- PushBack dve;
              log Info "verified new evidence of byzantine behavior"
          end
  end.

Fixpoint forEach {A : Type} (l : list A) (body : A -> M unit) : M unit :=
  match l with
  | [] => ret tt
  | x :: rest => do _ <- body x; forEach rest body
  end.

Definition processConsensusBuffer (state : sm_State) : M unit :=
  do p <- get;
  do _ <- forEach (consensusBuffer p) (processVoteSet state);
  modify (set_consensusBuffer []).

Definition PendingEvidence (maxBytes : Z) : M (list Evidence * Z) :=
  do p <- get;
  if Size p =? 0 then ret ([], 0)
  else
    do l <- layout;
    do res <- listEvidence (PrefixToBytesPending l) maxBytes;
    let '(evidence, size, e) := res in
    match e with
    | Some _ =>
        do _ <- log Error "Unable to retrieve pending evidence";
        ret ([], 0)
    | None => ret (evidence, size)
    end.

Definition Update (state : sm_State) (ev : list Evidence) : M unit :=
  do p <- get;
  if LastBlockHeight state <=? LastBlockHeight (Pool.state p) then
    panic ("failed EvidencePool.Update new state height is less than or equal to previous state height: "
             ++ pretty (LastBlockHeight state) ++ " <= " ++ pretty (LastBlockHeight (Pool.state p)))
  else
    do _ <- log Debug "Updating evidence pool";
    do _ <- processConsensusBuffer state;
    do _ <- updateState state;
    do _ <- markEvidenceAsCommitted ev;
    do p <- get;
    if (0 <? Size p) && (pruningHeight p <? LastBlockHeight state)
       && time.After (LastBlockTime state) (pruningTime p) then
      do (h, t) <- removeExpiredPendingEvidence;
      modify (set_pruning h t)
    else ret tt.

Definition AddEvidence (ev : Evidence) : M (option error) :=
  do _ <- log Info "Attempting to add evidence";
  do pending <- isPending ev;
  if pending then
    do _ <- log Info "Evidence already pending, ignoring this one";
    ret None
  else
    do committed <- isCommitted ev;
    if committed then
      do _ <- log Info "Evidence was already committed, ignoring this one";
      ret None
    else
      do p <- get;
      match verify (State p) (stateDB p) (blockStore p) ev with
      | Some e => ret (Some (ErrInvalidEvidence ev e))
      | None =>
          do e <- addPendingEvidence ev;
          match e with
          | Some e => ret (Some (Errorf "can't add evidence to pending list: %w" e))
          | None =>
              do _ <- PushBack ev;
              do _ <- log Info "Verified new evidence of byzantine behavior";
              ret None
          end
      end.

Definition ReportConflictingVotes (voteA voteB : Vote) : M unit :=
  modify (fun p => set_consensusBuffer (consensusBuffer p ++ [mkDuplicateVoteSet voteA voteB]) p).

(** The first part of the loop body of [CheckEvidence]: light client attack
    evidence and evidence that is not pending is checked against the committed
    keys, verified and written to the pending keys.  [Some e] stands for
    [return e], [None] for falling through to the duplicate check. *)
Definition verifyAndAdd (ev : Evidence) : M (option error) :=
  let isLightEv := IsLightClientAttackEvidence ev in
  do recheck <-
    (if isLightEv then ret true
     else do pending <- isPending ev; ret (negb pending));
  if recheck then
    do committed <- isCommitted ev;
    if committed then ret (Some (ErrInvalidEvidence ev ErrEvidenceAlreadyCommitted))
    else
      do p <- get;
      match verify (State p) (stateDB p) (blockStore p) ev with
      | Some e => ret (Some e)
      | None =>
          do e <- addPendingEvidence ev;
          do _ <- match e with
                  | Some _ => log Error "Can't add evidence to pending list"
                  | None => ret tt
                  end;
          do _ <- log Info "Check evidence: verified evidence of byzantine behavior";
          ret None
      end
  else ret None.

(** [hashes] holds the hashes of the elements before the current one. *)
Fixpoint CheckEvidence_loop (evList : list Evidence) (hashes : list bytes) : M (option error) :=
  match evList with
  | [] => ret None
  | ev :: rest =>
      do failed <- verifyAndAdd ev;
      match failed with
      | Some e => ret (Some e)
      | None =>
          if existsb (String.eqb (Hash ev)) hashes then
            ret (Some (ErrInvalidEvidence ev ErrDuplicateEvidence))
          else CheckEvidence_loop rest (hashes ++ [Hash ev])
      end
  end.

Definition CheckEvidence (evList : list Evidence) : M (option error) :=
  CheckEvidence_loop evList [].

Definition SetLogger (l : Logger) : M unit := modify (set_logger l).

(** The result of [NewPool]; [db] is the evidence database as the call left it. *)
Inductive NewPoolResult : Type :=
| NewPoolOk (pool : Pool)
| NewPoolErr (e : error) (db : DB)
| NewPoolPanic (msg : string) (db : DB).

Definition NewPool (evidenceDB : DB) (stateDB : sm_Store) (blockStore : BlockStore)
    (options : list PoolOptions) : NewPoolResult :=
  match Load stateDB with
  | inr e => NewPoolErr (ErrCannotLoadState (ErrExternal e)) evidenceDB
  | inl state =>
      let pool := mkPool NopLogger evidenceDB [] 0 stateDB blockStore state [] 0 time.zero None in
      let open : M (option error) :=
        do _ <- forEach options (fun option => option);
        do p <- get;
        do _ <- match dbKeyLayout p with
                | None => setDBLayout "v1"
                | Some _ => ret tt
                end;
        do (h, t) <- removeExpiredPendingEvidence;
        do _ <- modify (set_pruning h t);
        do l <- layout;
        do res <- listEvidence (PrefixToBytesPending l) (-1);
        let '(evList, _, e) := res in
        match e with
        | Some e => ret (Some e)
        | None =>
            do _ <- modify (set_evidenceSize (uint32.wrap (Z.of_nat (length evList))));
            do _ <- forEach evList PushBack;
            ret None
        end in
      match open pool with
      | Ok None p => NewPoolOk p
      | Ok (Some e) p => NewPoolErr e (evidenceStore p)
      | Panic msg p => NewPoolPanic msg (evidenceStore p)
      end
  end.

End Pool.

Arguments Ok {Ext A} a p.
Arguments Panic {Ext A} msg p.

(** ** A small instance of the collaborators

    Evidence is a record of the values its methods return; the codecs write
    one byte per number and then the hash.  It is used to run the pool on
    concrete inputs. *)

Module Toy.
Record Ev : Type := mkEv {
  height : Z;
  at_time : Z;
  light : bool;
  hash : string
}.

Record ToyVote : Type := mkVote {
  vote_height : Z;
  block_id : string
}.

Definition marshal (e : Ev) : bytes + string :=
  if (0 <=? height e) && (height e <? 256) && (0 <=? at_time e) && (at_time e <? 256) then
    inl (String (ascii_of_N (Z.to_N (height e)))
           (String (ascii_of_N (Z.to_N (at_time e)))
              (String (if light e then "L"%char else "D"%char) (hash e))))
  else inr "number out of range".

Definition unmarshal (b : bytes) : Ev + string :=
  match b with
  | String h (String t (String k rest)) =>
      if Ascii.eqb k "L" then inl (mkEv (Z.of_N (N_of_ascii h)) (Z.of_N (N_of_ascii t)) true rest)
      else if Ascii.eqb k "D" then
        inl (mkEv (Z.of_N (N_of_ascii h)) (Z.of_N (N_of_ascii t)) false rest)
      else inr "unknown evidence kind"
  | _ => inr "unexpected end of input"
  end.

Definition listSize (l : list Ev) : Z :=
  fold_right (fun e acc => 5 + Z.of_nat (String.length (hash e)) + acc) 0 l.

Definition newDuplicateVoteEvidence (a b : ToyVote) (t : time.Time) (_ : unit) : Ev + string :=
  if (block_id a =? block_id b)%string then inr "votes are for the same block"
  else inl (mkEv (vote_height a) t false (block_id a ++ block_id b)).

Definition appendItem (i : OrderedItem) : bytes :=
  match i with
  | OInt64 z => String (ascii_of_N (Z.to_N z)) EmptyString
  | OString s => s ++ String (ascii_of_N 0) (String (ascii_of_N 1) EmptyString)
  end.

#[global] Instance externals : Externals := {|
  Evidence := Ev;
  Height := height;
  Time := at_time;
  Hash := hash;
  IsLightClientAttackEvidence := light;
  Vote := ToyVote;
  Vote_Height := vote_height;
  ValidatorSet := unit;
  NewDuplicateVoteEvidence := newDuplicateVoteEvidence;
  EvidencePB := Ev;
  EvidenceToProto := inl;
  EvidenceFromProto := inl;
  Marshal := marshal;
  Unmarshal := unmarshal;
  EvidenceList_Size := listSize;
  Marshal_Int64Value := fun z => inl (String (ascii_of_N (Z.to_N z)) EmptyString);
  orderedcode_Append := fun items => String.concat EmptyString (map appendItem items)
|}.

(** A verifier that accepts everything, and one that rejects everything. *)
Definition accept (_ : sm_State) (_ : sm_Store) (_ : BlockStore) (_ : Ev) : option error := None.
Definition reject (_ : sm_State) (_ : sm_Store) (_ : BlockStore) (_ : Ev) : option error :=
  Some (ErrExternal "rejected").

Definition params : EvidenceParams := mkEvidenceParams 10 60 1000.
Definition stateAt (h : Z) (t : time.Time) : sm_State := mkState h t tt params.
Definition stateStore (s : sm_State) : sm_Store := mkStore (inl s) (fun _ => inl tt).
Definition blocks : BlockStore := mkBlockStore (fun h => Some (mkBlockMeta h h)).

(** A pool over an in-memory store holding [m], with the legacy layout. *)
Definition poolOver (m : gmap string string) (s : sm_State) (l : list Ev) : Pool :=
  mkPool (Recorder []) (db.mem m) l (Z.of_nat (length l)) (stateStore s) blocks s [] 0 0
         (Some v1LegacyLayout).

(** A pool that has no layout yet, as [NewPool] builds it before the options run. *)
Definition unopened (m : gmap string string) (s : sm_State) : Pool :=
  mkPool NopLogger (db.mem m) [] 0 (stateStore s) blocks s [] 0 time.zero None.

(** The entry under which the legacy layout stores [e]. *)
Definition entry (e : Ev) : bytes * bytes :=
  (CalcKeyPending v1LegacyLayout e,
   match marshal e with
   | inl b => b
   | inr _ => EmptyString
   end).

Definition storeOf (l : list Ev) : gmap string string := list_to_map (map entry l).

(** Evidence at heights 5 and 30, and two pieces at height 1 whose hashes
    are in the opposite order. *)
Definition old : Ev := mkEv 5 3 false "AB".
Definition recent : Ev := mkEv 30 200 false "CD".
Definition first_B : Ev := mkEv 1 0 false "B".
Definition then_A : Ev := mkEv 1 0 false "A".
Definition attack : Ev := mkEv 7 3 true "EF".

(** The state at height 40 and time 300: [old] is expired, [recent] is not. *)
Definition now : sm_State := stateAt 40 300.

(** A pending key with a value that does not decode. *)
Definition badKey : bytes := String baseKeyPending "zz".
Definition corrupt : gmap string string := <[badKey := "x"]> (storeOf [recent]).

Definition votesAt (h : Z) : duplicateVoteSet :=
  mkDuplicateVoteSet (mkVote h "X") (mkVote h "Y").

(** Pools: an empty one at height 8; one that is not yet opened, over a
    store with a pending entry and no version record; one with [old] and
    [recent] pending; one with [recent] pending and two buffered pairs of
    votes. *)
Definition fresh : Pool := poolOver ∅ (stateAt 8 9) [].
Definition unversioned : Pool := unopened (storeOf [old]) now.
Definition twoPending : Pool := poolOver (storeOf [old; recent]) now [old; recent].
Definition buffered : Pool :=
  set_consensusBuffer [votesAt 41; votesAt 50] (poolOver (storeOf [recent]) now [recent]).

(** Evidence at negative heights, and evidence that shares height and hash
    with [old] but nothing else. *)
Definition below : Ev := mkEv (-3) 0 false "N".
Definition lower : Ev := mkEv (-7) 0 false "N".
Definition old_again : Ev := mkEv 5 77 true "AB".

(** A store whose operation number [n] fails, and no other. *)
Definition failingAt (n : nat) (m : gmap string string) : DB :=
  mkDB m [] O (fun k => Nat.eqb k n).

(** Pools: one whose store has [old] under its committed key; an empty one
    whose third store operation fails; one with [old] and [recent] pending
    whose first store operation fails; one with [attack] pending; one with
    [recent] pending at height 8; one over the damaged store; an empty one
    with a buffered pair of votes of height 9. *)
Definition oldCommitted : Pool :=
  poolOver {[CalcKeyCommitted v1LegacyLayout old := "x"]} (stateAt 8 9) [].
Definition failsOnWrite : Pool := set_evidenceStore (failingAt 2 ∅) fresh.
Definition failsOnScan : Pool :=
  set_evidenceStore (failingAt 0 (storeOf [old; recent])) twoPending.
Definition attackPending : Pool := poolOver (storeOf [attack]) (stateAt 8 9) [attack].
Definition recentPending : Pool := poolOver (storeOf [recent]) (stateAt 8 9) [recent].
Definition damaged : Pool := poolOver corrupt now [recent].
Definition oneBuffered : Pool := set_consensusBuffer [votesAt 9] fresh.
End Toy.

Local Open Scope list_scope.

(** ** Vocabulary of the specifications *)

Section Vocabulary.
Context `{Ext : Externals}.

(** [wp c p Q]: from [p] the computation [c] returns (it does not panic), and
    its result and the pool it leaves satisfy [Q]. *)
Definition wp {A : Type} (c : M A) (p : Pool) (Q : A -> Pool -> Prop) : Prop :=
  match c p with
  | Ok a p' => Q a p'
  | Panic _ _ => False
  end.

(** The store holds the same data and has received no further write. *)
Definition same_store (d d' : DB) : Prop :=
  entries d' = entries d /\ writes d' = writes d /\ faulty d' = faulty d.

(** The parts of the pool that only [Update] and the constructor assign. *)
Definition same_frame (p p' : Pool) : Prop :=
  faulty (evidenceStore p') = faulty (evidenceStore p) /\
  stateDB p' = stateDB p /\ blockStore p' = blockStore p /\ state p' = state p /\
  consensusBuffer p' = consensusBuffer p /\
  pruningHeight p' = pruningHeight p /\ pruningTime p' = pruningTime p /\
  dbKeyLayout p' = dbKeyLayout p.

(** Nothing but the logger and the operation count of the store differs. *)
Definition quiet (p p' : Pool) : Prop :=
  same_store (evidenceStore p) (evidenceStore p') /\
  evidenceList p' = evidenceList p /\ evidenceSize p' = evidenceSize p /\
  same_frame p p'.

(** The v1 pending key of evidence with the given height and hash. *)
Definition v1PendingKey (h : Z) (hash : bytes) : bytes :=
  String baseKeyPending (bE h ++ "/" ++ hexBytes hash).

(** What a successful [addPendingEvidence] leaves: one more entry and a
    counter that is one higher. *)
Definition added (L : KeyLayout) (ev : Evidence) (p p' : Pool) : Prop :=
  exists evpb evBytes,
    EvidenceToProto ev = inl evpb /\ Marshal evpb = inl evBytes /\
    entries (evidenceStore p') = <[CalcKeyPending L ev := evBytes]> (entries (evidenceStore p)) /\
    writes (evidenceStore p') = writes (evidenceStore p) ++ [WSet (CalcKeyPending L ev) evBytes] /\
    evidenceSize p' = uint32.add (evidenceSize p) 1.


(** What the next [Has(key)] of the store answers; an error counts as false. *)
Definition answers (key : bytes) (d : DB) : bool :=
  match (db.Has key d).1 with
  | Some true => true
  | _ => false
  end.

(** [AddEvidence] finds the evidence pending. *)
Definition alreadyPending (ev : Evidence) (p : Pool) : Prop :=
  exists p1, isPending ev p = Ok true p1.

(** [AddEvidence] finds the evidence not pending but committed. *)
Definition alreadyCommitted (ev : Evidence) (p : Pool) : Prop :=
  exists p1 p2, isPending ev p = Ok false p1 /\ isCommitted ev p1 = Ok true p2.

(** What [AddEvidence] does to a pool whose store does not fail: nothing
    when the evidence is pending or committed, when the verifier rejects it or
    when it cannot be serialised; otherwise it is added. *)
Definition AddEvidence_effect (verify : sm_State -> sm_Store -> BlockStore -> Evidence -> option error)
    (L : KeyLayout) (ev : Evidence) (p p' : Pool) : Prop :=
  if bool_decide (is_Some (entries (evidenceStore p) !! CalcKeyPending L ev))
     || bool_decide (is_Some (entries (evidenceStore p) !! CalcKeyCommitted L ev))
  then quiet p p'
  else match verify (State p) (stateDB p) (blockStore p) ev with
       | Some _ => quiet p p'
       | None =>
           match EvidenceToProto ev with
           | inr _ => quiet p p'
           | inl evpb =>
               match Marshal evpb with
               | inr _ => quiet p p'
               | inl _ => added L ev p p' /\ evidenceList p' = evidenceList p ++ [ev]
               end
           end
       end.

(** The evidence that the flush forms from a buffered pair of votes, if it
    can: with the time and validators of the new state for votes of its height,
    with the stored block time and validators for votes of an earlier height;
    votes of a later height form nothing. *)
Definition formed (state : sm_State) (p : Pool) (voteSet : duplicateVoteSet) : option Evidence :=
  let h := Vote_Height (VoteA voteSet) in
  if h =? LastBlockHeight state then
    match NewDuplicateVoteEvidence (VoteA voteSet) (VoteB voteSet)
            (LastBlockTime state) (LastValidators state) with
    | inl dve => Some dve
    | inr _ => None
    end
  else if h <? LastBlockHeight state then
    match LoadValidators (stateDB p) h, LoadBlockMeta (blockStore p) h with
    | inl valSet, Some blockMeta =>
        match NewDuplicateVoteEvidence (VoteA voteSet) (VoteB voteSet)
                (Header_Time blockMeta) valSet with
        | inl dve => Some dve
        | inr _ => None
        end
    | _, _ => None
    end
  else None.

(** The pools agree on everything but the logger, the operation count of the
    store and the consensus buffer. *)
Definition quiet_but_buffer (p p' : Pool) : Prop :=
  quiet (set_consensusBuffer [] p) (set_consensusBuffer [] p').

(** The version that decides the layout: the version record when the store
    has one (and it is not empty), otherwise the requested version. *)
Definition selectedVersion (requested : string) (d : DB) : string :=
  match entries d !! "version" with
  | Some recorded => if (String.length recorded =? 0)%nat then requested else recorded
  | None => requested
  end.

(** The layout of a version and the version that is written back; an unset
    version means v1. *)
Definition layoutOf (version : string) : option (KeyLayout * string) :=
  if (version =? "v1")%string || (version =? "")%string then Some (v1LegacyLayout, "v1")
  else if (version =? "v2")%string then Some (v2Layout, "v2")
  else None.

(** A stored entry and what it decodes to. *)
Definition decodes (kv : bytes * bytes) (d : EvidencePB * Evidence) : Prop :=
  Unmarshal kv.2 = inl d.1 /\ EvidenceFromProto d.1 = inl d.2.

(** How many of the messages [pbs] fit: the count stops before the first
    message with which the size of the list read so far ([acc] and the
    messages taken) would exceed [maxBytes]; -1 means no limit. *)
Fixpoint within (maxBytes : Z) (pbs acc : list EvidencePB) : nat :=
  match pbs with
  | [] => O
  | pb :: rest =>
      if negb (maxBytes =? -1) && (maxBytes <? EvidenceList_Size (acc ++ [pb])) then O
      else S (within maxBytes rest (acc ++ [pb]))
  end.

(** The evidence of a stored entry, if the entry decodes. *)
Definition decoded (kv : bytes * bytes) : option Evidence :=
  match bytesToEv kv.2 with
  | inl ev => Some ev
  | inr _ => None
  end.

(** The scan of the pruner, as the specification describes it: the expired
    evidence met before the first entry that is not expired, and that entry's
    evidence, if there is one.  Entries that do not decode are passed over. *)
Fixpoint expiredBefore (p : Pool) (items : list (bytes * bytes))
  : list Evidence * option Evidence :=
  match items with
  | [] => ([], None)
  | kv :: rest =>
      match decoded kv with
      | None => expiredBefore p rest
      | Some ev =>
          if isExpired p (Height ev) (Time ev) then
            let '(expired, first) := expiredBefore p rest in (ev :: expired, first)
          else ([], Some ev)
      end
  end.

(** The height and time from which pruning is due again. *)
Definition nextPruning (p : Pool) (first : option Evidence) : Z * time.Time :=
  match first with
  | Some ev =>
      (int64.add (int64.add (Height ev) (MaxAgeNumBlocks (ConsensusParams_Evidence (State p)))) 1,
       time.Add (time.Add (Time ev) (MaxAgeDuration (ConsensusParams_Evidence (State p))))
         time.Second)
  | None => (LastBlockHeight (State p), LastBlockTime (State p))
  end.

(** The list without the evidence whose hash is in [hashes]. *)
Definition withoutHashes (hashes : gset string) (l : list Evidence) : list Evidence :=
  List.filter (fun ev => negb (bool_decide (evMapKey ev ∈ hashes))) l.

Definition hashSet (l : list Evidence) : gset string := list_to_set (map evMapKey l).

Definition deleteAll (L : KeyLayout) (l : list Evidence) (m : gmap string string)
  : gmap string string :=
  foldl (fun es ev => delete (CalcKeyPending L ev) es) m l.

(** Every write in [ws] sets the pending key of a piece of evidence of [evs]. *)
Definition pendingSets (L : KeyLayout) (evs : list Evidence) (ws : list WriteOp) : Prop :=
  Forall (fun w => exists ev value, ev ∈ evs /\ w = WSet (CalcKeyPending L ev) value) ws.

(** No piece of [evs] is rejected by the verifier or has its committed key in
    the store, and no committed key of [evs] is a pending key of [evs]. *)
Definition acceptable (verify : sm_State -> sm_Store -> BlockStore -> Evidence -> option error)
    (L : KeyLayout) (p : Pool) (evs : list Evidence) : Prop :=
  forall ev, ev ∈ evs ->
    verify (State p) (stateDB p) (blockStore p) ev = None /\
    entries (evidenceStore p) !! CalcKeyCommitted L ev = None /\
    forall ev', ev' ∈ evs -> CalcKeyCommitted L ev <> CalcKeyPending L ev'.

(** Every piece of [evs] is duplicate vote evidence with its pending key in
    the store. *)
Definition allPending (L : KeyLayout) (p : Pool) (evs : list Evidence) : Prop :=
  forall ev, ev ∈ evs ->
    IsLightClientAttackEvidence ev = false /\
    is_Some (entries (evidenceStore p) !! CalcKeyPending L ev).

(** Every pending entry that decodes is stored under the pending key of its
    evidence. *)
Definition canonical (L : KeyLayout) (m : gmap string string) : Prop :=
  forall key value ev,
    m !! key = Some value -> HasPrefix key (PrefixToBytesPending L) = true ->
    bytesToEv value = inl ev -> key = CalcKeyPending L ev.

(** No committed key of the layout is a pending key. *)
Definition keysDisjoint (L : KeyLayout) : Prop :=
  forall ev ev', CalcKeyCommitted L ev <> CalcKeyPending L ev'.

(** The height of every piece of [evs] can be marshalled. *)
Definition heightsMarshal (evs : list Evidence) : Prop :=
  forall ev, ev ∈ evs -> exists b, Marshal_Int64Value (Height ev) = inl b.

(** Every piece of [evs] has its committed key in [m] and its pending key
    not. *)
Definition committedIn (L : KeyLayout) (evs : list Evidence) (m : gmap string string) : Prop :=
  forall ev, ev ∈ evs ->
    is_Some (m !! CalcKeyCommitted L ev) /\ m !! CalcKeyPending L ev = None.

End Vocabulary.

(** * Properties *)

(** ** Arithmetic of the machine types *)

Lemma int64_wrap_in_range (z : Z) : int64.in_range z -> int64.wrap z = z.
Proof.
  unfold int64.in_range, int64.wrap, int64.min, int64.max. intros H.
  rewrite Z.mod_small by lia. lia.
Qed.

Lemma int64_wrap_range (z : Z) : int64.in_range (int64.wrap z).
Proof.
  unfold int64.in_range, int64.wrap, int64.min, int64.max.
  pose proof (Z.mod_pos_bound (z + 2 ^ 63) (2 ^ 64) ltac:(lia)). lia.
Qed.

(** On heights that are not negative the subtraction does not wrap. *)
Lemma int64_sub_exact (a b : Z) :
  0 <= a <= int64.max -> 0 <= b <= int64.max -> int64.sub a b = a - b.
Proof.
  intros Ha Hb. apply int64_wrap_in_range.
  unfold int64.in_range, int64.min, int64.max in *. lia.
Qed.

Lemma int64_add_exact (a b : Z) :
  int64.in_range (a + b) -> int64.add a b = a + b.
Proof. apply int64_wrap_in_range. Qed.

Lemma time_Sub_exact (t u : time.Time) :
  int64.in_range (t - u) -> time.Sub t u = t - u.
Proof.
  unfold int64.in_range, time.Sub, time.minDuration, time.maxDuration. intros H.
  destruct (Z.ltb_spec (t - u) int64.min); [lia|].
  destruct (Z.ltb_spec int64.max (t - u)); [lia|]. reflexivity.
Qed.

(** ** The order of byte strings *)

Lemma ascii_compare_refl (c : ascii) : Ascii.compare c c = Eq.
Proof. apply N.compare_refl. Qed.

Lemma string_compare_refl (s : string) : String.compare s s = Eq.
Proof. induction s as [|c s IH]; simpl; [done|]. by rewrite ascii_compare_refl. Qed.

Lemma ascii_compare_lt_trans (a b c : ascii) :
  Ascii.compare a b = Lt -> Ascii.compare b c = Lt -> Ascii.compare a c = Lt.
Proof. unfold Ascii.compare. rewrite !N.compare_lt_iff. lia. Qed.

Lemma string_compare_lt_trans (a : string) :
  forall b c, String.compare a b = Lt -> String.compare b c = Lt -> String.compare a c = Lt.
Proof.
  induction a as [|x a IH]; intros [|y b] [|z c]; simpl; try done.
  destruct (Ascii.compare x y) eqn:Hxy; [|intros _|done].
  - apply Ascii.compare_eq_iff in Hxy as ->. intros Hab.
    destruct (Ascii.compare y z); [|done|done]. by apply IH.
  - destruct (Ascii.compare y z) eqn:Hyz; [|intros _|done].
    + apply Ascii.compare_eq_iff in Hyz as <-. by rewrite Hxy.
    + by rewrite (ascii_compare_lt_trans _ _ _ Hxy Hyz).
Qed.

Lemma string_compare_gt_lt (a b : string) :
  String.compare a b = Gt <-> String.compare b a = Lt.
Proof.
  rewrite (String.compare_antisym b a).
  destruct (String.compare a b); simpl; split; congruence.
Qed.

Lemma string_leb_le (a b : string) : Is_true (String.leb a b) <-> bytes_le a b.
Proof.
  unfold String.leb, bytes_le. destruct (String.compare a b); simpl; split; try done.
Qed.

Lemma bytes_le_lt_or_eq (a b : string) : bytes_le a b <-> bytes_lt a b \/ a = b.
Proof.
  unfold bytes_le, bytes_lt. split.
  - destruct (String.compare a b) eqn:H; [|by left|done].
    right. by apply String.compare_eq_iff.
  - intros [->| ->]; [done|]. by rewrite string_compare_refl.
Qed.

Lemma bytes_lt_not_le (a b : string) : bytes_lt a b -> ~ bytes_le b a.
Proof.
  unfold bytes_lt, bytes_le. intros H Hle. apply Hle. by apply string_compare_gt_lt.
Qed.

#[global] Instance key_le_trans : Transitive key_le.
Proof.
  intros [a ?] [b ?] [c ?]. unfold key_le. simpl. rewrite !string_leb_le, !bytes_le_lt_or_eq.
  intros [Hab| ->] [Hbc| ->]; auto. left. by eapply string_compare_lt_trans.
Qed.

#[global] Instance key_le_total : Total key_le.
Proof.
  intros [a ?] [b ?]. unfold key_le. simpl.
  destruct (String.leb_total a b) as [->| ->]; simpl; auto.
Qed.

Lemma string_compare_cons_same (c : ascii) (s t : string) :
  String.compare (String c s) (String c t) = String.compare s t.
Proof. simpl. by rewrite ascii_compare_refl. Qed.

Lemma string_compare_app_same (s t1 t2 : string) :
  String.compare (s ++ t1) (s ++ t2) = String.compare t1 t2.
Proof. induction s as [|c s IH]; simpl; [done|]. by rewrite ascii_compare_refl. Qed.

Lemma string_compare_app_lt (s1 : string) :
  forall s2 t1 t2, String.length s1 = String.length s2 ->
    String.compare s1 s2 = Lt -> String.compare (s1 ++ t1) (s2 ++ t2) = Lt.
Proof.
  induction s1 as [|c s1 IH]; intros [|d s2] t1 t2; simpl; try done.
  intros [= Hlen]. destruct (Ascii.compare c d); [|done|done]. by apply IH.
Qed.

(** ** Hexadecimal keys *)

Lemma upperhex_lt (a b : N) :
  (a < b)%N -> (b < 16)%N -> Ascii.compare (upperhex a) (upperhex b) = Lt.
Proof.
  intros Hab Hb. unfold Ascii.compare, upperhex. apply N.compare_lt_iff.
  destruct (N.ltb_spec a 10), (N.ltb_spec b 10); rewrite !N_ascii_embedding; lia.
Qed.

Lemma hexFixed_length (k : nat) (n : Z) : String.length (hexFixed k n) = k.
Proof. induction k as [|k IH]; simpl; [done|]. by rewrite IH. Qed.

Lemma hexFixed_lt (k : nat) :
  forall a b, a mod 16 ^ Z.of_nat k < b mod 16 ^ Z.of_nat k ->
    String.compare (hexFixed k a) (hexFixed k b) = Lt.
Proof.
  induction k as [|k IH]; intros a b Hlt.
  - simpl in Hlt. rewrite !Z.mod_1_r in Hlt. lia.
  - rewrite Nat2Z.inj_succ, Z.pow_succ_r in Hlt by lia.
    rewrite (Z.mul_comm 16), !Z.rem_mul_r in Hlt by lia.
    set (p := 16 ^ Z.of_nat k) in *.
    assert (Hp : 0 < p) by (subst p; lia).
    pose proof (Z.mod_pos_bound a p Hp) as Ha.
    pose proof (Z.mod_pos_bound b p Hp) as Hb.
    pose proof (Z.mod_pos_bound (a / p) 16 ltac:(lia)) as Hda.
    pose proof (Z.mod_pos_bound (b / p) 16 ltac:(lia)) as Hdb.
    simpl hexFixed. fold p. simpl String.compare.
    destruct (Z.lt_total ((a / p) mod 16) ((b / p) mod 16)) as [Hd|[Hd|Hd]].
    + rewrite upperhex_lt; [done|lia|lia].
    + rewrite Hd, ascii_compare_refl. apply IH. fold p. lia.
    + nia.
Qed.

Lemma bE_nonneg_lt (h1 h2 : Z) :
  0 <= h1 -> h1 < h2 -> h2 <= int64.max -> String.compare (bE h1) (bE h2) = Lt.
Proof.
  unfold int64.max. intros H1 H12 H2. unfold bE.
  destruct (Z.ltb_spec h1 0); [lia|]. destruct (Z.ltb_spec h2 0); [lia|].
  apply hexFixed_lt. change (16 ^ Z.of_nat 16) with (2 ^ 64).
  rewrite !Z.mod_small by lia. done.
Qed.

Lemma bE_length (h : Z) : 0 <= h -> String.length (bE h) = 16%nat.
Proof.
  intros H. unfold bE. destruct (Z.ltb_spec h 0); [lia|]. apply hexFixed_length.
Qed.

Section Properties.
Context `{Ext : Externals}.
Variable verify : sm_State -> sm_Store -> BlockStore -> Evidence -> option error.

(** ** Expiry *)

(** C1. [isExpired h t] holds exactly when both the age in blocks,
    [LastBlockHeight - h], exceeds [MaxAgeNumBlocks] and the age in time,
    [LastBlockTime.Sub(t)], exceeds [MaxAgeDuration]; if either age is within
    its limit the evidence is not expired. *)
Theorem isExpired_iff_both_ages_exceed (evpool : Pool) (h : Z) (t : time.Time) :
  let params := ConsensusParams_Evidence (State evpool) in
  let ageNumBlocks := int64.sub (LastBlockHeight (State evpool)) h in
  let ageDuration := time.Sub (LastBlockTime (State evpool)) t in
  (isExpired evpool h t = true <->
     ageNumBlocks > MaxAgeNumBlocks params /\ ageDuration > MaxAgeDuration params) /\
  (isExpired evpool h t = false <->
     ageNumBlocks <= MaxAgeNumBlocks params \/ ageDuration <= MaxAgeDuration params).
Proof.
  intros params ageNumBlocks ageDuration. unfold isExpired.
  fold params ageNumBlocks ageDuration.
  destruct (Z.ltb_spec (MaxAgeNumBlocks params) ageNumBlocks),
           (Z.ltb_spec (MaxAgeDuration params) ageDuration); simpl; split; split;
    intros; try lia; try discriminate; try reflexivity.
Qed.

(** With heights that are not negative and a time difference that fits a
    duration, the two ages are the plain differences. *)
Lemma isExpired_exact (evpool : Pool) (h : Z) (t : time.Time) :
  0 <= h <= int64.max -> 0 <= LastBlockHeight (State evpool) <= int64.max ->
  int64.in_range (LastBlockTime (State evpool) - t) ->
  isExpired evpool h t = true <->
    LastBlockHeight (State evpool) - h > MaxAgeNumBlocks (ConsensusParams_Evidence (State evpool)) /\
    LastBlockTime (State evpool) - t > MaxAgeDuration (ConsensusParams_Evidence (State evpool)).
Proof.
  intros Hh Hl Ht. unfold isExpired.
  rewrite int64_sub_exact, time_Sub_exact by done.
  rewrite andb_true_iff, !Z.ltb_lt. lia.
Qed.

(** ** Update *)

(** C6. When the height of the new state is not above the height of the
    pool's state, [Update] panics, and the pool at the panic is the pool it was
    called on: no buffer flush, state change, commit marking or pruning was
    performed, and nothing was logged. *)
Theorem Update_panics_on_height_regression
    (evpool : Pool) (newState : sm_State) (evList : list Evidence) :
  LastBlockHeight newState <= LastBlockHeight (state evpool) ->
  exists msg, Update newState evList evpool = Panic msg evpool.
Proof.
  intros H. unfold Update, bind, get, panic.
  destruct (Z.leb_spec (LastBlockHeight newState) (LastBlockHeight (state evpool))); [|lia].
  eauto.
Qed.

(** ** The legacy key layout *)

Lemma v1_CalcKeyPending (ev : Evidence) :
  CalcKeyPending v1LegacyLayout ev = v1PendingKey (Height ev) (Hash ev).
Proof. reflexivity. Qed.

Lemma v1PendingKey_lt (h1 h2 : Z) (hash1 hash2 : bytes) :
  0 <= h1 -> h1 < h2 -> h2 <= int64.max ->
  bytes_lt (v1PendingKey h1 hash1) (v1PendingKey h2 hash2).
Proof.
  intros H1 H12 H2. unfold bytes_lt, v1PendingKey.
  rewrite string_compare_cons_same. apply string_compare_app_lt.
  - rewrite !bE_length by lia. done.
  - by apply bE_nonneg_lt.
Qed.

Lemma v1PendingKey_le_height (h1 h2 : Z) (hash1 hash2 : bytes) :
  0 <= h1 <= int64.max -> 0 <= h2 <= int64.max ->
  bytes_le (v1PendingKey h1 hash1) (v1PendingKey h2 hash2) -> h1 <= h2.
Proof.
  intros H1 H2 Hle. destruct (Z.le_gt_cases h1 h2) as [|Hgt]; [done|].
  exfalso. eapply bytes_lt_not_le; [|exact Hle].
  apply v1PendingKey_lt; lia.
Qed.

(** ** Rules of the method monad *)

Lemma wp_elim {A : Type} (c : M A) (p : Pool) (Q : A -> Pool -> Prop) :
  wp c p Q -> exists a p', c p = Ok a p' /\ Q a p'.
Proof. unfold wp. destruct (c p); [eauto|done]. Qed.

Lemma wp_intro {A : Type} (c : M A) (p : Pool) (Q : A -> Pool -> Prop) a p' :
  c p = Ok a p' -> Q a p' -> wp c p Q.
Proof. unfold wp. by intros ->. Qed.

Lemma wp_mono {A : Type} (c : M A) (p : Pool) (Q Q' : A -> Pool -> Prop) :
  wp c p Q -> (forall a p', Q a p' -> Q' a p') -> wp c p Q'.
Proof. unfold wp. destruct (c p); [auto|done]. Qed.

Lemma wp_ret {A : Type} (a : A) (p : Pool) (Q : A -> Pool -> Prop) :
  Q a p -> wp (ret a) p Q.
Proof. done. Qed.

Lemma wp_bind {A B : Type} (c : M A) (k : A -> M B) (p : Pool) (Q : B -> Pool -> Prop) :
  wp c p (fun a p' => wp (k a) p' Q) -> wp (bind c k) p Q.
Proof. unfold wp, bind. by destruct (c p). Qed.

Lemma wp_get (p : Pool) (Q : Pool -> Pool -> Prop) : Q p p -> wp get p Q.
Proof. done. Qed.

Lemma wp_modify (f : Pool -> Pool) (p : Pool) (Q : unit -> Pool -> Prop) :
  Q tt (f p) -> wp (modify f) p Q.
Proof. done. Qed.

Lemma set_logger_same (p : Pool) : set_logger (logger p) p = p.
Proof. by destruct p. Qed.

Lemma wp_log (lvl : Level) (msg : string) (p : Pool) (Q : unit -> Pool -> Prop) :
  (forall l, Q tt (set_logger l p)) -> wp (log lvl msg) p Q.
Proof.
  intros H. unfold log. apply wp_modify. destruct (logger p) eqn:E; [|apply H].
  rewrite <- (set_logger_same p) at 1. apply H.
Qed.

Lemma wp_layout (p : Pool) (L : KeyLayout) (Q : KeyLayout -> Pool -> Prop) :
  dbKeyLayout p = Some L -> Q L p -> wp layout p Q.
Proof. unfold wp, layout. by intros ->. Qed.

Lemma wp_store {A : Type} (f : DB -> option A * DB) (p : Pool) (Q : option A -> Pool -> Prop) :
  (forall r d, f (evidenceStore p) = (r, d) -> Q r (set_evidenceStore d p)) ->
  wp (store f) p Q.
Proof. intros H. unfold wp, store. destruct (f (evidenceStore p)) eqn:E. by apply H. Qed.

(** ** The database *)

Lemma same_store_refl (d : DB) : same_store d d.
Proof. done. Qed.

Lemma same_store_trans (d1 d2 d3 : DB) :
  same_store d1 d2 -> same_store d2 d3 -> same_store d1 d3.
Proof. unfold same_store. intros (?&?&?) (?&?&?). repeat split; congruence. Qed.

Lemma db_read_cases {A : Type} (f : DB -> A) (d : DB) :
  exists r d', db.op (fun d => (f d, d)) d = (r, d') /\ same_store d d' /\
    (r = None \/ r = Some (f (db.tick d))) /\
    (db.reliable d -> r = Some (f (db.tick d))).
Proof.
  unfold db.op. destruct (faulty d (clock d)) eqn:E.
  - eexists _, _. split; [done|]. repeat split; auto.
    intros R. by rewrite R in E.
  - eexists _, _. split; [done|]. repeat split; auto.
Qed.

Lemma db_Has_cases (key : bytes) (d : DB) :
  exists r d', db.Has key d = (r, d') /\ same_store d d' /\
    (r = None \/ r = Some (bool_decide (is_Some (entries d !! key)))) /\
    (db.reliable d -> r = Some (bool_decide (is_Some (entries d !! key)))).
Proof. apply (db_read_cases (fun d => bool_decide (is_Some (entries d !! key)))). Qed.

Lemma db_write_cases (upd : gmap string string -> gmap string string) (w : WriteOp) (d : DB) :
  exists r d', db.op (fun d => (tt, mkDB (upd (entries d)) (writes d ++ [w]) (clock d) (faulty d))) d
      = (r, d') /\ faulty d' = faulty d /\
    ((r = None /\ same_store d d') \/
     (r = Some tt /\ entries d' = upd (entries d) /\ writes d' = writes d ++ [w])) /\
    (db.reliable d -> r = Some tt).
Proof.
  unfold db.op. destruct (faulty d (clock d)) eqn:E.
  - eexists _, _. split; [done|]. split; [done|]. split; [left; done|].
    intros R. by rewrite R in E.
  - eexists _, _. split; [done|]. split; [done|]. split; [right; done|]. done.
Qed.


(** ** Frames *)

Lemma same_frame_refl (p : Pool) : same_frame p p.
Proof. by repeat split. Qed.

Lemma same_frame_trans (p1 p2 p3 : Pool) :
  same_frame p1 p2 -> same_frame p2 p3 -> same_frame p1 p3.
Proof.
  unfold same_frame. intros (?&?&?&?&?&?&?&?) (?&?&?&?&?&?&?&?).
  repeat split; congruence.
Qed.

Lemma quiet_refl (p : Pool) : quiet p p.
Proof. by repeat split. Qed.

Lemma quiet_trans (p1 p2 p3 : Pool) : quiet p1 p2 -> quiet p2 p3 -> quiet p1 p3.
Proof.
  intros (?&?&?&?) (?&?&?&?). split; [by eapply same_store_trans|].
  split; [congruence|]. split; [congruence|]. by eapply same_frame_trans.
Qed.

Lemma quiet_frame (p p' : Pool) : quiet p p' -> same_frame p p'.
Proof. by intros (?&?&?&?). Qed.

Lemma quiet_set_logger (l : Logger) (p : Pool) : quiet p (set_logger l p).
Proof. by repeat split. Qed.

Lemma quiet_set_store (d : DB) (p : Pool) :
  same_store (evidenceStore p) d -> quiet p (set_evidenceStore d p).
Proof. intros (?&?&?). by repeat split. Qed.

Lemma frame_reliable (p p' : Pool) :
  same_frame p p' -> db.reliable (evidenceStore p) -> db.reliable (evidenceStore p').
Proof. intros (E&_) R n. by rewrite E. Qed.

Lemma frame_layout (p p' : Pool) (L : KeyLayout) :
  same_frame p p' -> dbKeyLayout p = Some L -> dbKeyLayout p' = Some L.
Proof. intros (_&_&_&_&_&_&_&E) H. by rewrite E. Qed.

(** ** Lookups *)

Lemma has_spec (key : bytes) (msg : string) (p : Pool) :
  wp (bind (store (db.Has key)) (fun r =>
      match r with
      | None => bind (log Error msg) (fun _ => ret false)
      | Some ok => ret ok
      end)) p
    (fun b p' => quiet p p' /\
       b = answers key (evidenceStore p) /\
       evidenceStore p' = (db.Has key (evidenceStore p)).2 /\
       (b = true -> is_Some (entries (evidenceStore p) !! key)) /\
       (db.reliable (evidenceStore p) ->
          b = bool_decide (is_Some (entries (evidenceStore p) !! key)))).
Proof.
  apply wp_bind, wp_store. intros r d E. unfold answers. rewrite E. simpl.
  destruct (db_Has_cases key (evidenceStore p)) as (r' & d' & E' & Hs & Hc & Hr).
  rewrite E' in E. injection E as <- <-.
  destruct r' as [b|].
  - apply wp_ret. split; [by apply quiet_set_store|].
    split; [by destruct b|]. split; [done|]. split.
    + intros ->. destruct Hc as [?|[= Hb]]; [done|]. symmetry in Hb.
      by apply bool_decide_eq_true in Hb.
    + intros R. specialize (Hr R). congruence.
  - apply wp_bind, wp_log. intros l. apply wp_ret.
    split; [|split; [done|split; [done|split; [done|]]]].
    + eapply quiet_trans; [by apply quiet_set_store|apply quiet_set_logger].
    + intros R. by specialize (Hr R).
Qed.

Lemma isPending_spec (ev : Evidence) (p : Pool) (L : KeyLayout) :
  dbKeyLayout p = Some L ->
  wp (isPending ev) p
    (fun b p' => quiet p p' /\
       b = answers (CalcKeyPending L ev) (evidenceStore p) /\
       evidenceStore p' = (db.Has (CalcKeyPending L ev) (evidenceStore p)).2 /\
       (b = true -> is_Some (entries (evidenceStore p) !! CalcKeyPending L ev)) /\
       (db.reliable (evidenceStore p) ->
          b = bool_decide (is_Some (entries (evidenceStore p) !! CalcKeyPending L ev)))).
Proof.
  intros HL. unfold isPending. apply wp_bind, (wp_layout _ L); [done|]. apply has_spec.
Qed.

Lemma isCommitted_spec (ev : Evidence) (p : Pool) (L : KeyLayout) :
  dbKeyLayout p = Some L ->
  wp (isCommitted ev) p
    (fun b p' => quiet p p' /\
       b = answers (CalcKeyCommitted L ev) (evidenceStore p) /\
       evidenceStore p' = (db.Has (CalcKeyCommitted L ev) (evidenceStore p)).2 /\
       (b = true -> is_Some (entries (evidenceStore p) !! CalcKeyCommitted L ev)) /\
       (db.reliable (evidenceStore p) ->
          b = bool_decide (is_Some (entries (evidenceStore p) !! CalcKeyCommitted L ev)))).
Proof.
  intros HL. unfold isCommitted. apply wp_bind, (wp_layout _ L); [done|]. apply has_spec.
Qed.

(** ** Writing and deleting pending evidence *)

Lemma addPendingEvidence_spec (ev : Evidence) (p : Pool) (L : KeyLayout) :
  dbKeyLayout p = Some L ->
  wp (addPendingEvidence ev) p
    (fun r p' => same_frame p p' /\ evidenceList p' = evidenceList p /\ logger p' = logger p /\
       match r with
       | Some _ => same_store (evidenceStore p) (evidenceStore p') /\
                   evidenceSize p' = evidenceSize p /\
                   (db.reliable (evidenceStore p) ->
                      forall evpb, EvidenceToProto ev = inl evpb -> exists e, Marshal evpb = inr e)
       | None => added L ev p p'
       end).
Proof.
  intros HL. unfold addPendingEvidence.
  destruct (EvidenceToProto ev) as [evpb|e] eqn:E1; simpl.
  { destruct (Marshal evpb) as [evBytes|e] eqn:E2; simpl.
    - apply wp_bind, (wp_layout _ L); [done|]. apply wp_bind, wp_store. intros r d E.
      destruct (db_write_cases (insert (CalcKeyPending L ev) evBytes)
                  (WSet (CalcKeyPending L ev) evBytes) (evidenceStore p))
        as (r' & d' & E' & Hf & Hc & Hr).
      unfold db.Set_ in E. rewrite E' in E. injection E as <- <-.
      destruct Hc as [[-> Hs]|(-> & He & Hw)].
      + apply wp_ret. destruct Hs as (?&?&?). repeat split; simpl; try done.
        all: intros R; by specialize (Hr R).
      + apply wp_bind, wp_modify, wp_ret. repeat split; simpl; try done.
        exists evpb, evBytes. by repeat split.
    - apply wp_ret. repeat split; try done. intros _ ? [= <-]. eauto. }
  apply wp_ret. by repeat split.
Qed.

Lemma removePendingEvidence_spec (ev : Evidence) (p : Pool) (L : KeyLayout) :
  dbKeyLayout p = Some L ->
  wp (removePendingEvidence ev) p
    (fun _ p' => same_frame p p' /\ evidenceList p' = evidenceList p /\
       ((same_store (evidenceStore p) (evidenceStore p') /\ evidenceSize p' = evidenceSize p) \/
        (entries (evidenceStore p') = delete (CalcKeyPending L ev) (entries (evidenceStore p)) /\
         writes (evidenceStore p') = writes (evidenceStore p) ++ [WDelete (CalcKeyPending L ev)] /\
         evidenceSize p' = uint32.add (evidenceSize p) uint32.ones)) /\
       (db.reliable (evidenceStore p) ->
          entries (evidenceStore p') = delete (CalcKeyPending L ev) (entries (evidenceStore p)) /\
          writes (evidenceStore p') = writes (evidenceStore p) ++ [WDelete (CalcKeyPending L ev)] /\
          evidenceSize p' = uint32.add (evidenceSize p) uint32.ones)).
Proof.
  intros HL. unfold removePendingEvidence.
  apply wp_bind, (wp_layout _ L); [done|]. apply wp_bind, wp_store. intros r d E.
  destruct (db_write_cases (delete (CalcKeyPending L ev))
              (WDelete (CalcKeyPending L ev)) (evidenceStore p))
    as (r' & d' & E' & Hf & Hc & Hr).
  unfold db.Delete in E. rewrite E' in E. injection E as <- <-.
  destruct Hc as [[-> Hs]|(-> & He & Hw)].
  - apply wp_log. intros l. destruct Hs as (?&?&?).
    split; [by repeat split|]. split; [done|]. split; [left; by repeat split|].
    intros R. by specialize (Hr R).
  - apply wp_bind, wp_modify, wp_log. intros l.
    split; [by repeat split|]. split; [done|]. split; [right; by repeat split|].
    by repeat split.
Qed.


(** ** AddEvidence *)

Lemma isPending_layout (ev : Evidence) (p p1 : Pool) (b : bool) :
  isPending ev p = Ok b p1 -> exists L, dbKeyLayout p = Some L.
Proof. unfold isPending, bind, layout. destruct (dbKeyLayout p); [eauto|done]. Qed.

Lemma isPending_result (ev : Evidence) (p p1 : Pool) (b : bool) (L : KeyLayout) :
  dbKeyLayout p = Some L -> isPending ev p = Ok b p1 ->
  b = answers (CalcKeyPending L ev) (evidenceStore p) /\
  evidenceStore p1 = (db.Has (CalcKeyPending L ev) (evidenceStore p)).2.
Proof.
  intros HL H. pose proof (isPending_spec ev p L HL) as W. unfold wp in W.
  rewrite H in W. tauto.
Qed.

Lemma isCommitted_result (ev : Evidence) (p p1 : Pool) (b : bool) (L : KeyLayout) :
  dbKeyLayout p = Some L -> isCommitted ev p = Ok b p1 ->
  b = answers (CalcKeyCommitted L ev) (evidenceStore p).
Proof.
  intros HL H. pose proof (isCommitted_spec ev p L HL) as W. unfold wp in W.
  rewrite H in W. tauto.
Qed.

Lemma AddEvidence_known (ev : Evidence) (p : Pool) (L : KeyLayout) :
  dbKeyLayout p = Some L ->
  answers (CalcKeyPending L ev) (evidenceStore p) = true \/
  (answers (CalcKeyPending L ev) (evidenceStore p) = false /\
   answers (CalcKeyCommitted L ev) (db.Has (CalcKeyPending L ev) (evidenceStore p)).2 = true) ->
  wp (AddEvidence verify ev) p (fun r p' => r = None /\ quiet p p').
Proof.
  intros HL Hk. unfold AddEvidence.
  apply wp_bind, wp_log. intros l.
  apply wp_bind. eapply wp_mono; [by apply (isPending_spec ev _ L)|].
  simpl. intros b p1 (Hq1 & Hb & Hst & _).
  assert (Hqp : quiet p p1) by (eapply quiet_trans; [apply quiet_set_logger|done]).
  destruct b.
  - apply wp_bind, wp_log. intros l1. apply wp_ret. split; [done|].
    eapply quiet_trans; [done|apply quiet_set_logger].
  - destruct Hk as [Hk|[_ Hk]]; [congruence|].
    apply wp_bind. eapply wp_mono.
    { apply (isCommitted_spec ev _ L). eapply frame_layout; [by apply quiet_frame|done]. }
    simpl. intros c p2 (Hq2 & Hc & _). rewrite Hst, Hk in Hc. subst c.
    apply wp_bind, wp_log. intros l2. apply wp_ret. split; [done|].
    eapply quiet_trans; [done|]. eapply quiet_trans; [done|apply quiet_set_logger].
Qed.


Lemma AddEvidence_reliable (ev : Evidence) (p : Pool) (L : KeyLayout) :
  dbKeyLayout p = Some L -> db.reliable (evidenceStore p) ->
  wp (AddEvidence verify ev) p
    (fun r p' => same_frame p p' /\ AddEvidence_effect verify L ev p p').
Proof.
  intros HL HR. unfold AddEvidence, AddEvidence_effect.
  apply wp_bind, wp_log. intros l.
  apply wp_bind. eapply wp_mono; [by apply (isPending_spec ev _ L)|].
  simpl. intros b p1 (Hq1 & _ & _ & _ & Hb). specialize (Hb HR). rewrite <- Hb.
  assert (Hqp : quiet p p1) by (eapply quiet_trans; [apply quiet_set_logger|done]).
  destruct b; simpl.
  { apply wp_bind, wp_log. intros l1. apply wp_ret.
    assert (quiet p (set_logger l1 p1)) by (eapply quiet_trans; [done|apply quiet_set_logger]).
    split; [by apply quiet_frame|done]. }
  apply wp_bind. eapply wp_mono.
  { apply (isCommitted_spec ev _ L). eapply frame_layout; [by apply quiet_frame|done]. }
  simpl. intros c p2 (Hq2 & _ & _ & _ & Hc).
  assert (Hqp2 : quiet p p2) by (by eapply quiet_trans).
  rewrite Hc by (eapply frame_reliable; [by apply quiet_frame|done]).
  destruct Hqp as ((He1 & _) & _). rewrite He1.
  destruct (bool_decide (is_Some (entries (evidenceStore p) !! CalcKeyCommitted L ev))).
  { apply wp_bind, wp_log. intros l1. apply wp_ret.
    assert (quiet p (set_logger l1 p2)) by (eapply quiet_trans; [done|apply quiet_set_logger]).
    split; [by apply quiet_frame|done]. }
  apply wp_bind, wp_get.
  destruct Hqp2 as (Hs2 & Hl2 & Hz2 & Hf2).
  pose proof Hf2 as (_ & Hsd & Hbs & Hstt & _). unfold State.
  rewrite Hstt, Hsd, Hbs.
  destruct (verify (state p) (stateDB p) (blockStore p) ev).
  { apply wp_ret. split; [done|]. unfold quiet. auto. }
  apply wp_bind. eapply wp_mono.
  { apply (addPendingEvidence_spec ev _ L). by eapply frame_layout. }
  simpl. intros [e|] p3 (Hf3 & Hl3 & Hlg3 & H3).
  - destruct H3 as (Hs3 & Hz3 & Hcodec). apply wp_ret.
    assert (Hq3 : quiet p p3).
    { split; [by eapply same_store_trans|]. split; [congruence|]. split; [congruence|].
      by eapply same_frame_trans. }
    split; [by apply quiet_frame|].
    destruct (EvidenceToProto ev) as [evpb|]; [|done].
    destruct (Hcodec (frame_reliable _ _ Hf2 HR) evpb eq_refl) as [e' ->]. done.
  - destruct H3 as (evpb & evBytes & E1 & E2 & He & Hw & Hz).
    apply wp_bind, wp_modify, wp_bind, wp_log. intros l3. apply wp_ret. simpl.
    destruct Hs2 as (He2 & Hw2 & _).
    split.
    { eapply same_frame_trans; [done|]. destruct Hf3 as (?&?&?&?&?&?&?&?). by repeat split. }
    rewrite E1, E2. split; [|congruence].
    exists evpb, evBytes. repeat split; try done; simpl.
    + by rewrite He, He2.
    + by rewrite Hw, Hw2.
    + by rewrite Hz, Hz2.
Qed.

(** C2. For evidence that [AddEvidence] finds pending, or finds committed,
    the call returns nil whatever the verifier would say, and it leaves the
    store, its write log, the list and the size as they were.  On a store that
    does not fail, a second [AddEvidence] of the same evidence directly after
    the first returns and leaves [Size] as the first call left it. *)
Theorem AddEvidence_known_is_noop_and_idempotent (ev : Evidence) (p : Pool) :
  (alreadyPending ev p \/ alreadyCommitted ev p ->
   exists p', AddEvidence verify ev p = Ok None p' /\ quiet p p') /\
  (forall L, dbKeyLayout p = Some L -> db.reliable (evidenceStore p) ->
   exists r1 p1 r2 p2,
     AddEvidence verify ev p = Ok r1 p1 /\ AddEvidence verify ev p1 = Ok r2 p2 /\
     Size p2 = Size p1).
Proof.
  split.
  - intros Hk.
    assert (exists L, dbKeyLayout p = Some L) as [L HL].
    { destruct Hk as [(p1 & H)|(p1 & p2 & H & _)]; by eapply isPending_layout. }
    destruct (wp_elim _ _ _ (AddEvidence_known ev p L HL
      ltac:(destruct Hk as [(p1 & H)|(p1 & p2 & H1 & H2)];
            [left; symmetry; by eapply isPending_result
            |right; destruct (isPending_result _ _ _ _ _ HL H1) as [Hb Hst];
             split; [done|]; rewrite <- Hst; symmetry; eapply isCommitted_result; [|done];
             pose proof (isPending_spec ev p L HL) as W; unfold wp in W; rewrite H1 in W;
             eapply frame_layout; [apply quiet_frame; apply W|done]])))
      as (r & p' & E & -> & Hq).
    eauto.
  - intros L HL HR.
    destruct (wp_elim _ _ _ (AddEvidence_reliable ev p L HL HR)) as (r1 & p1 & E1 & Hf1 & H1).
    assert (HL1 : dbKeyLayout p1 = Some L) by (by eapply frame_layout).
    assert (HR1 : db.reliable (evidenceStore p1)) by (by eapply frame_reliable).
    destruct (wp_elim _ _ _ (AddEvidence_reliable ev p1 L HL1 HR1)) as (r2 & p2 & E2 & Hf2 & H2).
    exists r1, p1, r2, p2. split; [done|]. split; [done|]. unfold Size.
    assert (quiet p1 p2) as (_ & _ & Hz & _); [|done].
    unfold AddEvidence_effect in H1, H2.
    destruct (bool_decide (is_Some (entries (evidenceStore p) !! CalcKeyPending L ev))
              || bool_decide (is_Some (entries (evidenceStore p) !! CalcKeyCommitted L ev))) eqn:Ek.
    { destruct H1 as ((He & _) & _). rewrite He, Ek in H2. done. }
    destruct Hf1 as (_ & Hsd & Hbs & Hst & _). unfold State in *. rewrite Hst, Hsd, Hbs in H2.
    destruct (verify (state p) (stateDB p) (blockStore p) ev).
    { destruct H1 as ((He & _) & _). rewrite He, Ek in H2. done. }
    destruct (EvidenceToProto ev) as [evpb|].
    2:{ destruct H1 as ((He & _) & _). rewrite He, Ek in H2. done. }
    destruct (Marshal evpb) as [evBytes|].
    2:{ destruct H1 as ((He & _) & _). rewrite He, Ek in H2. done. }
    destruct H1 as ((? & ? & _ & _ & He & _) & _).
    rewrite He, lookup_insert_eq in H2. rewrite bool_decide_eq_true_2 in H2 by eauto. done.
Qed.


(** ** Loops *)

Lemma wp_forEach {A : Type} (I : Pool -> Prop) (body : A -> M unit) (l : list A) :
  (forall x p, x ∈ l -> I p -> wp (body x) p (fun _ p' => I p')) ->
  forall p, I p -> wp (forEach l body) p (fun _ p' => I p').
Proof.
  induction l as [|x l IH]; intros Hbody p HI; simpl.
  - by apply wp_ret.
  - apply wp_bind. eapply wp_mono; [apply Hbody; [left|done]|].
    simpl. intros _ p' HI'. apply IH; [|done].
    intros y q Hy. apply Hbody. by right.
Qed.

(** ** What the methods leave alone *)

Lemma frame_set_logger (l : Logger) (p : Pool) : same_frame p (set_logger l p).
Proof. by repeat split. Qed.

Lemma frame_set_list (l : list Evidence) (p : Pool) : same_frame p (set_evidenceList l p).
Proof. by repeat split. Qed.

Lemma wp_frame_step {A : Type} (c : M A) (p0 p : Pool) (Q : A -> Pool -> Prop) :
  same_frame p0 p ->
  wp c p (fun a p' => same_frame p p' /\ (same_frame p0 p' -> Q a p')) ->
  wp c p (fun a p' => Q a p').
Proof.
  intros H0 W. eapply wp_mono; [exact W|]. simpl. intros a p' [Hf HQ].
  apply HQ. by eapply same_frame_trans.
Qed.

Lemma isPending_frame (ev : Evidence) (p : Pool) (L : KeyLayout) :
  dbKeyLayout p = Some L -> wp (isPending ev) p (fun _ p' => same_frame p p').
Proof.
  intros HL. eapply wp_mono; [by apply (isPending_spec ev p L)|].
  simpl. intros b p' (Hq & _). by apply quiet_frame.
Qed.

Lemma removeEvidenceFromList_frame (m : gset string) (p : Pool) :
  wp (removeEvidenceFromList m) p (fun _ p' => same_frame p p').
Proof. apply wp_modify. by repeat split. Qed.

Lemma removeIfAny_frame (m : gset string) (p : Pool) :
  wp (removeIfAny m) p (fun _ p' => same_frame p p').
Proof.
  unfold removeIfAny. destruct (negb _); [apply removeEvidenceFromList_frame|].
  apply wp_ret, same_frame_refl.
Qed.

Lemma removePendingEvidence_frame (ev : Evidence) (p : Pool) (L : KeyLayout) :
  dbKeyLayout p = Some L -> wp (removePendingEvidence ev) p (fun _ p' => same_frame p p').
Proof.
  intros HL. eapply wp_mono; [by apply (removePendingEvidence_spec ev p L)|].
  simpl. tauto.
Qed.

Lemma addPendingEvidence_frame (ev : Evidence) (p : Pool) (L : KeyLayout) :
  dbKeyLayout p = Some L -> wp (addPendingEvidence ev) p (fun _ p' => same_frame p p').
Proof.
  intros HL. eapply wp_mono; [by apply (addPendingEvidence_spec ev p L)|].
  simpl. tauto.
Qed.

Lemma markEvidenceAsCommitted_loop_frame (L : KeyLayout) (evidence : list Evidence) :
  forall (m : gset string) (p : Pool),
    dbKeyLayout p = Some L ->
    wp (markEvidenceAsCommitted_loop evidence m) p (fun _ p' => same_frame p p').
Proof.
  induction evidence as [|ev rest IH]; intros m p HL; simpl.
  { apply wp_ret, same_frame_refl. }
  apply wp_bind. eapply wp_mono; [by apply (isPending_frame ev p L)|].
  simpl. intros pending p1 Hf1.
  assert (HL1 : dbKeyLayout p1 = Some L) by (by eapply frame_layout).
  apply wp_bind.
  apply (wp_mono _ _ (fun _ p' => same_frame p p')).
  { destruct pending.
    - apply wp_bind. eapply wp_mono; [by apply (removePendingEvidence_frame ev p1 L)|].
      simpl. intros _ p2 Hf2. apply wp_ret. by eapply same_frame_trans.
    - by apply wp_ret. }
  simpl. intros m' p2 Hf2.
  assert (HL2 : dbKeyLayout p2 = Some L) by (by eapply frame_layout).
  apply wp_bind, (wp_layout _ L); [done|].
  assert (Hrest : forall q, same_frame p2 q ->
             wp (markEvidenceAsCommitted_loop rest m') q (fun _ p' => same_frame p p')).
  { intros q Hq. eapply wp_mono; [apply IH; by eapply frame_layout|].
    simpl. intros _ p' Hp'. eapply same_frame_trans; [done|]. by eapply same_frame_trans. }
  destruct (external (Marshal_Int64Value (Height ev))) as [evBytes|e].
  - apply wp_bind, wp_store. intros r d E.
    destruct (db_write_cases (insert (CalcKeyCommitted L ev) evBytes)
                (WSet (CalcKeyCommitted L ev) evBytes) (evidenceStore p2))
      as (r' & d' & E' & Hf & _).
    unfold db.Set_ in E. rewrite E' in E. injection E as <- <-.
    apply wp_bind.
    apply (wp_mono _ _ (fun _ p' => same_frame p2 p')).
    { destruct r'; [apply wp_ret|apply wp_log; intros l]; by repeat split. }
    simpl. intros _ q Hq. by apply Hrest.
  - apply wp_bind, wp_log. intros l. apply Hrest. by repeat split.
Qed.

Lemma markEvidenceAsCommitted_frame (L : KeyLayout) (evidence : list Evidence) (p : Pool) :
  dbKeyLayout p = Some L ->
  wp (markEvidenceAsCommitted evidence) p (fun _ p' => same_frame p p').
Proof.
  intros HL. unfold markEvidenceAsCommitted. apply wp_bind.
  eapply wp_mono; [by apply (markEvidenceAsCommitted_loop_frame L)|].
  simpl. intros m p1 Hf1. destruct (negb _); [|by apply wp_ret].
  eapply wp_mono; [apply removeEvidenceFromList_frame|].
  simpl. intros _ p2 Hf2. by eapply same_frame_trans.
Qed.

Lemma removeExpiredPendingEvidence_loop_frame (L : KeyLayout) (items : list (bytes * bytes)) :
  forall (m : gset string) (p : Pool),
    dbKeyLayout p = Some L ->
    wp (removeExpiredPendingEvidence_loop items m) p (fun _ p' => same_frame p p').
Proof.
  induction items as [|[key value] rest IH]; intros m p HL; simpl.
  { apply wp_bind. eapply wp_mono; [apply removeIfAny_frame|].
    simpl. intros _ p1 Hf. by apply wp_bind, wp_get, wp_ret. }
  destruct (bytesToEv value) as [ev|e].
  - apply wp_bind, wp_get. destruct (negb _).
    + apply wp_bind. eapply wp_mono; [apply removeIfAny_frame|].
      simpl. intros _ p1 Hf. by apply wp_bind, wp_get, wp_ret.
    + apply wp_bind. eapply wp_mono; [by apply (removePendingEvidence_frame ev p L)|].
      simpl. intros _ p1 Hf. eapply wp_mono; [apply IH; by eapply frame_layout|].
      simpl. intros _ p2 Hf2. by eapply same_frame_trans.
  - apply wp_bind, wp_log. intros l. eapply wp_mono; [by apply IH|].
    simpl. intros _ p2 Hf2. eapply same_frame_trans; [|done]. apply frame_set_logger.
Qed.

Lemma removeExpiredPendingEvidence_frame (L : KeyLayout) (p : Pool) :
  dbKeyLayout p = Some L ->
  wp removeExpiredPendingEvidence p (fun _ p' => same_frame p p').
Proof.
  intros HL. unfold removeExpiredPendingEvidence.
  apply wp_bind, (wp_layout _ L); [done|]. apply wp_bind, wp_store. intros r d E.
  destruct (db_read_cases (fun d => prefixEntries (PrefixToBytesPending L) (entries d))
              (evidenceStore p)) as (r' & d' & E' & Hs & _).
  unfold db.IteratePrefix in E. rewrite E' in E. injection E as <- <-.
  assert (Hf : same_frame p (set_evidenceStore d' p)).
  { destruct Hs as (_&_&?). by repeat split. }
  destruct r' as [items|].
  - eapply wp_mono; [by apply (removeExpiredPendingEvidence_loop_frame L)|].
    simpl. intros _ p2 Hf2. by eapply same_frame_trans.
  - apply wp_bind, wp_log. intros l. apply wp_bind, wp_get, wp_ret.
    eapply same_frame_trans; [done|apply frame_set_logger].
Qed.


(** ** The consensus buffer *)


Lemma formed_frame (state : sm_State) (p q : Pool) (voteSet : duplicateVoteSet) :
  same_frame p q -> formed state q voteSet = formed state p voteSet.
Proof. intros (_ & Hs & Hb & _). unfold formed. by rewrite Hs, Hb. Qed.

Lemma processVoteSet_spec (state : sm_State) (voteSet : duplicateVoteSet) (p : Pool)
    (L : KeyLayout) :
  dbKeyLayout p = Some L ->
  wp (processVoteSet state voteSet) p
    (fun _ p' => same_frame p p' /\
       match formed state p voteSet with
       | None => quiet p p'
       | Some dve =>
           quiet p p' \/ (added L dve p p' /\ evidenceList p' = evidenceList p ++ [dve])
       end).
Proof.
  intros HL. unfold processVoteSet. apply wp_bind.
  set (h := Vote_Height (VoteA voteSet)).
  set (post := fun (made : option (Evidence + error)) (p' : Pool) =>
     quiet p p' /\
     match made with
     | Some (inl dve) => formed state p voteSet = Some dve
     | _ => formed state p voteSet = None
     end).
  apply (wp_mono _ _ post).
  { unfold post, formed. fold h. destruct (h =? LastBlockHeight state).
    - apply wp_ret. split; [apply quiet_refl|].
      by destruct (NewDuplicateVoteEvidence _ _ _ _).
    - destruct (h <? LastBlockHeight state).
      + apply wp_bind, wp_get.
        destruct (LoadValidators (stateDB p) h) as [valSet|e].
        * destruct (LoadBlockMeta (blockStore p) h) as [blockMeta|].
          -- apply wp_ret. split; [apply quiet_refl|].
             by destruct (NewDuplicateVoteEvidence _ _ _ _).
          -- apply wp_bind, wp_log. intros l. apply wp_ret.
             split; [apply quiet_set_logger|done].
        * apply wp_bind, wp_log. intros l. apply wp_ret.
          split; [apply quiet_set_logger|done].
      + apply wp_bind, wp_log. intros l. apply wp_ret.
        split; [apply quiet_set_logger|done]. }
  unfold post. intros made p1 [Hq1 Hmade].
  assert (HL1 : dbKeyLayout p1 = Some L) by (eapply frame_layout; [by apply quiet_frame|done]).
  destruct made as [[dve|e]|].
  3:{ apply wp_ret. rewrite Hmade.
      split; [by apply quiet_frame|done]. }
  2:{ apply wp_log. intros l. rewrite Hmade.
      assert (quiet p (set_logger l p1)) by (eapply quiet_trans; [done|apply quiet_set_logger]).
      split; [by apply quiet_frame|done]. }
  rewrite Hmade.
  apply wp_bind. eapply wp_mono; [by apply (isPending_spec dve p1 L)|].
  simpl. intros pending p2 (Hq2 & _).
  assert (Hqp2 : quiet p p2) by (by eapply quiet_trans).
  assert (HL2 : dbKeyLayout p2 = Some L) by (eapply frame_layout; [by apply quiet_frame|done]).
  destruct pending.
  { apply wp_log. intros l.
    assert (quiet p (set_logger l p2)) by (eapply quiet_trans; [done|apply quiet_set_logger]).
    split; [by apply quiet_frame|by left]. }
  apply wp_bind. eapply wp_mono; [by apply (isCommitted_spec dve p2 L)|].
  simpl. intros committed p3 (Hq3 & _).
  assert (Hqp3 : quiet p p3) by (by eapply quiet_trans).
  assert (HL3 : dbKeyLayout p3 = Some L) by (eapply frame_layout; [by apply quiet_frame|done]).
  destruct committed.
  { apply wp_log. intros l.
    assert (quiet p (set_logger l p3)) by (eapply quiet_trans; [done|apply quiet_set_logger]).
    split; [by apply quiet_frame|by left]. }
  apply wp_bind. eapply wp_mono; [by apply (addPendingEvidence_spec dve p3 L)|].
  simpl. intros [e|] p4 (Hf4 & Hl4 & Hlg4 & H4).
  - destruct H4 as (Hs4 & Hz4 & _). apply wp_log. intros l.
    assert (quiet p3 p4) by (unfold quiet; auto).
    assert (quiet p (set_logger l p4)).
    { eapply quiet_trans; [done|]. eapply quiet_trans; [done|apply quiet_set_logger]. }
    split; [by apply quiet_frame|by left].
  - apply wp_bind, wp_modify, wp_log. intros l. simpl.
    destruct Hqp3 as ((He3 & Hw3 & Hfa3) & Hl3 & Hz3 & Hf3).
    split.
    { eapply same_frame_trans; [done|]. destruct Hf4 as (?&?&?&?&?&?&?&?). by repeat split. }
    right. destruct H4 as (evpb & evBytes & E1 & E2 & He & Hw & Hz).
    split; [|by rewrite Hl4, Hl3].
    exists evpb, evBytes. repeat split; try done; simpl.
    + by rewrite He, He3.
    + by rewrite Hw, Hw3.
    + by rewrite Hz, Hz3.
Qed.

Lemma processConsensusBuffer_spec (state : sm_State) (p : Pool) (L : KeyLayout) :
  dbKeyLayout p = Some L ->
  wp (processConsensusBuffer state) p
    (fun _ p' => consensusBuffer p' = [] /\
       same_frame (set_consensusBuffer [] p) p' /\
       (Forall (fun voteSet => formed state p voteSet = None) (consensusBuffer p) ->
        quiet_but_buffer p p')).
Proof.
  intros HL. unfold processConsensusBuffer. apply wp_bind, wp_get, wp_bind.
  set (I := fun q : Pool => same_frame p q /\
     (Forall (fun voteSet => formed state p voteSet = None) (consensusBuffer p) -> quiet p q)).
  apply (wp_mono _ _ (fun _ q => I q)).
  - apply (wp_forEach I); [|split; [apply same_frame_refl|intros _; apply quiet_refl]].
    intros voteSet q Hin [Hf Hq].
    eapply wp_mono; [apply (processVoteSet_spec state voteSet q L); by eapply frame_layout|].
    simpl. intros _ q' [Hf' H']. split; [by eapply same_frame_trans|].
    intros Hall. specialize (Hq Hall). eapply quiet_trans; [done|].
    rewrite (formed_frame state p q voteSet Hf) in H'.
    rewrite Forall_forall in Hall. by rewrite (Hall voteSet Hin) in H'.
  - simpl. intros _ q [Hf Hq]. apply wp_modify. simpl. split; [done|]. split.
    + destruct Hf as (?&?&?&?&?&?&?&?). by repeat split.
    + intros Hall. destruct (Hq Hall) as ((?&?&?)&?&?&(?&?&?&?&?&?&?&?)).
      by repeat split.
Qed.


Lemma frame_buffer (p p' : Pool) :
  same_frame p p' -> consensusBuffer p' = consensusBuffer p.
Proof. by intros (_&_&_&_&?&_). Qed.

Lemma Update_spec (newState : sm_State) (evList : list Evidence) (p : Pool) (L : KeyLayout) :
  dbKeyLayout p = Some L ->
  LastBlockHeight (state p) < LastBlockHeight newState ->
  wp (Update newState evList) p
    (fun _ p' => consensusBuffer p' = [] /\ state p' = newState /\ dbKeyLayout p' = Some L).
Proof.
  intros HL Hh. unfold Update. apply wp_bind, wp_get.
  destruct (Z.leb_spec (LastBlockHeight newState) (LastBlockHeight (state p))); [lia|].
  apply wp_bind, wp_log. intros l. apply wp_bind.
  eapply wp_mono; [by apply (processConsensusBuffer_spec newState _ L)|].
  simpl. intros _ p1 (Hb1 & Hf1 & _).
  assert (HL1 : dbKeyLayout p1 = Some L) by (by eapply frame_layout).
  apply wp_bind, wp_modify, wp_bind.
  eapply wp_mono; [by apply (markEvidenceAsCommitted_frame L)|].
  simpl. intros _ p3 Hf3.
  assert (HL3 : dbKeyLayout p3 = Some L) by (by eapply frame_layout).
  assert (Hb3 : consensusBuffer p3 = []) by (by rewrite (frame_buffer _ _ Hf3)).
  assert (Hs3 : state p3 = newState) by (by destruct Hf3 as (_&_&_&?&_)).
  apply wp_bind, wp_get. destruct (_ && _).
  - apply wp_bind. eapply wp_mono; [by apply (removeExpiredPendingEvidence_frame L)|].
    simpl. intros [h t] p4 Hf4. apply wp_modify. simpl.
    split; [by rewrite (frame_buffer _ _ Hf4)|].
    split; [destruct Hf4 as (_&_&_&?&_); congruence|by eapply frame_layout].
  - by apply wp_ret.
Qed.

Lemma processConsensusBuffer_empty (state : sm_State) (p : Pool) :
  consensusBuffer p = [] -> processConsensusBuffer state p = Ok tt p.
Proof.
  intros Hb. unfold processConsensusBuffer, bind, get. rewrite Hb. simpl.
  unfold modify. f_equal. destruct p. simpl in Hb. by subst.
Qed.

(** C10. When [processConsensusBuffer], and so [Update], returns, the
    consensus buffer is empty.  Every buffered pair was consumed: either its
    evidence was formed and written to the pending store and the list, or the
    pair left no trace (the store, its write log, the list and the size are as
    before); in particular pairs whose evidence cannot be formed are dropped.
    A flush that finds the buffer empty does nothing, so a dropped pair is not
    taken up by a later [Update]. *)
Theorem Update_empties_consensus_buffer
    (newState : sm_State) (evList : list Evidence) (p : Pool) (L : KeyLayout) :
  dbKeyLayout p = Some L ->
  (exists p', processConsensusBuffer newState p = Ok tt p' /\ consensusBuffer p' = [] /\
     (Forall (fun voteSet => formed newState p voteSet = None) (consensusBuffer p) ->
      quiet_but_buffer p p')) /\
  (LastBlockHeight (state p) < LastBlockHeight newState ->
   exists p', Update newState evList p = Ok tt p' /\ consensusBuffer p' = []) /\
  (forall voteSet, exists p', processVoteSet newState voteSet p = Ok tt p' /\
     (quiet p p' \/
      exists dve, formed newState p voteSet = Some dve /\ added L dve p p' /\
                  evidenceList p' = evidenceList p ++ [dve])) /\
  (forall state' q, consensusBuffer q = [] -> processConsensusBuffer state' q = Ok tt q).
Proof.
  intros HL. split; [|split; [|split]].
  - destruct (wp_elim _ _ _ (processConsensusBuffer_spec newState p L HL))
      as ([] & p' & E & Hb & _ & Hq). eauto.
  - intros Hh. destruct (wp_elim _ _ _ (Update_spec newState evList p L HL Hh))
      as ([] & p' & E & Hb & _). eauto.
  - intros voteSet. destruct (wp_elim _ _ _ (processVoteSet_spec newState voteSet p L HL))
      as ([] & p' & E & _ & H). exists p'. split; [done|].
    destruct (formed newState p voteSet) as [dve|]; [|by left].
    destruct H as [?|[? ?]]; [by left|right; eauto].
  - intros state' q. apply processConsensusBuffer_empty.
Qed.


(** ** The choice of the key layout *)


Lemma sortedEntries_nil (m : gmap string string) : sortedEntries m = [] <-> m = ∅.
Proof.
  unfold sortedEntries. rewrite <- map_to_list_empty_iff. split; intros H.
  - apply Permutation_nil_r. rewrite <- H. symmetry. apply merge_sort_Permutation.
  - apply Permutation_nil_r. rewrite <- H. apply merge_sort_Permutation.
Qed.

Lemma isEmpty_spec (p : Pool) :
  db.reliable (evidenceStore p) ->
  wp isEmpty p (fun b p' => quiet p p' /\ (b = true <-> entries (evidenceStore p) = ∅)).
Proof.
  intros HR. unfold isEmpty. apply wp_bind, wp_store. intros r d E.
  destruct (db_read_cases (fun d => sortedEntries (entries d)) (evidenceStore p))
    as (r' & d' & E' & Hs & _ & Hr).
  unfold db.Iterator in E. rewrite E' in E. injection E as <- <-.
  rewrite (Hr HR). simpl.
  destruct (sortedEntries (entries (evidenceStore p))) as [|kv l] eqn:El.
  - apply wp_ret. split; [by apply quiet_set_store|]. by rewrite <- sortedEntries_nil.
  - apply wp_ret. split; [by apply quiet_set_store|]. rewrite <- sortedEntries_nil, El. done.
Qed.

Lemma setDBLayout_spec (requested : string) (p : Pool) :
  db.reliable (evidenceStore p) ->
  match layoutOf (selectedVersion requested (evidenceStore p)) with
  | Some (L, version) =>
      exists p', setDBLayout requested p = Ok tt p' /\
        dbKeyLayout p' = Some L /\
        entries (evidenceStore p') = <["version" := version]> (entries (evidenceStore p)) /\
        writes (evidenceStore p') = writes (evidenceStore p) ++ [WSetSync "version" version] /\
        same_frame (set_dbKeyLayout (Some L) p) p' /\
        evidenceList p' = evidenceList p /\ evidenceSize p' = evidenceSize p
  | None =>
      exists p', setDBLayout requested p = Panic "unknown key layout version" p' /\ quiet p p'
  end.
Proof.
  intros HR. remember (setDBLayout requested p) as out eqn:Hout.
  unfold setDBLayout in Hout.
  destruct (wp_elim _ _ _ (isEmpty_spec p HR)) as (empty & p1 & E1 & Hq1 & Hempty).
  unfold bind at 1 in Hout. rewrite E1 in Hout.
  assert (HR1 : db.reliable (evidenceStore p1))
    by (eapply frame_reliable; [by apply quiet_frame|done]).
  assert (He1 : entries (evidenceStore p1) = entries (evidenceStore p)) by apply Hq1.
  set (chosen := selectedVersion requested (evidenceStore p)).
  assert (exists p2, quiet p p2 /\
    (if negb empty
     then bind (store (db.Get "version")) (fun r =>
            match r with
            | None => panic "database error"
            | Some version =>
                if negb (String.length version =? 0)%nat then ret version else ret requested
            end)
     else ret requested) p1 = Ok chosen p2) as (p2 & Hq2 & E2).
  { destruct empty; simpl.
    - exists p1. split; [done|]. unfold ret, chosen, selectedVersion.
      rewrite (proj1 Hempty eq_refl), lookup_empty. done.
    - destruct (db_read_cases (fun d => default EmptyString (entries d !! "version"))
                  (evidenceStore p1)) as (r' & d' & E' & Hs & _ & Hr).
      exists (set_evidenceStore d' p1).
      split; [eapply quiet_trans; [done|by apply quiet_set_store]|].
      unfold bind, store, db.Get. rewrite E', (Hr HR1). simpl. rewrite He1.
      unfold chosen, selectedVersion.
      destruct (entries (evidenceStore p) !! "version") as [recorded|]; simpl.
      + by destruct (String.length recorded =? 0)%nat.
      + done. }
  unfold bind at 1 in Hout. rewrite E2 in Hout.
  assert (HR2 : db.reliable (evidenceStore p2))
    by (eapply frame_reliable; [by apply quiet_frame|done]).
  unfold layoutOf. fold chosen.
  assert (Hfinish : forall L version,
    exists p', bind (store (db.SetSync "version" version)) (fun r =>
                 match r with
                 | None => panic "database error"
                 | Some _ => ret tt
                 end) (set_dbKeyLayout (Some L) p2) = Ok tt p' /\
      dbKeyLayout p' = Some L /\
      entries (evidenceStore p') = <["version" := version]> (entries (evidenceStore p)) /\
      writes (evidenceStore p') = writes (evidenceStore p) ++ [WSetSync "version" version] /\
      same_frame (set_dbKeyLayout (Some L) p) p' /\
      evidenceList p' = evidenceList p /\ evidenceSize p' = evidenceSize p).
  { intros L version.
    destruct (db_write_cases (insert "version" version) (WSetSync "version" version)
                (evidenceStore p2)) as (r' & d' & E' & Hf & Hc & Hr).
    exists (set_evidenceStore d' (set_dbKeyLayout (Some L) p2)).
    unfold bind, store, db.SetSync. simpl. rewrite E', (Hr HR2). simpl.
    destruct Hc as [[Hn _]|(_ & He & Hw)]; [by rewrite (Hr HR2) in Hn|].
    destruct Hq2 as ((He2 & Hw2 & Hf2) & Hl2 & Hz2 & (?&?&?&?&?&?&?&?)).
    split; [done|]. split; [done|]. split; [by rewrite He, He2|].
    split; [by rewrite Hw, Hw2|]. split; [by repeat split; simpl; congruence|].
    done. }
  simpl in Hout.
  destruct ((chosen =? "v1")%string || (chosen =? "")%string).
  { destruct (Hfinish v1LegacyLayout "v1") as (p' & E' & H). exists p'. split; [|done].
    subst out. exact E'. }
  destruct (chosen =? "v2")%string eqn:Ev2.
  { apply String.eqb_eq in Ev2. rewrite Ev2 in Hout.
    destruct (Hfinish v2Layout "v2") as (p' & E' & H). exists p'. split; [|done].
    subst out. exact E'. }
  exists p2. by subst out.
Qed.


(** C3 (amended). On a store whose operations succeed, [setDBLayout] takes
    the version from the version record when the store has a non-empty one;
    when the record is absent it takes the requested version, whether the
    store is empty or not.  A version other than v1, v2 or the unset version
    (which means v1) is fatal; otherwise the layout of the version is
    installed and the version is written back to the version record with
    [SetSync], as the last write. *)
Theorem setDBLayout_selects_and_records (requested : string) (p : Pool) :
  db.reliable (evidenceStore p) ->
  (forall recorded, entries (evidenceStore p) !! "version" = Some recorded ->
     recorded <> "" -> selectedVersion requested (evidenceStore p) = recorded) /\
  (entries (evidenceStore p) !! "version" = None ->
     selectedVersion requested (evidenceStore p) = requested) /\
  match layoutOf (selectedVersion requested (evidenceStore p)) with
  | Some (L, version) =>
      exists p', setDBLayout requested p = Ok tt p' /\
        dbKeyLayout p' = Some L /\
        entries (evidenceStore p') = <["version" := version]> (entries (evidenceStore p)) /\
        writes (evidenceStore p') = writes (evidenceStore p) ++ [WSetSync "version" version]
  | None =>
      exists p', setDBLayout requested p = Panic "unknown key layout version" p' /\ quiet p p'
  end.
Proof.
  intros HR. split; [|split].
  - intros recorded Hrec Hne. unfold selectedVersion. rewrite Hrec.
    destruct recorded; [done|reflexivity].
  - intros Hnone. unfold selectedVersion. by rewrite Hnone.
  - pose proof (setDBLayout_spec requested p HR) as H.
    destruct (layoutOf (selectedVersion requested (evidenceStore p))) as [[L version]|]; [|done].
    destruct H as (p' & E & HL & He & Hw & _). eauto.
Qed.


(** ** Listing pending evidence *)


Lemma within_spec (maxBytes : Z) (pbs : list EvidencePB) :
  forall acc, let n := within maxBytes pbs acc in
    (n <= length pbs)%nat /\
    (maxBytes = -1 -> n = length pbs) /\
    (maxBytes <> -1 ->
       (forall k, (0 < k <= n)%nat -> EvidenceList_Size (acc ++ take k pbs) <= maxBytes) /\
       ((n < length pbs)%nat -> maxBytes < EvidenceList_Size (acc ++ take (S n) pbs))).
Proof.
  induction pbs as [|pb rest IH]; intros acc; simpl.
  { split; [lia|]. split; [done|]. intros _. split; intros; lia. }
  destruct (Z.eqb_spec maxBytes (-1)) as [->|Hne]; simpl.
  { destruct (IH (acc ++ [pb])) as (Hle & Hall & _).
    split; [lia|]. split; [intros _; by rewrite Hall|done]. }
  destruct (Z.ltb_spec maxBytes (EvidenceList_Size (acc ++ [pb]))) as [Hgt|Hfit].
  { split; [lia|]. split; [done|]. intros _. split; [intros; lia|]. intros _. by rewrite take_0. }
  destruct (IH (acc ++ [pb])) as (Hle & _ & Hlim). specialize (Hlim Hne) as [Hfits Hstop].
  split; [lia|]. split; [done|]. intros _. split.
  - intros [|k] Hk; [lia|]. simpl. destruct k as [|k].
    + by rewrite take_0.
    + rewrite (cons_middle pb), app_assoc. apply Hfits. lia.
  - intros Hlt. rewrite (cons_middle pb acc), app_assoc. apply Hstop. lia.
Qed.

Lemma iterError_spec (p : Pool) :
  wp iterError p
    (fun e p' => quiet p p' /\ (db.reliable (evidenceStore p) -> e = None)).
Proof.
  unfold iterError. apply wp_bind, wp_store. intros r d E.
  destruct (db_read_cases (fun _ => tt) (evidenceStore p)) as (r' & d' & E' & Hs & _ & Hr).
  unfold db.IterError in E. rewrite E' in E. injection E as <- <-.
  destruct r'; apply wp_ret; (split; [by apply quiet_set_store|]); intros R;
    by specialize (Hr R).
Qed.

(** Whatever the store holds, listing leaves it alone and respects the limit. *)
Lemma listEvidence_loop_bound (items : list (bytes * bytes)) (maxBytes : Z) :
  forall totalSize evidence evList p,
    wp (listEvidence_loop items maxBytes totalSize evidence evList) p
      (fun r p' => quiet p p' /\ (0 <= maxBytes -> totalSize <= maxBytes -> r.1.2 <= maxBytes)).
Proof.
  induction items as [|[key value] rest IH]; intros totalSize evidence evList p; simpl.
  { apply wp_bind. eapply wp_mono; [apply iterError_spec|].
    simpl. intros e p' [Hq _]. by apply wp_ret. }
  destruct (external (Unmarshal value)) as [evpb|e]; [|by apply wp_ret; split; [apply quiet_refl|]].
  destruct (Z.eqb_spec maxBytes (-1)) as [->|Hne]; simpl.
  { destruct (external (EvidenceFromProto evpb)) as [ev|e].
    - eapply wp_mono; [apply IH|]. simpl. intros r p' [Hq _]. split; [done|]. lia.
    - apply wp_ret. split; [apply quiet_refl|done]. }
  destruct (Z.ltb_spec maxBytes (EvidenceList_Size (evList ++ [evpb]))) as [Hgt|Hfit].
  { apply wp_bind. eapply wp_mono; [apply iterError_spec|].
    simpl. intros e p' [Hq _]. by apply wp_ret. }
  destruct (external (EvidenceFromProto evpb)) as [ev|e].
  - eapply wp_mono; [apply IH|]. simpl. intros r p' [Hq Hb]. split; [done|]. auto.
  - apply wp_ret. split; [apply quiet_refl|done].
Qed.

(** On a store that does not fail and whose entries decode, listing returns
    the evidence of the entries that fit, in the order of the entries. *)
Lemma listEvidence_loop_exact (items : list (bytes * bytes)) (des : list (EvidencePB * Evidence))
    (maxBytes : Z) :
  Forall2 decodes items des ->
  forall totalSize evidence evList p,
    db.reliable (evidenceStore p) ->
    wp (listEvidence_loop items maxBytes totalSize evidence evList) p
      (fun r p' => quiet p p' /\
         let n := within maxBytes (map fst des) evList in
         r = (evidence ++ take n (map snd des),
              if (n =? 0)%nat then totalSize else EvidenceList_Size (evList ++ take n (map fst des)),
              None)).
Proof.
  induction 1 as [|[key value] [pb ev] items des [Hu Hf] Hrest IH];
    intros totalSize evidence evList p HR; simpl.
  { apply wp_bind. eapply wp_mono; [apply iterError_spec|].
    simpl. intros e p' [Hq He]. apply wp_ret. split; [done|].
    by rewrite (He HR), app_nil_r. }
  simpl in Hu, Hf. rewrite Hu. simpl.
  destruct (negb (maxBytes =? -1) && (maxBytes <? EvidenceList_Size (evList ++ [pb]))).
  { apply wp_bind. eapply wp_mono; [apply iterError_spec|].
    simpl. intros e p' [Hq He]. apply wp_ret. split; [done|].
    by rewrite (He HR), app_nil_r. }
  rewrite Hf. simpl. eapply wp_mono; [by apply IH|].
  simpl. intros r p' [Hq ->]. split; [done|].
  rewrite <- !app_assoc. simpl.
  destruct (within maxBytes (map fst des) (evList ++ [pb])); simpl; by rewrite ?app_nil_r.
Qed.

Lemma listEvidence_bound (prefixKey : bytes) (maxBytes : Z) (p : Pool) :
  wp (listEvidence prefixKey maxBytes) p
    (fun r p' => quiet p p' /\ (0 <= maxBytes -> r.1.2 <= maxBytes)).
Proof.
  unfold listEvidence. apply wp_bind, wp_store. intros r d E.
  destruct (db_read_cases (fun d => prefixEntries prefixKey (entries d)) (evidenceStore p))
    as (r' & d' & E' & Hs & _).
  unfold db.IteratePrefix in E. rewrite E' in E. injection E as <- <-.
  destruct r' as [items|].
  - eapply wp_mono; [apply listEvidence_loop_bound|]. simpl. intros r p' [Hq Hb].
    split; [eapply quiet_trans; [by apply quiet_set_store|done]|]. intros; apply Hb; lia.
  - apply wp_ret. split; [by apply quiet_set_store|done].
Qed.

Lemma listEvidence_exact (prefixKey : bytes) (maxBytes : Z) (p : Pool)
    (des : list (EvidencePB * Evidence)) :
  db.reliable (evidenceStore p) ->
  Forall2 decodes (prefixEntries prefixKey (entries (evidenceStore p))) des ->
  wp (listEvidence prefixKey maxBytes) p
    (fun r p' => quiet p p' /\
       let n := within maxBytes (map fst des) [] in
       r = (take n (map snd des), if (n =? 0)%nat then 0 else EvidenceList_Size (take n (map fst des)), None)).
Proof.
  intros HR Hdes. unfold listEvidence. apply wp_bind, wp_store. intros r d E.
  destruct (db_read_cases (fun d => prefixEntries prefixKey (entries d)) (evidenceStore p))
    as (r' & d' & E' & Hs & _ & Hr).
  unfold db.IteratePrefix in E. rewrite E' in E. injection E as <- <-.
  rewrite (Hr HR). simpl.
  eapply wp_mono; [apply (listEvidence_loop_exact _ des); [done|]|].
  { simpl. intros n. destruct Hs as (_ & _ & Hf). by rewrite Hf. }
  simpl. intros r p' [Hq ->]. split; [|done].
  eapply quiet_trans; [by apply quiet_set_store|done].
Qed.

(** C5. [PendingEvidence] returns and leaves the store, its write log, the
    list and the size as they were; for a limit that is not negative the size
    it returns is within the limit.  On a store that does not fail, whose
    pending entries decode and whose size counter is not zero while entries
    are pending, it returns the evidence of the first [n] pending entries in
    iteration order, where [n] is all of them for the limit -1 and otherwise
    stops before the first entry with which the serialised list would exceed
    the limit; the size returned is that of the [n] entries. *)
Theorem PendingEvidence_within_limit_in_order
    (maxBytes : Z) (p : Pool) (L : KeyLayout) (des : list (EvidencePB * Evidence)) :
  dbKeyLayout p = Some L ->
  (exists r p', PendingEvidence maxBytes p = Ok r p' /\ quiet p p' /\
     (0 <= maxBytes -> r.2 <= maxBytes)) /\
  (db.reliable (evidenceStore p) ->
   Forall2 decodes (prefixEntries (PrefixToBytesPending L) (entries (evidenceStore p))) des ->
   (Size p = 0 -> des = []) ->
   exists n p',
     PendingEvidence maxBytes p
       = Ok (take n (map snd des), if (n =? 0)%nat then 0 else EvidenceList_Size (take n (map fst des))) p' /\
     (n <= length des)%nat /\
     (maxBytes = -1 -> n = length des) /\
     (maxBytes <> -1 ->
        (forall k, (0 < k <= n)%nat -> EvidenceList_Size (take k (map fst des)) <= maxBytes) /\
        ((n < length des)%nat -> maxBytes < EvidenceList_Size (take (S n) (map fst des))))).
Proof.
  intros HL. split.
  - unfold PendingEvidence, bind at 1, get. destruct (Size p =? 0).
    { exists ([], 0), p. split; [done|]. split; [apply quiet_refl|]. simpl. lia. }
    apply wp_elim. apply wp_bind, (wp_layout _ L); [done|]. apply wp_bind.
    eapply wp_mono; [apply listEvidence_bound|]. simpl.
    intros [[evidence size] [e|]] p' [Hq Hb]; simpl in *.
    + apply wp_bind, wp_log. intros l. apply wp_ret.
      split; [eapply quiet_trans; [done|apply quiet_set_logger]|]. simpl. lia.
    + by apply wp_ret.
  - intros HR Hdes Hsize.
    pose proof (within_spec maxBytes (map fst des) []) as Hn. simpl in Hn.
    rewrite length_map in Hn. exists (within maxBytes (map fst des) []).
    unfold PendingEvidence, bind at 1, get. destruct (Z.eqb_spec (Size p) 0) as [Hz|Hnz].
    { rewrite (Hsize Hz). simpl. exists p. split; [done|]. rewrite (Hsize Hz) in Hn. done. }
    destruct (wp_elim _ _ _ (listEvidence_exact (PrefixToBytesPending L) maxBytes p des HR Hdes))
      as (r & p' & E & Hq & ->).
    exists p'. split; [|done].
    unfold bind, layout. rewrite HL, E. done.
Qed.


(** ** Pruning *)


Lemma isExpired_state (p q : Pool) (h : Z) (t : time.Time) :
  state q = state p -> isExpired q h t = isExpired p h t.
Proof. intros H. unfold isExpired, State. by rewrite H. Qed.

Lemma expiredBefore_state (p q : Pool) (items : list (bytes * bytes)) :
  state q = state p -> expiredBefore q items = expiredBefore p items.
Proof.
  intros H. induction items as [|kv rest IH]; simpl; [done|].
  destruct (decoded kv) as [ev|]; [|done].
  by rewrite (isExpired_state p q), IH.
Qed.

Lemma nextPruning_state (p q : Pool) (first : option Evidence) :
  state q = state p -> nextPruning q first = nextPruning p first.
Proof. intros H. unfold nextPruning, State. by rewrite H. Qed.

Lemma frame_state (p q : Pool) : same_frame p q -> state q = state p.
Proof. by intros (_&_&_&?&_). Qed.

Lemma withoutHashes_empty (l : list Evidence) : withoutHashes ∅ l = l.
Proof.
  unfold withoutHashes. induction l as [|ev l IH]; simpl; [done|].
  rewrite bool_decide_eq_false_2 by set_solver. simpl. by rewrite IH.
Qed.

Lemma removeIfAny_spec (m : gset string) (p : Pool) :
  wp (removeIfAny m) p
    (fun _ p' => same_store (evidenceStore p) (evidenceStore p') /\ same_frame p p' /\
       evidenceList p' = withoutHashes m (evidenceList p)).
Proof.
  unfold removeIfAny. destruct (size m =? 0)%nat eqn:E; simpl.
  - apply Nat.eqb_eq, size_empty_iff in E. apply leibniz_equiv in E. subst m.
    apply wp_ret. rewrite withoutHashes_empty. split; [done|]. split; [apply same_frame_refl|done].
  - apply wp_modify. split; [done|]. split; [by repeat split|done].
Qed.

Lemma expiredBefore_spec (p : Pool) (items : list (bytes * bytes)) :
  forall expired first, expiredBefore p items = (expired, first) ->
    Forall (fun ev => isExpired p (Height ev) (Time ev) = true) expired /\
    (forall ev, first = Some ev -> isExpired p (Height ev) (Time ev) = false) /\
    (forall ev, ev ∈ expired -> exists kv, kv ∈ items /\ decoded kv = Some ev) /\
    exists rest, omap decoded items = expired ++ from_option (fun ev => ev :: rest) [] first.
Proof.
  induction items as [|kv items IH]; intros expired first; simpl.
  { intros [= <- <-]. split; [done|]. split; [done|]. split; [by intros ? ?%elem_of_nil|].
    by exists []. }
  destruct (decoded kv) as [ev|] eqn:Ed.
  2:{ intros H. destruct (IH _ _ H) as (H1 & H2 & H3 & H4). split; [done|]. split; [done|].
      split; [|done]. intros ev Hev. destruct (H3 ev Hev) as (kv' & ? & ?).
      exists kv'. split; [by right|done]. }
  destruct (isExpired p (Height ev) (Time ev)) eqn:Ex.
  - destruct (expiredBefore p items) as [expired' first'].
    intros [= <- <-]. destruct (IH _ _ eq_refl) as (H1 & H2 & H3 & rest & H4).
    split; [by constructor|]. split; [done|]. split.
    + intros ev' [->|Hev]%elem_of_cons.
      * exists kv. split; [by left|done].
      * destruct (H3 ev' Hev) as (kv' & ? & ?). exists kv'. split; [by right|done].
    + exists rest. simpl. f_equal. exact H4.
  - intros [= <- <-]. split; [done|]. split; [by intros ? [= <-]|].
    split; [by intros ? ?%elem_of_nil|]. by exists (omap decoded items).
Qed.

(** On a store that does not fail the scan deletes the key of each expired
    piece of evidence it met, takes those pieces off the list, and returns
    the threshold of the first entry that is not expired. *)
Lemma removeExpiredPendingEvidence_loop_exact (L : KeyLayout) (items : list (bytes * bytes)) :
  forall (m : gset string) (p : Pool),
    dbKeyLayout p = Some L -> db.reliable (evidenceStore p) ->
    wp (removeExpiredPendingEvidence_loop items m) p
      (fun r p' => same_frame p p' /\
         r = nextPruning p (expiredBefore p items).2 /\
         entries (evidenceStore p')
           = deleteAll L (expiredBefore p items).1 (entries (evidenceStore p)) /\
         writes (evidenceStore p')
           = writes (evidenceStore p)
             ++ map (fun ev => WDelete (CalcKeyPending L ev)) (expiredBefore p items).1 /\
         evidenceList p'
           = withoutHashes (hashSet (expiredBefore p items).1 ∪ m) (evidenceList p)).
Proof.
  induction items as [|[key value] rest IH]; intros m p HL HR; simpl.
  { apply wp_bind. eapply wp_mono; [apply removeIfAny_spec|].
    simpl. intros _ p1 ((He & Hw & _) & Hf & Hl). apply wp_bind, wp_get, wp_ret.
    split; [done|]. unfold nextPruning, State. rewrite (frame_state _ _ Hf).
    split; [done|]. split; [done|]. split; [by rewrite Hw, app_nil_r|].
    unfold hashSet. simpl. by rewrite union_empty_l_L. }
  unfold decoded. simpl. destruct (bytesToEv value) as [ev|e].
  2:{ apply wp_bind, wp_log. intros l.
      eapply wp_mono; [by apply IH|]. simpl. intros r p' (Hf & Hr & He & Hw & Hl).
      rewrite (expiredBefore_state p (set_logger l p)) in * by done.
      rewrite (nextPruning_state p (set_logger l p)) in Hr by done.
      split; [|done]. eapply same_frame_trans; [apply frame_set_logger|done]. }
  apply wp_bind, wp_get. destruct (isExpired p (Height ev) (Time ev)) eqn:Ex; simpl.
  - apply wp_bind. eapply wp_mono; [by apply (removePendingEvidence_spec ev p L)|].
    simpl. intros _ p1 (Hf1 & Hl1 & _ & Hdel). destruct (Hdel HR) as (He1 & Hw1 & _).
    eapply wp_mono; [apply IH; [by eapply frame_layout|by eapply frame_reliable]|].
    simpl. intros r p' (Hf & Hr & He & Hw & Hl).
    rewrite (expiredBefore_state p p1) in * by (by apply frame_state).
    rewrite (nextPruning_state p p1) in Hr by (by apply frame_state).
    destruct (expiredBefore p rest) as [expired first]. simpl in *.
    split; [by eapply same_frame_trans|]. split; [done|].
    split; [by rewrite He, He1|]. split; [by rewrite Hw, Hw1, <- app_assoc|].
    rewrite Hl, Hl1. f_equal. unfold hashSet. simpl.
    apply set_eq. intros x. rewrite !elem_of_union. tauto.
  - apply wp_bind. eapply wp_mono; [apply removeIfAny_spec|].
    simpl. intros _ p1 ((He & Hw & _) & Hf & Hl). apply wp_bind, wp_get, wp_ret.
    split; [done|]. unfold nextPruning, State. rewrite (frame_state _ _ Hf).
    split; [done|]. split; [done|]. split; [by rewrite Hw, app_nil_r|].
    unfold hashSet. simpl. by rewrite union_empty_l_L.
Qed.

Lemma removeExpiredPendingEvidence_exact (L : KeyLayout) (p : Pool) :
  dbKeyLayout p = Some L -> db.reliable (evidenceStore p) ->
  let items := prefixEntries (PrefixToBytesPending L) (entries (evidenceStore p)) in
  wp removeExpiredPendingEvidence p
    (fun r p' => same_frame p p' /\
       r = nextPruning p (expiredBefore p items).2 /\
       entries (evidenceStore p')
         = deleteAll L (expiredBefore p items).1 (entries (evidenceStore p)) /\
       writes (evidenceStore p')
         = writes (evidenceStore p)
           ++ map (fun ev => WDelete (CalcKeyPending L ev)) (expiredBefore p items).1 /\
       evidenceList p' = withoutHashes (hashSet (expiredBefore p items).1) (evidenceList p)).
Proof.
  intros HL HR items. unfold removeExpiredPendingEvidence.
  apply wp_bind, (wp_layout _ L); [done|]. apply wp_bind, wp_store. intros r d E.
  destruct (db_read_cases (fun d => prefixEntries (PrefixToBytesPending L) (entries d))
              (evidenceStore p)) as (r' & d' & E' & (He0 & Hw0 & Hf0) & _ & Hr).
  unfold db.IteratePrefix in E. rewrite E' in E. injection E as <- <-.
  rewrite (Hr HR). simpl. fold items.
  assert (Hf : same_frame p (set_evidenceStore d' p)) by (by repeat split).
  eapply wp_mono; [apply (removeExpiredPendingEvidence_loop_exact L items ∅); [done|]|].
  { simpl. intros n. by rewrite Hf0. }
  simpl. intros r p' (Hf' & Hr' & He & Hw & Hl).
  rewrite (expiredBefore_state p (set_evidenceStore d' p)) in * by done.
  rewrite (nextPruning_state p (set_evidenceStore d' p)) in Hr' by done.
  split; [by eapply same_frame_trans|]. split; [done|].
  split; [by rewrite He, He0|]. split; [by rewrite Hw, Hw0|].
  by rewrite Hl, union_empty_r_L.
Qed.


Lemma lookup_deleteAll (L : KeyLayout) (l : list Evidence) :
  forall (m : gmap string string) (k : string),
    deleteAll L l m !! k
      = if bool_decide (k ∈ map (CalcKeyPending L) l) then None else m !! k.
Proof.
  induction l as [|ev l IH]; intros m k; simpl.
  { done. }
  unfold deleteAll in *. simpl. rewrite IH.
  destruct (decide (k ∈ map (CalcKeyPending L) l)) as [Hin|Hnin].
  - rewrite !bool_decide_eq_true_2; [done| |done]. by right.
  - rewrite (bool_decide_eq_false_2 _ Hnin).
    destruct (decide (k = CalcKeyPending L ev)) as [->|Hne].
    + rewrite bool_decide_eq_true_2 by (by left). apply lookup_delete_eq.
    + rewrite bool_decide_eq_false_2.
      * by apply lookup_delete_ne.
      * intros [?|?]%elem_of_cons; done.
Qed.

(** C4. On a store that does not fail, the pruning scan walks the pending
    entries in key order, passing over entries that do not decode.  The
    decoded entries start with the expired evidence [expired], each piece
    expired, followed by the first evidence [first] that is not expired, if
    any.  With such a [first] the scan returns its height plus
    [MaxAgeNumBlocks] plus one and its time plus [MaxAgeDuration] plus one
    second; without, it returns the height and time of the state.  It
    deletes from the store exactly the pending keys of [expired], and from
    the list exactly the evidence with the hash of a piece of [expired]. *)
Theorem removeExpiredPendingEvidence_prunes_until_first_live (p : Pool) (L : KeyLayout) :
  dbKeyLayout p = Some L -> db.reliable (evidenceStore p) ->
  exists expired first rest p',
    omap decoded (prefixEntries (PrefixToBytesPending L) (entries (evidenceStore p)))
      = expired ++ from_option (fun ev => ev :: rest) [] first /\
    Forall (fun ev => isExpired p (Height ev) (Time ev) = true) expired /\
    (forall ev, first = Some ev -> isExpired p (Height ev) (Time ev) = false) /\
    removeExpiredPendingEvidence p
      = Ok (match first with
            | Some ev =>
                (int64.add (int64.add (Height ev)
                              (MaxAgeNumBlocks (ConsensusParams_Evidence (State p)))) 1,
                 time.Add (time.Add (Time ev)
                              (MaxAgeDuration (ConsensusParams_Evidence (State p)))) time.Second)
            | None => (LastBlockHeight (State p), LastBlockTime (State p))
            end) p' /\
    (forall k, entries (evidenceStore p') !! k
               = if bool_decide (k ∈ map (CalcKeyPending L) expired) then None
                 else entries (evidenceStore p) !! k) /\
    writes (evidenceStore p')
      = writes (evidenceStore p) ++ map (fun ev => WDelete (CalcKeyPending L ev)) expired /\
    evidenceList p' = withoutHashes (hashSet expired) (evidenceList p).
Proof.
  intros HL HR.
  destruct (wp_elim _ _ _ (removeExpiredPendingEvidence_exact L p HL HR))
    as (r & p' & E & _ & Hr & He & Hw & Hl).
  set (items := prefixEntries (PrefixToBytesPending L) (entries (evidenceStore p))) in *.
  destruct (expiredBefore p items) as [expired first] eqn:Ex. simpl in *.
  destruct (expiredBefore_spec p items expired first Ex) as (H1 & H2 & _ & rest & H4).
  exists expired, first, rest, p'. split; [done|]. split; [done|]. split; [done|].
  split; [by rewrite E, Hr; destruct first|].
  split; [intros k; rewrite He; apply lookup_deleteAll|]. done.
Qed.


(** ** Iteration order *)

Lemma StronglySorted_filter {A : Type} (R : relation A) (f : A -> bool) (l : list A) :
  StronglySorted R l -> StronglySorted R (List.filter f l).
Proof.
  induction 1 as [|x l Hl IH Hx]; simpl; [constructor|].
  destruct (f x); [|done]. constructor; [done|].
  rewrite Forall_forall in *. intros y Hy. apply Hx.
  apply list_elem_of_In in Hy. apply filter_In in Hy as [Hy _]. by apply list_elem_of_In.
Qed.

Lemma prefixEntries_sorted (prefix : bytes) (m : gmap string string) :
  StronglySorted key_le (prefixEntries prefix m).
Proof. apply StronglySorted_filter, StronglySorted_merge_sort; apply _. Qed.

Lemma elem_of_prefixEntries (prefix : bytes) (m : gmap string string) (k v : bytes) :
  (k, v) ∈ prefixEntries prefix m <-> m !! k = Some v /\ HasPrefix k prefix = true.
Proof.
  unfold prefixEntries, sortedEntries.
  rewrite list_elem_of_In, filter_In, <- list_elem_of_In, merge_sort_Permutation.
  by rewrite elem_of_map_to_list.
Qed.

(** C9 (amended). For heights that are not negative, the v1 pending key of
    evidence at a lower height is strictly below the pending key of evidence
    at a higher height, whatever the hashes; at equal heights the keys are
    ordered as the hexadecimal forms of the hashes are.  So a key that is not
    above another never belongs to a greater height, and iterating the
    pending prefix in key order yields evidence in non-decreasing height
    order. *)
Theorem v1_pending_key_order_follows_height :
  (forall ev1 ev2 : Evidence,
     0 <= Height ev1 -> Height ev1 < Height ev2 -> Height ev2 <= int64.max ->
     bytes_lt (CalcKeyPending v1LegacyLayout ev1) (CalcKeyPending v1LegacyLayout ev2)) /\
  (forall ev1 ev2 : Evidence,
     Height ev1 = Height ev2 ->
     String.compare (CalcKeyPending v1LegacyLayout ev1) (CalcKeyPending v1LegacyLayout ev2)
       = String.compare (hexBytes (Hash ev1)) (hexBytes (Hash ev2))) /\
  (forall ev1 ev2 : Evidence,
     0 <= Height ev1 <= int64.max -> 0 <= Height ev2 <= int64.max ->
     bytes_le (CalcKeyPending v1LegacyLayout ev1) (CalcKeyPending v1LegacyLayout ev2) ->
     Height ev1 <= Height ev2) /\
  (forall (m : gmap string string) (evs : list Evidence),
     Forall2 (fun kv ev => kv.1 = CalcKeyPending v1LegacyLayout ev /\
                           0 <= Height ev <= int64.max)
       (prefixEntries (PrefixToBytesPending v1LegacyLayout) m) evs ->
     StronglySorted Z.le (map Height evs)).
Proof.
  split; [|split; [|split]].
  - intros ev1 ev2 H1 H12 H2. rewrite !v1_CalcKeyPending. by apply v1PendingKey_lt.
  - intros ev1 ev2 Hh. rewrite !v1_CalcKeyPending. unfold v1PendingKey.
    rewrite Hh, string_compare_cons_same, string_compare_app_same.
    apply (string_compare_cons_same "/").
  - intros ev1 ev2 H1 H2. rewrite !v1_CalcKeyPending. by apply v1PendingKey_le_height.
  - intros m evs. generalize (prefixEntries_sorted (PrefixToBytesPending v1LegacyLayout) m).
    generalize (prefixEntries (PrefixToBytesPending v1LegacyLayout) m). intros items Hs H.
    induction H as [|kv ev items evs [Hk Hh] Hrest IH]; simpl; [constructor|].
    apply StronglySorted_inv in Hs as [Hs Hall]. constructor; [by apply IH|].
    clear IH Hs. induction Hrest as [|kv' ev' items evs [Hk' Hh'] Hrest IH]; simpl; [done|].
    apply Forall_cons in Hall as [Hle Hall]. constructor; [|by apply IH].
    apply (v1PendingKey_le_height _ _ (Hash ev) (Hash ev')); [done|done|].
    rewrite <- !v1_CalcKeyPending, <- Hk, <- Hk'. by apply string_leb_le.
Qed.


(** ** CheckEvidence *)


Lemma existsb_eqb_elem_of (h : string) (hashes : list string) :
  existsb (String.eqb h) hashes = true <-> h ∈ hashes.
Proof.
  rewrite existsb_exists, list_elem_of_In. split.
  - intros (x & Hin & ->%String.eqb_eq). done.
  - intros Hin. exists h. split; [done|apply String.eqb_refl].
Qed.

Lemma verifyAndAdd_spec (ev : Evidence) (p : Pool) (L : KeyLayout) :
  dbKeyLayout p = Some L ->
  wp (verifyAndAdd verify ev) p
    (fun r p' => same_frame p p' /\ evidenceList p' = evidenceList p /\
       ((same_store (evidenceStore p) (evidenceStore p') /\
         evidenceSize p' = evidenceSize p) \/
        (r = None /\ added L ev p p')) /\
       (verify (State p) (stateDB p) (blockStore p) ev = None ->
        entries (evidenceStore p) !! CalcKeyCommitted L ev = None -> r = None) /\
       (db.reliable (evidenceStore p) -> IsLightClientAttackEvidence ev = false ->
        is_Some (entries (evidenceStore p) !! CalcKeyPending L ev) ->
        r = None /\ same_store (evidenceStore p) (evidenceStore p'))).
Proof.
  intros HL. unfold verifyAndAdd. apply wp_bind.
  set (post := fun (recheck : bool) (p1 : Pool) =>
    quiet p p1 /\
    (db.reliable (evidenceStore p) -> IsLightClientAttackEvidence ev = false ->
     is_Some (entries (evidenceStore p) !! CalcKeyPending L ev) -> recheck = false)).
  apply (wp_mono _ _ post).
  { unfold post. destruct (IsLightClientAttackEvidence ev).
    - apply wp_ret. split; [apply quiet_refl|done].
    - apply wp_bind. eapply wp_mono; [by apply (isPending_spec ev p L)|].
      simpl. intros b p1 (Hq & _ & _ & _ & Hb). apply wp_ret. split; [done|].
      intros HR _ Hp. rewrite (Hb HR). by rewrite bool_decide_eq_true_2. }
  unfold post. intros recheck p1 [Hq1 Hre].
  assert (HL1 : dbKeyLayout p1 = Some L) by (eapply frame_layout; [by apply quiet_frame|done]).
  destruct recheck.
  2:{ apply wp_ret. destruct Hq1 as (Hs & Hl & Hz & Hf).
      split; [done|]. split; [done|]. split; [by left|]. split; [done|]. done. }
  apply wp_bind. eapply wp_mono; [by apply (isCommitted_spec ev p1 L)|].
  simpl. intros committed p2 (Hq2 & _ & _ & Hc & _).
  assert (Hqp2 : quiet p p2) by (by eapply quiet_trans).
  assert (HL2 : dbKeyLayout p2 = Some L) by (eapply frame_layout; [by apply quiet_frame|done]).
  assert (He1 : entries (evidenceStore p1) = entries (evidenceStore p)) by apply Hq1.
  destruct committed.
  { apply wp_ret. destruct Hqp2 as (Hs & Hl & Hz & Hf).
    split; [done|]. split; [done|]. split; [by left|]. split.
    - intros _ Hnc. specialize (Hc eq_refl). rewrite He1, Hnc in Hc. by destruct Hc.
    - intros HR Hl' Hp. by specialize (Hre HR Hl' Hp). }
  apply wp_bind, wp_get.
  pose proof Hqp2 as (Hs2 & Hl2 & Hz2 & Hf2).
  pose proof Hf2 as (_ & Hsd & Hbs & Hstt & _). unfold State.
  rewrite Hstt, Hsd, Hbs.
  destruct (verify (state p) (stateDB p) (blockStore p) ev) as [e|] eqn:Ev.
  { apply wp_ret. split; [done|]. split; [done|]. split; [by left|]. split; [done|].
    intros HR Hl' Hp. by specialize (Hre HR Hl' Hp). }
  apply wp_bind. eapply wp_mono; [by apply (addPendingEvidence_spec ev p2 L)|].
  simpl. intros [e|] p3 (Hf3 & Hl3 & Hlg3 & H3).
  - destruct H3 as (Hs3 & Hz3 & _).
    apply wp_bind, wp_log. intros l1. apply wp_bind, wp_log. intros l2. apply wp_ret. simpl.
    split.
    { eapply same_frame_trans; [done|]. destruct Hf3 as (?&?&?&?&?&?&?&?). by repeat split. }
    split; [congruence|]. split; [left; split; [by eapply same_store_trans|congruence]|].
    split; [done|]. intros HR Hl' Hp. by specialize (Hre HR Hl' Hp).
  - destruct H3 as (evpb & evBytes & E1 & E2 & He & Hw & Hz).
    destruct Hs2 as (He2 & Hw2 & _).
    apply wp_bind, wp_ret, wp_bind, wp_log. intros l2. apply wp_ret. simpl.
    split.
    { eapply same_frame_trans; [done|]. destruct Hf3 as (?&?&?&?&?&?&?&?). by repeat split. }
    split; [congruence|]. split.
    { right. split; [done|]. exists evpb, evBytes. repeat split; try done; simpl.
      - by rewrite He, He2.
      - by rewrite Hw, Hw2.
      - by rewrite Hz, Hz2. }
    split; [done|]. intros HR Hl' Hp. by specialize (Hre HR Hl' Hp).
Qed.


Lemma pendingSets_mono (L : KeyLayout) (evs evs' : list Evidence) (ws : list WriteOp) :
  (forall ev, ev ∈ evs -> ev ∈ evs') -> pendingSets L evs ws -> pendingSets L evs' ws.
Proof.
  intros Hsub H. unfold pendingSets in *. eapply Forall_impl; [exact H|].
  simpl. intros w (ev & value & Hin & ->). eauto.
Qed.

Lemma writes_extended (ws : list WriteOp) (w : WriteOp) : ws ++ [w] <> ws.
Proof.
  intros H. apply (f_equal length) in H. rewrite length_app in H. simpl in H. lia.
Qed.

(** One step of [CheckEvidence], in the terms of the loop: the writes it
    made, and whether it returned. *)
Lemma verifyAndAdd_step (ev : Evidence) (p : Pool) (L : KeyLayout) :
  dbKeyLayout p = Some L ->
  wp (verifyAndAdd verify ev) p
    (fun r p' => same_frame p p' /\ evidenceList p' = evidenceList p /\
       (exists ws, writes (evidenceStore p') = writes (evidenceStore p) ++ ws /\
          pendingSets L [ev] ws /\
          (r <> None -> ws = [] /\ entries (evidenceStore p') = entries (evidenceStore p)) /\
          (forall k, k <> CalcKeyPending L ev ->
             entries (evidenceStore p') !! k = entries (evidenceStore p) !! k) /\
          (db.reliable (evidenceStore p) -> allPending L p [ev] ->
             ws = [] /\ entries (evidenceStore p') = entries (evidenceStore p))) /\
       (acceptable verify L p [ev] -> r = None) /\
       (db.reliable (evidenceStore p) -> allPending L p [ev] -> r = None)).
Proof.
  intros HL. eapply wp_mono; [by apply (verifyAndAdd_spec ev p L)|].
  simpl. intros r p' (Hf & Hl & Hw & Hacc & Hpend).
  split; [done|]. split; [done|].
  assert (Hin : ev ∈ [ev]) by (by left).
  split; [|split].
  - destruct Hw as [[(He & Hw & _) _]|[-> (evpb & evBytes & _ & _ & He & Hw & _)]].
    + exists []. rewrite app_nil_r. split; [done|]. split; [constructor|].
      split; [done|]. split; [by intros; rewrite He|done].
    + exists [WSet (CalcKeyPending L ev) evBytes]. split; [done|].
      split; [constructor; [eauto|constructor]|]. split; [done|]. split.
      * intros k Hk. rewrite He. by apply lookup_insert_ne.
      * intros HR Hall. destruct (Hall ev Hin) as [Hlight Hp].
        destruct (Hpend HR Hlight Hp) as (_ & _ & Hw' & _).
        rewrite Hw' in Hw. symmetry in Hw. by apply writes_extended in Hw.
  - intros Ha. destruct (Ha ev Hin) as (Hv & Hc & _). by apply Hacc.
  - intros HR Hall. destruct (Hall ev Hin) as [Hlight Hp]. by apply Hpend.
Qed.

Lemma CheckEvidence_loop_spec (L : KeyLayout) (ev : Evidence) (l1 : list Evidence) :
  forall (hashes : list bytes) (p : Pool),
    dbKeyLayout p = Some L ->
    NoDup (hashes ++ map Hash l1) -> Hash ev ∈ hashes ++ map Hash l1 ->
    wp (CheckEvidence_loop verify (l1 ++ [ev]) hashes) p
      (fun r p' => same_frame p p' /\ evidenceList p' = evidenceList p /\
         (exists ws, writes (evidenceStore p') = writes (evidenceStore p) ++ ws /\
            pendingSets L (l1 ++ [ev]) ws /\
            (db.reliable (evidenceStore p) -> allPending L p (l1 ++ [ev]) -> ws = [])) /\
         r <> None /\
         (acceptable verify L p (l1 ++ [ev]) ->
          r = Some (ErrInvalidEvidence ev ErrDuplicateEvidence)) /\
         (db.reliable (evidenceStore p) -> allPending L p (l1 ++ [ev]) ->
          r = Some (ErrInvalidEvidence ev ErrDuplicateEvidence))).
Proof.
  induction l1 as [|e rest IH]; intros hashes p HL Hnd Hin; simpl.
  - rewrite app_nil_r in Hin. apply wp_bind.
    eapply wp_mono; [by apply (verifyAndAdd_step ev p L)|].
    simpl. intros r0 p1 (Hf & Hl & (ws & Hw & Hps & Hsome & _ & Hquiet) & Hacc & Hpend).
    destruct r0 as [e0|].
    + apply wp_ret. split; [done|]. split; [done|]. split.
      { exists ws. split; [done|]. split; [done|]. intros _ _. by apply Hsome. }
      split; [done|]. split; [intros Ha; by specialize (Hacc Ha)|].
      intros HR Ha. by specialize (Hpend HR Ha).
    + rewrite (proj2 (existsb_eqb_elem_of _ _) Hin). apply wp_ret.
      split; [done|]. split; [done|]. split; [|done].
      exists ws. split; [done|]. split; [done|]. intros HR Ha. by apply Hquiet.
  - apply wp_bind. eapply wp_mono; [by apply (verifyAndAdd_step e p L)|].
    simpl. intros r0 p1 (Hf & Hl & (ws & Hw & Hps & Hsome & Hother & Hquiet) & Hacc & Hpend).
    assert (Hsub : forall x, x ∈ [e] -> x ∈ e :: rest ++ [ev]).
    { intros x ->%list_elem_of_singleton. by left. }
    assert (Hacc1 : acceptable verify L p (e :: rest ++ [ev]) -> acceptable verify L p [e]).
    { intros Ha x ->%list_elem_of_singleton. destruct (Ha e ltac:(by left)) as (?&?&Hd).
      split; [done|]. split; [done|]. intros x' ->%list_elem_of_singleton. apply Hd. by left. }
    assert (Hpend1 : allPending L p (e :: rest ++ [ev]) -> allPending L p [e]).
    { intros Ha x ->%list_elem_of_singleton. apply Ha. by left. }
    destruct r0 as [e0|].
    + apply wp_ret. split; [done|]. split; [done|]. split.
      { exists ws. split; [done|]. split; [by apply (pendingSets_mono L [e])|].
        intros _ _. by apply Hsome. }
      split; [done|]. split; [intros Ha; by specialize (Hacc (Hacc1 Ha))|].
      intros HR Ha. by specialize (Hpend HR (Hpend1 Ha)).
    + assert (Hfresh : Hash e ∉ hashes).
      { apply NoDup_app in Hnd as (_ & Hdis & _). intros Hh. apply (Hdis _ Hh). by left. }
      destruct (existsb (String.eqb (Hash e)) hashes) eqn:Ex.
      { by apply existsb_eqb_elem_of in Ex. }
      eapply wp_mono.
      { apply (IH (hashes ++ [Hash e]) p1); [by eapply frame_layout| |].
        - by rewrite <- app_assoc.
        - by rewrite <- app_assoc. }
      simpl. intros r p' (Hf' & Hl' & (ws' & Hw' & Hps' & Hquiet') & Hne & Hacc' & Hpend').
      assert (Hsub' : forall x, x ∈ rest ++ [ev] -> x ∈ e :: rest ++ [ev]) by (by right).
      assert (Hall1 : db.reliable (evidenceStore p) -> allPending L p (e :: rest ++ [ev]) ->
                db.reliable (evidenceStore p1) /\ allPending L p1 (rest ++ [ev])).
      { intros HR Ha. split; [by eapply frame_reliable|].
        destruct (Hquiet HR (Hpend1 Ha)) as [_ He]. intros x Hx. rewrite He. apply Ha. by right. }
      split; [by eapply same_frame_trans|]. split; [congruence|]. split; [|split; [done|split]].
      * exists (ws ++ ws'). split; [by rewrite Hw', Hw, app_assoc|]. split.
        { apply Forall_app. split.
          - by apply (pendingSets_mono L [e]).
          - by apply (pendingSets_mono L (rest ++ [ev])). }
        intros HR Ha. destruct (Hall1 HR Ha) as [HR1 Ha1].
        destruct (Hquiet HR (Hpend1 Ha)) as [-> _]. by rewrite (Hquiet' HR1 Ha1).
      * intros Ha. apply Hacc'. intros x Hx.
        destruct (Ha x (Hsub' x Hx)) as (Hv & Hc & Hd).
        destruct Hf as (_ & Hsd & Hbs & Hst & _). unfold State. rewrite Hst, Hsd, Hbs.
        split; [done|]. split.
        { rewrite Hother; [done|]. apply Hd. by left. }
        intros x' Hx'. apply Hd. by right.
      * intros HR Ha. destruct (Hall1 HR Ha) as [HR1 Ha1]. by apply Hpend'.
Qed.

Lemma CheckEvidence_loop_cut (ev : Evidence) (l1 l2 : list Evidence) :
  forall (hashes : list bytes) (p : Pool),
    Hash ev ∈ hashes ++ map Hash l1 ->
    CheckEvidence_loop verify (l1 ++ ev :: l2) hashes p
      = CheckEvidence_loop verify (l1 ++ [ev]) hashes p.
Proof.
  induction l1 as [|e rest IH]; intros hashes p Hin; simpl.
  - rewrite app_nil_r in Hin. unfold bind. destruct (verifyAndAdd verify ev p) as [[e0|] p1|]; [done| |done].
    by rewrite (proj2 (existsb_eqb_elem_of _ _) Hin).
  - unfold bind. destruct (verifyAndAdd verify e p) as [[e0|] p1|]; [done| |done].
    destruct (existsb (String.eqb (Hash e)) hashes); [done|].
    apply IH. by rewrite <- app_assoc.
Qed.

Lemma first_repeat (l : list Evidence) :
  ~ NoDup (map Hash l) ->
  exists l1 ev l2, l = l1 ++ ev :: l2 /\ NoDup (map Hash l1) /\ Hash ev ∈ map Hash l1.
Proof.
  induction l as [|x l IH] using rev_ind; intros Hnd.
  { exfalso. apply Hnd. constructor. }
  destruct (decide (NoDup (map Hash l))) as [Hl|Hl].
  - exists l, x, []. split; [done|]. split; [done|].
    destruct (decide (Hash x ∈ map Hash l)) as [|Hnin]; [done|].
    exfalso. apply Hnd. rewrite map_app. simpl. apply NoDup_app. split; [done|].
    split; [|apply NoDup_singleton]. intros h Hh ->%list_elem_of_singleton. done.
  - destruct (IH Hl) as (l1 & ev & l2 & -> & H1 & H2).
    exists l1, ev, (l2 ++ [x]). split; [by rewrite <- app_assoc|done].
Qed.

(** C8 (amended). For a list in which the hash of some element equals the
    hash of an earlier element, [CheckEvidence] returns an error.  With [ev]
    the first such element: when no element up to [ev] is rejected by the
    verifier or committed, the error is the duplicate evidence error for [ev].
    The writes of the call set pending keys of elements up to [ev] (evidence
    that was not pending, and light client attack evidence, is verified and
    written before the duplicate is found); on a store that does not fail
    there is no write when all elements up to [ev] are pending duplicate vote
    evidence, and the call then returns the duplicate evidence error. *)
Theorem CheckEvidence_repeated_hash (evList : list Evidence) (p : Pool) (L : KeyLayout) :
  dbKeyLayout p = Some L ->
  (exists (i j : nat) e1 e2, (i < j)%nat /\ evList !! i = Some e1 /\ evList !! j = Some e2 /\
     Hash e1 = Hash e2) ->
  exists l1 ev l2 r p' ws,
    evList = l1 ++ ev :: l2 /\ NoDup (map Hash l1) /\ Hash ev ∈ map Hash l1 /\
    CheckEvidence verify evList p = Ok r p' /\ r <> None /\
    writes (evidenceStore p') = writes (evidenceStore p) ++ ws /\
    pendingSets L (l1 ++ [ev]) ws /\
    (acceptable verify L p (l1 ++ [ev]) ->
     r = Some (ErrInvalidEvidence ev ErrDuplicateEvidence)) /\
    (db.reliable (evidenceStore p) -> allPending L p (l1 ++ [ev]) ->
     r = Some (ErrInvalidEvidence ev ErrDuplicateEvidence) /\ ws = []).
Proof.
  intros HL (i & j & e1 & e2 & Hij & Hi & Hj & Hh).
  assert (Hnd : ~ NoDup (map Hash evList)).
  { intros Hnd. rewrite NoDup_alt in Hnd.
    assert (i = j); [|lia].
    apply (Hnd i j (Hash e1)); rewrite list_lookup_fmap.
    - by rewrite Hi.
    - by rewrite Hj, Hh. }
  destruct (first_repeat evList Hnd) as (l1 & ev & l2 & -> & H1 & H2).
  destruct (wp_elim _ _ _ (CheckEvidence_loop_spec L ev l1 [] p HL H1 H2))
    as (r & p' & E & _ & _ & (ws & Hw & Hps & Hq) & Hne & Hacc & Hpend).
  exists l1, ev, l2, r, p', ws. split; [done|]. split; [done|]. split; [done|].
  split; [unfold CheckEvidence; by rewrite CheckEvidence_loop_cut|].
  split; [done|]. split; [done|]. split; [done|]. split; [done|]. auto.
Qed.


(** ** Opening the pool *)


(** Without a limit, listing stops with an error at the first entry that does
    not decode. *)
Lemma listEvidence_loop_undecodable (items : list (bytes * bytes)) :
  forall totalSize evidence evList p,
    (exists kv, kv ∈ items /\ decoded kv = None) ->
    wp (listEvidence_loop items (-1) totalSize evidence evList) p
      (fun r p' => quiet p p' /\ exists e, r.2 = Some e).
Proof.
  induction items as [|[key value] rest IH]; intros totalSize evidence evList p (kv & Hin & Hbad).
  { by apply elem_of_nil in Hin. }
  simpl. unfold decoded, bytesToEv in Hbad.
  destruct (external (Unmarshal value)) as [evpb|e] eqn:Eu.
  2:{ apply wp_ret. split; [apply quiet_refl|eauto]. }
  simpl. destruct (external (EvidenceFromProto evpb)) as [ev|e] eqn:Ef.
  2:{ apply wp_ret. split; [apply quiet_refl|eauto]. }
  apply IH. exists kv. split; [|done].
  apply elem_of_cons in Hin as [->|Hin]; [|done].
  simpl in Hbad. by rewrite Eu, Ef in Hbad.
Qed.

Lemma listEvidence_undecodable (prefixKey key value : bytes) (p : Pool) :
  entries (evidenceStore p) !! key = Some value -> HasPrefix key prefixKey = true ->
  decoded (key, value) = None ->
  wp (listEvidence prefixKey (-1)) p (fun r p' => quiet p p' /\ exists e, r.2 = Some e).
Proof.
  intros Hk Hp Hbad. unfold listEvidence. apply wp_bind, wp_store. intros r d E.
  destruct (db_read_cases (fun d => prefixEntries prefixKey (entries d)) (evidenceStore p))
    as (r' & d' & E' & Hs & Hc & _).
  unfold db.IteratePrefix in E. rewrite E' in E. injection E as <- <-.
  destruct Hc as [->| ->].
  - apply wp_ret. split; [by apply quiet_set_store|eauto].
  - eapply wp_mono.
    { apply listEvidence_loop_undecodable. exists (key, value). split; [|done].
      simpl. by apply elem_of_prefixEntries. }
    simpl. intros r p' [Hq He]. split; [|done].
    eapply quiet_trans; [by apply quiet_set_store|done].
Qed.

(** An entry that does not decode survives the pruning scan of a store whose
    decodable pending entries have their own keys. *)
Lemma undecodable_survives_pruning (L : KeyLayout) (p : Pool) (key value : bytes) :
  dbKeyLayout p = Some L -> db.reliable (evidenceStore p) ->
  canonical L (entries (evidenceStore p)) ->
  entries (evidenceStore p) !! key = Some value ->
  decoded (key, value) = None ->
  wp removeExpiredPendingEvidence p
    (fun _ p' => same_frame p p' /\ entries (evidenceStore p') !! key = Some value).
Proof.
  intros HL HR Hcan Hk Hbad.
  eapply wp_mono; [by apply (removeExpiredPendingEvidence_exact L p)|].
  simpl. intros r p' (Hf & _ & He & _). split; [done|].
  rewrite He, lookup_deleteAll.
  set (items := prefixEntries (PrefixToBytesPending L) (entries (evidenceStore p))) in *.
  destruct (expiredBefore p items) as [expired first] eqn:Ex. simpl.
  destruct (expiredBefore_spec p items expired first Ex) as (_ & _ & Hfrom & _).
  rewrite bool_decide_eq_false_2; [done|].
  intros Hin. apply list_elem_of_fmap in Hin as (ev & Hkey & Hev).
  destruct (Hfrom ev Hev) as ([k' v'] & Hin' & Hd).
  apply elem_of_prefixEntries in Hin' as [Hk' Hp'].
  assert (k' = CalcKeyPending L ev).
  { apply (Hcan k' v'); [done|done|]. unfold decoded in Hd. simpl in Hd.
    by destruct (bytesToEv v') as [ev'|]; [injection Hd as ->|]. }
  subst k' key. rewrite Hk in Hk'. injection Hk' as <-. congruence.
Qed.


Lemma canonical_insert_version (L : KeyLayout) (m : gmap string string) (version : string) :
  HasPrefix "version" (PrefixToBytesPending L) = false ->
  canonical L m -> canonical L (<["version" := version]> m).
Proof.
  intros Hv Hcan key value ev Hk Hp Hd.
  destruct (decide (key = "version")) as [->|Hne]; [congruence|].
  rewrite lookup_insert_ne in Hk by done. by apply (Hcan key value).
Qed.

(** Opening a pool over a store with a pending entry that does not decode. *)
Lemma NewPool_undecodable (evidenceDB : DB) (stateDB : sm_Store) (blockStore : BlockStore)
    (state : sm_State) (L : KeyLayout) (version key value : bytes) :
  Load stateDB = inl state ->
  db.reliable evidenceDB ->
  layoutOf (selectedVersion "v1" evidenceDB) = Some (L, version) ->
  HasPrefix "version" (PrefixToBytesPending L) = false ->
  canonical L (entries evidenceDB) ->
  entries evidenceDB !! key = Some value ->
  HasPrefix key (PrefixToBytesPending L) = true ->
  decoded (key, value) = None ->
  exists e evidenceDB',
    NewPool evidenceDB stateDB blockStore [] = NewPoolErr e evidenceDB' /\
    entries evidenceDB' !! key = Some value.
Proof.
  intros HLoad HR Hlay Hver Hcan Hk Hp Hbad.
  assert (Hne : key <> "version") by (intros ->; congruence).
  unfold NewPool. rewrite HLoad.
  set (pool := mkPool NopLogger evidenceDB [] 0 stateDB blockStore state [] 0 time.zero None).
  lazy zeta.
  match goal with
  | |- context [match ?c pool with Ok _ _ => _ | Panic _ _ => _ end] =>
      assert (W : wp c pool (fun r p' =>
                    (exists e, r = Some e) /\ entries (evidenceStore p') !! key = Some value))
  end.
  { simpl forEach. apply wp_bind, wp_ret, wp_bind, wp_get. simpl dbKeyLayout.
    apply wp_bind.
    pose proof (setDBLayout_spec "v1" pool HR) as Hset. simpl evidenceStore in Hset.
    rewrite Hlay in Hset. destruct Hset as (p1 & E1 & HL1 & He1 & _ & Hf1 & _).
    eapply wp_intro; [exact E1|].
    assert (HR1 : db.reliable (evidenceStore p1)) by (by eapply (frame_reliable _ _ Hf1)).
    assert (Hk1 : entries (evidenceStore p1) !! key = Some value).
    { rewrite He1. simpl. by rewrite lookup_insert_ne. }
    assert (Hcan1 : canonical L (entries (evidenceStore p1))).
    { rewrite He1. by apply canonical_insert_version. }
    apply wp_bind.
    eapply wp_mono; [by apply (undecodable_survives_pruning L p1 key value)|].
    simpl. intros [h t] p2 [Hf2 Hk2]. apply wp_bind, wp_modify.
    apply wp_bind, (wp_layout _ L); [simpl; by eapply frame_layout|].
    apply wp_bind.
    eapply wp_mono; [by apply (listEvidence_undecodable _ key value)|].
    simpl. intros [[evList size] r] p3 [Hq3 [e He]]. simpl in He. subst r.
    apply wp_ret. split; [eauto|]. destruct Hq3 as ((He3 & _) & _). by rewrite He3. }
  destruct (wp_elim _ _ _ W) as (r & p' & E & [e ->] & He). rewrite E. eauto.
Qed.

(** C7 (amended). When the pool is opened (without options, on a store that
    does not fail and whose decodable pending entries have their own keys)
    over a store with a pending entry that fails deserialization, the pruning
    scan passes over the entry and leaves it in place, but the listing that
    follows returns the deserialization error: [NewPool] returns that error
    and no pool.  The entry is still in the store. *)
Theorem NewPool_fails_on_undecodable_entry
    (evidenceDB : DB) (stateDB : sm_Store) (blockStore : BlockStore)
    (state : sm_State) (L : KeyLayout) (version key value : bytes) (e : error) :
  Load stateDB = inl state ->
  db.reliable evidenceDB ->
  layoutOf (selectedVersion "v1" evidenceDB) = Some (L, version) ->
  HasPrefix "version" (PrefixToBytesPending L) = false ->
  canonical L (entries evidenceDB) ->
  entries evidenceDB !! key = Some value ->
  HasPrefix key (PrefixToBytesPending L) = true ->
  bytesToEv value = inr e ->
  exists e' evidenceDB',
    NewPool evidenceDB stateDB blockStore [] = NewPoolErr e' evidenceDB' /\
    entries evidenceDB' !! key = Some value.
Proof.
  intros HLoad HR Hlay Hver Hcan Hk Hp Hbad.
  apply (NewPool_undecodable evidenceDB stateDB blockStore state L version key value);
    try done.
  unfold decoded. simpl. by rewrite Hbad.
Qed.

(** ** More on the legacy keys *)

Lemma string_app_inv_length (a : string) :
  forall a' b b', String.length a = String.length a' ->
    (a ++ b)%string = (a' ++ b')%string -> a = a' /\ b = b'.
Proof.
  induction a as [|c a IH]; intros [|c' a'] b b'; simpl; try done.
  intros [= Hlen] [= -> H]. destruct (IH a' b b' Hlen H) as [-> ->]. done.
Qed.

Lemma hexFixed_inj (k : nat) (a b : Z) :
  0 <= a < 16 ^ Z.of_nat k -> 0 <= b < 16 ^ Z.of_nat k ->
  hexFixed k a = hexFixed k b -> a = b.
Proof.
  intros Ha Hb H. destruct (Z.lt_total a b) as [Hlt|[Heq|Hgt]]; [|done|].
  - pose proof (hexFixed_lt k a b) as Hc. rewrite !Z.mod_small in Hc by lia.
    rewrite H, string_compare_refl in Hc. by specialize (Hc Hlt).
  - pose proof (hexFixed_lt k b a) as Hc. rewrite !Z.mod_small in Hc by lia.
    rewrite H, string_compare_refl in Hc. by specialize (Hc Hgt).
Qed.

Lemma upperhex_inj (a b : N) : (a < 16)%N -> (b < 16)%N -> upperhex a = upperhex b -> a = b.
Proof.
  intros Ha Hb H. destruct (N.lt_total a b) as [Hlt|[Heq|Hgt]]; [|done|].
  - pose proof (upperhex_lt a b Hlt Hb) as Hc. by rewrite H, ascii_compare_refl in Hc.
  - pose proof (upperhex_lt b a Hgt Ha) as Hc. by rewrite H, ascii_compare_refl in Hc.
Qed.

Lemma hexBytes_inj (a : bytes) : forall b, hexBytes a = hexBytes b -> a = b.
Proof.
  induction a as [|c a IH]; intros [|d b]; simpl; try done.
  intros [= Hhi Hlo H]. rewrite (IH b H). f_equal.
  pose proof (N_ascii_bounded c) as Hc. pose proof (N_ascii_bounded d) as Hd.
  apply upperhex_inj in Hhi;
    [|apply N.Div0.div_lt_upper_bound; lia|apply N.Div0.div_lt_upper_bound; lia].
  apply upperhex_inj in Hlo; [|apply N.mod_lt; lia|apply N.mod_lt; lia].
  rewrite <- (ascii_N_embedding c), <- (ascii_N_embedding d). f_equal.
  rewrite (N.div_mod (N_of_ascii c) 16), (N.div_mod (N_of_ascii d) 16) by lia. lia.
Qed.

Lemma bE_nonneg_inj (h1 h2 : Z) :
  0 <= h1 <= int64.max -> 0 <= h2 <= int64.max -> bE h1 = bE h2 -> h1 = h2.
Proof.
  unfold int64.max, bE. intros H1 H2.
  destruct (Z.ltb_spec h1 0); [lia|]. destruct (Z.ltb_spec h2 0); [lia|].
  apply hexFixed_inj; change (16 ^ Z.of_nat 16) with (2 ^ 64); lia.
Qed.

(** X1. Under the legacy layout a key identifies the evidence by height and
    hash: two pieces of evidence (heights not negative) have the same pending
    key, or the same committed key, only if they have the same height and the
    same hash. *)
Theorem v1_keys_identify_height_and_hash (ev1 ev2 : Evidence) :
  0 <= Height ev1 <= int64.max -> 0 <= Height ev2 <= int64.max ->
  CalcKeyPending v1LegacyLayout ev1 = CalcKeyPending v1LegacyLayout ev2 \/
  CalcKeyCommitted v1LegacyLayout ev1 = CalcKeyCommitted v1LegacyLayout ev2 ->
  Height ev1 = Height ev2 /\ Hash ev1 = Hash ev2.
Proof.
  intros H1 H2 H.
  assert (Hs : keySuffix ev1 = keySuffix ev2) by (destruct H as [[= H]|[= H]]; exact H).
  unfold keySuffix in Hs.
  apply string_app_inv_length in Hs as [Hh Hrest]; [|rewrite !bE_length; lia].
  injection Hrest as Hhash. split; [by apply bE_nonneg_inj|by apply hexBytes_inj].
Qed.

Lemma HasPrefix_empty (s : bytes) : HasPrefix s EmptyString = true.
Proof. by destruct s. Qed.

(** X2. Under the legacy layout a pending key is never a committed key, a
    pending key starts with the pending prefix and a committed key does not:
    iterating the pending prefix of a store never yields a committed entry. *)
Theorem v1_pending_scan_excludes_committed
    (m : gmap string string) (ev ev' : Evidence) (value : bytes) :
  CalcKeyPending v1LegacyLayout ev <> CalcKeyCommitted v1LegacyLayout ev' /\
  HasPrefix (CalcKeyPending v1LegacyLayout ev) (PrefixToBytesPending v1LegacyLayout) = true /\
  (CalcKeyCommitted v1LegacyLayout ev, value)
    ∉ prefixEntries (PrefixToBytesPending v1LegacyLayout) m.
Proof.
  split; [by intros [= H]|]. split; [simpl; apply HasPrefix_empty|].
  rewrite elem_of_prefixEntries. intros [_ H]. simpl in H. discriminate H.
Qed.

Lemma minus_before_digit (d : N) : (d < 16)%N -> Ascii.compare "-" (upperhex d) = Lt.
Proof.
  intros Hd. unfold Ascii.compare, upperhex. apply N.compare_lt_iff.
  destruct (N.ltb_spec d 10); rewrite N_ascii_embedding; simpl; lia.
Qed.

(** X3. Negative heights break the order of the legacy keys: the key of
    evidence at a negative height is below the key of any evidence at a
    height that is not negative, and among negative heights the key order is
    the reverse of the height order. *)
Theorem v1_pending_key_order_negative_heights (ev1 ev2 : Evidence) :
  int64.min <= Height ev1 -> Height ev1 < 0 ->
  (0 <= Height ev2 ->
   bytes_lt (CalcKeyPending v1LegacyLayout ev1) (CalcKeyPending v1LegacyLayout ev2)) /\
  (Height ev1 < Height ev2 -> Height ev2 < 0 ->
   bytes_lt (CalcKeyPending v1LegacyLayout ev2) (CalcKeyPending v1LegacyLayout ev1)).
Proof.
  unfold int64.min. intros Hmin Hneg. rewrite !v1_CalcKeyPending.
  unfold bytes_lt, v1PendingKey, bE. rewrite string_compare_cons_same.
  destruct (Z.ltb_spec (Height ev1) 0); [|lia]. split.
  - intros Hpos. destruct (Z.ltb_spec (Height ev2) 0); [lia|].
    change (hexFixed 16 (Height ev2)) with
      (String (upperhex (Z.to_N ((Height ev2 / 16 ^ Z.of_nat 15) mod 16)))
              (hexFixed 15 (Height ev2))).
    simpl String.compare. rewrite minus_before_digit; [done|].
    pose proof (Z.mod_pos_bound (Height ev2 / 16 ^ Z.of_nat 15) 16 ltac:(lia)). lia.
  - intros Hlt Hneg2. destruct (Z.ltb_spec (Height ev2) 0); [|lia].
    cbn [String.append]. rewrite string_compare_cons_same.
    apply (string_compare_app_lt (hexFixed 16 (- Height ev2)) (hexFixed 16 (- Height ev1))).
    + by rewrite !hexFixed_length.
    + apply hexFixed_lt. change (16 ^ Z.of_nat 16) with (2 ^ 64).
      rewrite !Z.mod_small by lia. lia.
Qed.

(** ** Adding and removing pending evidence *)

(** X4. On a store that does not fail, evidence that [addPendingEvidence]
    stored (it returned nil) is found by [isPending] directly afterwards, and
    the value under its pending key is the marshalled form of the evidence;
    when [addPendingEvidence] returns an error, the store and the size are as
    before. *)
Theorem addPendingEvidence_then_isPending (ev : Evidence) (p : Pool) (L : KeyLayout) :
  dbKeyLayout p = Some L -> db.reliable (evidenceStore p) ->
  exists r p1, addPendingEvidence ev p = Ok r p1 /\
    match r with
    | None =>
        (exists p2, isPending ev p1 = Ok true p2) /\
        exists evpb evBytes, EvidenceToProto ev = inl evpb /\ Marshal evpb = inl evBytes /\
          entries (evidenceStore p1) !! CalcKeyPending L ev = Some evBytes /\
          evidenceSize p1 = uint32.add (evidenceSize p) 1
    | Some _ =>
        same_store (evidenceStore p) (evidenceStore p1) /\ evidenceSize p1 = evidenceSize p
    end.
Proof.
  intros HL HR.
  destruct (wp_elim _ _ _ (addPendingEvidence_spec ev p L HL)) as (r & p1 & E & Hf & _ & _ & H).
  exists r, p1. split; [done|]. destruct r as [e|]; [tauto|].
  destruct H as (evpb & evBytes & E1 & E2 & He & _ & Hz).
  assert (Hk : entries (evidenceStore p1) !! CalcKeyPending L ev = Some evBytes)
    by (rewrite He; apply lookup_insert_eq).
  split; [|by exists evpb, evBytes].
  destruct (wp_elim _ _ _ (isPending_spec ev p1 L (frame_layout _ _ _ Hf HL)))
    as (b & p2 & E' & _ & _ & _ & _ & Hb).
  rewrite (Hb (frame_reliable _ _ Hf HR)), Hk, bool_decide_eq_true_2 in E' by eauto.
  eauto.
Qed.

Lemma uint32_add_then_ones (z : Z) :
  0 <= z < 2 ^ 32 -> uint32.add (uint32.add z 1) uint32.ones = z.
Proof.
  intros Hz. unfold uint32.add, uint32.wrap, uint32.ones.
  rewrite Zplus_mod_idemp_l.
  replace (z + 1 + (2 ^ 32 - 1)) with (z + 1 * 2 ^ 32) by lia.
  rewrite Z_mod_plus_full. apply Z.mod_small. lia.
Qed.

(** X5. On a store that does not fail, [removePendingEvidence] undoes
    [addPendingEvidence] of evidence that was not pending: the entries of the
    store and the size counter (a uint32) are as they were before the two
    calls. *)
Theorem removePendingEvidence_undoes_add (ev : Evidence) (p p1 : Pool) (L : KeyLayout) :
  dbKeyLayout p = Some L -> db.reliable (evidenceStore p) ->
  entries (evidenceStore p) !! CalcKeyPending L ev = None ->
  0 <= evidenceSize p < 2 ^ 32 ->
  addPendingEvidence ev p = Ok None p1 ->
  exists p2, removePendingEvidence ev p1 = Ok tt p2 /\
    entries (evidenceStore p2) = entries (evidenceStore p) /\
    evidenceSize p2 = evidenceSize p /\ evidenceList p2 = evidenceList p.
Proof.
  intros HL HR Hk Hz E.
  pose proof (addPendingEvidence_spec ev p L HL) as W. unfold wp in W. rewrite E in W.
  destruct W as (Hf & Hl & _ & (evpb & evBytes & _ & _ & He & _ & Hz1)).
  destruct (wp_elim _ _ _ (removePendingEvidence_spec ev p1 L (frame_layout _ _ _ Hf HL)))
    as ([] & p2 & E2 & _ & Hl2 & _ & Hdel).
  destruct (Hdel (frame_reliable _ _ Hf HR)) as (He2 & _ & Hz2).
  exists p2. split; [done|]. split; [|split].
  - rewrite He2, He, delete_insert_eq. by apply delete_id.
  - by rewrite Hz2, Hz1, uint32_add_then_ones.
  - congruence.
Qed.

(** X6. [removePendingEvidence] does not look whether the key is there: on
    a store that does not fail and has no entry under the pending key, the
    entries stay as they are and the size counter is still decremented; from
    zero it wraps to 4294967295. *)
Theorem removePendingEvidence_of_absent_key (ev : Evidence) (p : Pool) (L : KeyLayout) :
  dbKeyLayout p = Some L -> db.reliable (evidenceStore p) ->
  entries (evidenceStore p) !! CalcKeyPending L ev = None ->
  exists p', removePendingEvidence ev p = Ok tt p' /\
    entries (evidenceStore p') = entries (evidenceStore p) /\
    writes (evidenceStore p') = writes (evidenceStore p) ++ [WDelete (CalcKeyPending L ev)] /\
    evidenceSize p' = uint32.add (evidenceSize p) uint32.ones /\
    (evidenceSize p = 0 -> evidenceSize p' = 4294967295).
Proof.
  intros HL HR Hk.
  destruct (wp_elim _ _ _ (removePendingEvidence_spec ev p L HL))
    as ([] & p' & E & _ & _ & _ & Hdel).
  destruct (Hdel HR) as (He & Hw & Hz).
  exists p'. split; [done|]. split; [by rewrite He, delete_id|]. split; [done|].
  split; [done|]. intros H0. by rewrite Hz, H0.
Qed.

(** ** The outcomes of AddEvidence *)

Lemma AddEvidence_outcome (ev : Evidence) (p : Pool) (L : KeyLayout) :
  dbKeyLayout p = Some L -> db.reliable (evidenceStore p) ->
  entries (evidenceStore p) !! CalcKeyPending L ev = None ->
  entries (evidenceStore p) !! CalcKeyCommitted L ev = None ->
  wp (AddEvidence verify ev) p
    (fun r p' => same_frame p p' /\
       match verify (State p) (stateDB p) (blockStore p) ev with
       | Some e => r = Some (ErrInvalidEvidence ev e) /\ quiet p p'
       | None =>
           match r with
           | None => added L ev p p' /\ evidenceList p' = evidenceList p ++ [ev]
           | Some e =>
               quiet p p' /\
               exists e', e = Errorf "can't add evidence to pending list: %w" e' /\
                 forall evpb, EvidenceToProto ev = inl evpb -> exists m, Marshal evpb = inr m
           end
       end).
Proof.
  intros HL HR Hnp Hnc. unfold AddEvidence.
  apply wp_bind, wp_log. intros l.
  apply wp_bind. eapply wp_mono; [by apply (isPending_spec ev _ L)|].
  simpl. intros b p1 (Hq1 & _ & _ & _ & Hb). specialize (Hb HR).
  rewrite Hnp, bool_decide_eq_false_2 in Hb by (by intros [??]). subst b.
  assert (Hqp : quiet p p1) by (eapply quiet_trans; [apply quiet_set_logger|done]).
  apply wp_bind. eapply wp_mono.
  { apply (isCommitted_spec ev _ L). eapply frame_layout; [by apply quiet_frame|done]. }
  simpl. intros c p2 (Hq2 & _ & _ & _ & Hc).
  assert (Hqp2 : quiet p p2) by (by eapply quiet_trans).
  specialize (Hc (frame_reliable _ _ (quiet_frame _ _ Hqp) HR)).
  destruct Hqp as ((He1 & _) & _). rewrite He1, Hnc, bool_decide_eq_false_2 in Hc
    by (by intros [??]). subst c.
  apply wp_bind, wp_get.
  pose proof Hqp2 as (Hs2 & Hl2 & Hz2 & Hf2).
  pose proof Hf2 as (_ & Hsd & Hbs & Hstt & _). unfold State.
  rewrite Hstt, Hsd, Hbs.
  destruct (verify (state p) (stateDB p) (blockStore p) ev) as [e|].
  { apply wp_ret. split; [done|]. done. }
  apply wp_bind. eapply wp_mono.
  { apply (addPendingEvidence_spec ev _ L). by eapply frame_layout. }
  simpl. intros [e|] p3 (Hf3 & Hl3 & Hlg3 & H3).
  - destruct H3 as (Hs3 & Hz3 & Hcodec). apply wp_ret.
    assert (Hq3 : quiet p p3).
    { split; [by eapply same_store_trans|]. split; [congruence|]. split; [congruence|].
      by eapply same_frame_trans. }
    split; [by apply quiet_frame|]. split; [done|]. exists e. split; [done|].
    apply Hcodec. by eapply frame_reliable.
  - destruct H3 as (evpb & evBytes & E1 & E2 & He & Hw & Hz).
    apply wp_bind, wp_modify, wp_bind, wp_log. intros l3. apply wp_ret. simpl.
    destruct Hs2 as (He2 & Hw2 & _).
    split.
    { eapply same_frame_trans; [done|]. destruct Hf3 as (?&?&?&?&?&?&?&?). by repeat split. }
    split; [|congruence].
    exists evpb, evBytes. repeat split; try done; simpl.
    + by rewrite He, He2.
    + by rewrite Hw, Hw2.
    + by rewrite Hz, Hz2.
Qed.

(** X7. [AddEvidence] of evidence that is neither pending nor committed, on
    a store that does not fail: when the verifier rejects it with [e], the
    call returns the invalid evidence error that carries [e] and leaves the
    store, the list and the size as they were; when the verifier accepts it
    and it can be marshalled, the call returns nil, the marshalled evidence is
    under the pending key, the size is one higher and the evidence is at the
    back of the list. *)
Theorem AddEvidence_rejects_or_adds (ev : Evidence) (p : Pool) (L : KeyLayout) :
  dbKeyLayout p = Some L -> db.reliable (evidenceStore p) ->
  entries (evidenceStore p) !! CalcKeyPending L ev = None ->
  entries (evidenceStore p) !! CalcKeyCommitted L ev = None ->
  (forall e, verify (State p) (stateDB p) (blockStore p) ev = Some e ->
     exists p', AddEvidence verify ev p = Ok (Some (ErrInvalidEvidence ev e)) p' /\
                quiet p p') /\
  (forall evpb evBytes,
     verify (State p) (stateDB p) (blockStore p) ev = None ->
     EvidenceToProto ev = inl evpb -> Marshal evpb = inl evBytes ->
     exists p', AddEvidence verify ev p = Ok None p' /\
       entries (evidenceStore p') = <[CalcKeyPending L ev := evBytes]> (entries (evidenceStore p)) /\
       evidenceSize p' = uint32.add (evidenceSize p) 1 /\
       evidenceList p' = evidenceList p ++ [ev]).
Proof.
  intros HL HR Hnp Hnc.
  destruct (wp_elim _ _ _ (AddEvidence_outcome ev p L HL HR Hnp Hnc)) as (r & p' & E & _ & H).
  split.
  - intros e Hv. rewrite Hv in H. destruct H as [-> Hq]. eauto.
  - intros evpb evBytes Hv E1 E2. rewrite Hv in H. destruct r as [e|].
    + destruct H as (_ & e' & _ & Hcodec). destruct (Hcodec evpb E1) as [m Hm]. congruence.
    + destruct H as ((evpb' & evBytes' & E1' & E2' & He & _ & Hz) & Hl).
      assert (evBytes' = evBytes) as -> by congruence. eauto.
Qed.

(** ** Committing evidence *)


Lemma v1_keysDisjoint : keysDisjoint v1LegacyLayout.
Proof. intros ev ev' [= H]. Qed.

Lemma markEvidenceAsCommitted_loop_exact (L : KeyLayout) (evidence : list Evidence) :
  forall (m : gset string) (p : Pool),
    dbKeyLayout p = Some L -> db.reliable (evidenceStore p) ->
    keysDisjoint L -> heightsMarshal evidence ->
    wp (markEvidenceAsCommitted_loop evidence m) p
      (fun _ p' => same_frame p p' /\
         committedIn L evidence (entries (evidenceStore p')) /\
         (forall k, (forall ev, ev ∈ evidence ->
                       k <> CalcKeyCommitted L ev /\ k <> CalcKeyPending L ev) ->
            entries (evidenceStore p') !! k = entries (evidenceStore p) !! k) /\
         (forall k, is_Some (entries (evidenceStore p) !! k) ->
            (forall ev, ev ∈ evidence -> k <> CalcKeyPending L ev) ->
            is_Some (entries (evidenceStore p') !! k)) /\
         (forall k, entries (evidenceStore p) !! k = None ->
            (forall ev, ev ∈ evidence -> k <> CalcKeyCommitted L ev) ->
            entries (evidenceStore p') !! k = None)).
Proof.
  induction evidence as [|ev rest IH]; intros m p HL HR Hdis Hm; simpl.
  { apply wp_ret. split; [apply same_frame_refl|]. split; [by intros ? ?%elem_of_nil|]. done. }
  apply wp_bind. eapply wp_mono; [by apply (isPending_spec ev p L)|].
  simpl. intros pending p1 (Hq1 & _ & _ & _ & Hb). specialize (Hb HR).
  assert (HL1 : dbKeyLayout p1 = Some L) by (eapply frame_layout; [by apply quiet_frame|done]).
  assert (HR1 : db.reliable (evidenceStore p1))
    by (eapply frame_reliable; [by apply quiet_frame|done]).
  assert (He1 : entries (evidenceStore p1) = entries (evidenceStore p)) by apply Hq1.
  apply wp_bind.
  apply (wp_mono _ _ (fun _ p2 => same_frame p p2 /\
           entries (evidenceStore p2) = delete (CalcKeyPending L ev) (entries (evidenceStore p)))).
  { destruct pending.
    - apply wp_bind. eapply wp_mono; [by apply (removePendingEvidence_spec ev p1 L)|].
      simpl. intros _ p2 (Hf2 & _ & _ & Hdel). destruct (Hdel HR1) as (He2 & _).
      apply wp_ret. split; [eapply same_frame_trans; [by apply quiet_frame|done]|].
      by rewrite He2, He1.
    - apply wp_ret. split; [by apply quiet_frame|]. rewrite He1.
      symmetry. apply delete_id. symmetry in Hb. apply bool_decide_eq_false in Hb.
      by apply eq_None_not_Some. }
  simpl. intros m' p2 [Hf2 He2].
  assert (HL2 : dbKeyLayout p2 = Some L) by (by eapply frame_layout).
  assert (HR2 : db.reliable (evidenceStore p2)) by (by eapply frame_reliable).
  apply wp_bind, (wp_layout _ L); [done|].
  destruct (Hm ev ltac:(by left)) as [evBytes Hbytes]. rewrite Hbytes. simpl.
  apply wp_bind, wp_store. intros r d E.
  destruct (db_write_cases (insert (CalcKeyCommitted L ev) evBytes)
              (WSet (CalcKeyCommitted L ev) evBytes) (evidenceStore p2))
    as (r' & d' & E' & Hfa & Hc & Hr).
  unfold db.Set_ in E. rewrite E' in E. injection E as <- <-.
  destruct Hc as [[Hn _]|(-> & He3 & _)]; [by rewrite (Hr HR2) in Hn|].
  apply wp_bind, wp_ret.
  eapply wp_mono.
  { apply (IH m' (set_evidenceStore d' p2)); [done| |done|].
    - intros n. simpl. rewrite Hfa. apply HR2.
    - intros x Hx. apply Hm. by right. }
  simpl. intros _ p' (Hf' & Hcom & Hother & Hkeep & Hnone).
  assert (Hent : entries d' = <[CalcKeyCommitted L ev := evBytes]>
                   (delete (CalcKeyPending L ev) (entries (evidenceStore p))))
    by (by rewrite He3, He2).
  rewrite Hent in *.
  split.
  { eapply same_frame_trans; [done|]. eapply same_frame_trans; [|done].
    destruct Hf2 as (?&?&?&?&?&?&?&?). by repeat split. }
  split; [|split; [|split]].
  - intros x [->|Hx]%elem_of_cons; [|by apply Hcom]. split.
    + apply Hkeep; [rewrite lookup_insert_eq; eauto|]. intros x _. apply Hdis.
    + apply Hnone; [|intros x _ Heq; by apply (Hdis x ev)].
      rewrite lookup_insert_ne by apply Hdis. apply lookup_delete_eq.
  - intros k Hk. rewrite Hother by (intros x Hx; apply Hk; by right).
    destruct (Hk ev ltac:(by left)) as [Hc Hp].
    by rewrite lookup_insert_ne, lookup_delete_ne.
  - intros k Hsome Hk. apply Hkeep; [|intros x Hx; apply Hk; by right].
    destruct (decide (k = CalcKeyCommitted L ev)) as [->|Hne].
    + rewrite lookup_insert_eq. eauto.
    + rewrite lookup_insert_ne, lookup_delete_ne; [done| |done].
      intros <-. by apply (Hk ev); [left|].
  - intros k Hnone' Hk. apply Hnone; [|intros x Hx; apply Hk; by right].
    rewrite lookup_insert_ne by (intros <-; by apply (Hk ev); [left|]).
    destruct (decide (k = CalcKeyPending L ev)) as [->|Hne].
    + apply lookup_delete_eq.
    + by rewrite lookup_delete_ne.
Qed.

(** X8. On a store that does not fail, with a layout whose committed keys
    are no pending keys and heights that can be marshalled,
    [markEvidenceAsCommitted] leaves every piece of the evidence with its
    committed key in the store and its pending key not; keys that are neither
    a committed nor a pending key of the evidence keep what they had. *)
Theorem markEvidenceAsCommitted_moves_keys
    (evidence : list Evidence) (p : Pool) (L : KeyLayout) :
  dbKeyLayout p = Some L -> db.reliable (evidenceStore p) ->
  keysDisjoint L -> heightsMarshal evidence ->
  exists p', markEvidenceAsCommitted evidence p = Ok tt p' /\
    committedIn L evidence (entries (evidenceStore p')) /\
    (forall k, (forall ev, ev ∈ evidence ->
                  k <> CalcKeyCommitted L ev /\ k <> CalcKeyPending L ev) ->
       entries (evidenceStore p') !! k = entries (evidenceStore p) !! k).
Proof.
  intros HL HR Hdis Hm.
  cut (wp (markEvidenceAsCommitted evidence) p (fun _ p' =>
         committedIn L evidence (entries (evidenceStore p')) /\
         (forall k, (forall ev, ev ∈ evidence ->
                       k <> CalcKeyCommitted L ev /\ k <> CalcKeyPending L ev) ->
            entries (evidenceStore p') !! k = entries (evidenceStore p) !! k))).
  { intros ([] & p' & E & H)%wp_elim. eauto. }
  unfold markEvidenceAsCommitted. apply wp_bind.
  eapply wp_mono; [by apply (markEvidenceAsCommitted_loop_exact L)|].
  simpl. intros m' p1 (_ & Hcom & Hother & _).
  destruct (negb _); [apply wp_modify|apply wp_ret]; simpl; by split.
Qed.

Lemma isCommitted_of_entry (ev : Evidence) (p : Pool) (L : KeyLayout) :
  dbKeyLayout p = Some L -> db.reliable (evidenceStore p) ->
  is_Some (entries (evidenceStore p) !! CalcKeyCommitted L ev) ->
  exists p', isCommitted ev p = Ok true p'.
Proof.
  intros HL HR Hc.
  destruct (wp_elim _ _ _ (isCommitted_spec ev p L HL)) as (b & p' & E & _ & _ & _ & _ & Hb).
  rewrite (Hb HR), bool_decide_eq_true_2 in E by done. eauto.
Qed.

Lemma isPending_of_no_entry (ev : Evidence) (p : Pool) (L : KeyLayout) :
  dbKeyLayout p = Some L -> db.reliable (evidenceStore p) ->
  entries (evidenceStore p) !! CalcKeyPending L ev = None ->
  exists p', isPending ev p = Ok false p'.
Proof.
  intros HL HR Hc.
  destruct (wp_elim _ _ _ (isPending_spec ev p L HL)) as (b & p' & E & _ & _ & _ & _ & Hb).
  rewrite (Hb HR), bool_decide_eq_false_2 in E; [eauto|].
  rewrite Hc. by intros [? ?].
Qed.

Lemma processConsensusBuffer_frame (newState : sm_State) (p : Pool) (L : KeyLayout) :
  dbKeyLayout p = Some L ->
  wp (processConsensusBuffer newState) p
    (fun _ p' => dbKeyLayout p' = Some L /\
       (db.reliable (evidenceStore p) -> db.reliable (evidenceStore p'))).
Proof.
  intros HL. eapply wp_mono; [by apply (processConsensusBuffer_spec newState p L)|].
  simpl. intros _ p' (_ & Hf & _). split.
  - by eapply frame_layout.
  - intros HR. eapply frame_reliable; [exact Hf|done].
Qed.

Lemma markEvidenceAsCommitted_exact (L : KeyLayout) (evidence : list Evidence) (p : Pool) :
  dbKeyLayout p = Some L -> db.reliable (evidenceStore p) ->
  keysDisjoint L -> heightsMarshal evidence ->
  wp (markEvidenceAsCommitted evidence) p
    (fun _ p' => same_frame p p' /\ committedIn L evidence (entries (evidenceStore p'))).
Proof.
  intros HL HR Hdis Hm. unfold markEvidenceAsCommitted. apply wp_bind.
  eapply wp_mono; [by apply (markEvidenceAsCommitted_loop_exact L)|].
  simpl. intros m' p1 (Hf & Hcom & _).
  destruct (negb _); [apply wp_modify|apply wp_ret]; simpl; [|done].
  split; [|done]. destruct Hf as (?&?&?&?&?&?&?&?). by repeat split.
Qed.

(** X9. On a store that does not fail, with a layout whose committed keys
    are no pending keys and heights that can be marshalled, an [Update] to a
    higher state returns, and afterwards every piece of the block's evidence
    has its committed key in the store and its pending key not: [isCommitted]
    answers true and [isPending] false, whatever the consensus buffer held and
    whether or not the pruner ran. *)
Theorem Update_commits_block_evidence
    (newState : sm_State) (evList : list Evidence) (p : Pool) (L : KeyLayout) :
  dbKeyLayout p = Some L -> db.reliable (evidenceStore p) ->
  keysDisjoint L -> heightsMarshal evList ->
  LastBlockHeight (state p) < LastBlockHeight newState ->
  exists p', Update newState evList p = Ok tt p' /\
    committedIn L evList (entries (evidenceStore p')) /\
    forall ev, ev ∈ evList ->
      (exists q, isCommitted ev p' = Ok true q) /\ (exists q, isPending ev p' = Ok false q).
Proof.
  intros HL HR Hdis Hm Hh.
  cut (wp (Update newState evList) p (fun _ p' =>
         dbKeyLayout p' = Some L /\ db.reliable (evidenceStore p') /\
         committedIn L evList (entries (evidenceStore p')))).
  { intros ([] & p' & E & HL' & HR' & Hcom)%wp_elim. exists p'.
    split; [done|]. split; [done|]. intros ev Hin. destruct (Hcom ev Hin) as [Hc Hp].
    split; [by apply (isCommitted_of_entry ev p' L)|by apply (isPending_of_no_entry ev p' L)]. }
  unfold Update. apply wp_bind, wp_get.
  destruct (Z.leb_spec (LastBlockHeight newState) (LastBlockHeight (state p))); [lia|].
  apply wp_bind, wp_log. intros l. apply wp_bind.
  eapply wp_mono; [by apply (processConsensusBuffer_frame newState _ L)|].
  simpl. intros _ p1 (HL1 & HR1). specialize (HR1 HR).
  apply wp_bind, wp_modify, wp_bind.
  eapply wp_mono.
  { apply (markEvidenceAsCommitted_exact L evList (set_state newState p1)); done. }
  simpl. intros _ p3 (Hf3 & Hcom).
  assert (HL3 : dbKeyLayout p3 = Some L) by (by eapply frame_layout).
  assert (HR3 : db.reliable (evidenceStore p3)) by (by eapply frame_reliable).
  apply wp_bind, wp_get. destruct (_ && _).
  - apply wp_bind.
    eapply wp_mono; [by apply (removeExpiredPendingEvidence_exact L p3)|].
    simpl. intros [h t] p4 (Hf4 & _ & He4 & _). apply wp_modify. simpl.
    split; [by eapply frame_layout|]. split; [by eapply frame_reliable|].
    rewrite He4. intros ev Hin. destruct (Hcom ev Hin) as [Hc Hp].
    rewrite !lookup_deleteAll. split.
    + rewrite bool_decide_eq_false_2; [done|].
      intros (ev' & Heq & _)%list_elem_of_fmap. by apply (Hdis ev ev').
    + by destruct (bool_decide _).
  - by apply wp_ret.
Qed.

(** ** When pruning is due *)

(** X10. The thresholds that the pruner returns for the entry that stopped
    its scan are one block and one second past the point at which that entry
    expires.  So, while the evidence parameters stay as they are and nothing
    overflows, the guard of [Update] lets the pruner run again exactly when the
    entry's age exceeds the maximum by more than one block and more than one
    second, and the entry is then expired. *)
Theorem pruning_due_only_after_first_live_entry_expired
    (p : Pool) (ev : Evidence) (newState : sm_State) :
  let params := ConsensusParams_Evidence (State p) in
  ConsensusParams_Evidence newState = params ->
  0 <= Height ev -> 0 <= MaxAgeNumBlocks params ->
  Height ev + MaxAgeNumBlocks params + 1 <= int64.max ->
  0 <= LastBlockHeight newState <= int64.max ->
  int64.in_range (LastBlockTime newState - Time ev) ->
  ((nextPruning p (Some ev)).1 <? LastBlockHeight newState)
    && time.After (LastBlockTime newState) (nextPruning p (Some ev)).2 = true <->
  LastBlockHeight newState - Height ev > MaxAgeNumBlocks params + 1 /\
  LastBlockTime newState - Time ev > MaxAgeDuration params + time.Second /\
  isExpired (set_state newState p) (Height ev) (Time ev) = true.
Proof.
  intros params Hpar Hh Hmax Hsum Hl Ht. unfold nextPruning. simpl. fold params.
  unfold int64.max in *.
  rewrite (int64_add_exact (Height ev))
    by (unfold int64.in_range, int64.min, int64.max; lia).
  rewrite int64_add_exact by (unfold int64.in_range, int64.min, int64.max; lia).
  unfold time.After, time.Add. rewrite andb_true_iff, !Z.ltb_lt.
  rewrite (isExpired_exact (set_state newState p)); simpl;
    [|unfold int64.max; lia|unfold int64.max; lia|done].
  unfold State. simpl. rewrite Hpar. fold params. unfold time.Second. lia.
Qed.

(** ** The layout stays *)

Lemma layoutOf_Some (version recorded : string) (L : KeyLayout) :
  layoutOf version = Some (L, recorded) ->
  recorded <> "" /\ layoutOf recorded = Some (L, recorded).
Proof.
  unfold layoutOf. destruct (_ || _).
  - intros [= <- <-]. done.
  - destruct (version =? "v2")%string; [|done]. intros [= <- <-]. done.
Qed.

(** X11. Once [setDBLayout] has returned, the version record decides: on
    a store with the entries it left, any later call, whatever version it
    requests, installs the same layout and leaves the entries as they are. *)
Theorem setDBLayout_recorded_version_wins
    (requested requested' : string) (p p1 q : Pool) :
  db.reliable (evidenceStore p) -> setDBLayout requested p = Ok tt p1 ->
  db.reliable (evidenceStore q) -> entries (evidenceStore q) = entries (evidenceStore p1) ->
  exists q1, setDBLayout requested' q = Ok tt q1 /\
    dbKeyLayout q1 = dbKeyLayout p1 /\
    entries (evidenceStore q1) = entries (evidenceStore q).
Proof.
  intros HR E HRq Heq.
  pose proof (setDBLayout_spec requested p HR) as H.
  destruct (layoutOf (selectedVersion requested (evidenceStore p))) as [[L recorded]|] eqn:El.
  2:{ destruct H as (p' & E' & _). congruence. }
  destruct H as (p' & E' & HL & He & _). rewrite E in E'. injection E' as <-.
  destruct (layoutOf_Some _ _ _ El) as [Hne Hl].
  assert (Hsel : selectedVersion requested' (evidenceStore q) = recorded).
  { unfold selectedVersion. rewrite Heq, He, lookup_insert_eq. by destruct recorded. }
  pose proof (setDBLayout_spec requested' q HRq) as H. rewrite Hsel, Hl in H.
  destruct H as (q1 & E1 & HL1 & He1 & _). exists q1.
  split; [done|]. split; [congruence|].
  rewrite He1, Heq, He. apply insert_insert_eq.
Qed.

(** ** CheckEvidence on known evidence *)

Lemma verifyAndAdd_pending (ev : Evidence) (p : Pool) (L : KeyLayout) :
  dbKeyLayout p = Some L -> db.reliable (evidenceStore p) ->
  IsLightClientAttackEvidence ev = false ->
  is_Some (entries (evidenceStore p) !! CalcKeyPending L ev) ->
  exists p', verifyAndAdd verify ev p = Ok None p' /\ quiet p p'.
Proof.
  intros HL HR Hlight Hp.
  destruct (wp_elim _ _ _ (verifyAndAdd_spec ev p L HL))
    as (r & p' & E & Hf & Hl & Hw & _ & Hpend).
  destruct (Hpend HR Hlight Hp) as [-> Hs]. exists p'. split; [done|].
  split; [done|]. split; [done|]. split; [|done].
  destruct Hw as [[_ Hz]|[_ (evpb & evBytes & _ & _ & _ & Hw & _)]]; [done|].
  destruct Hs as (_ & Hw' & _). rewrite Hw' in Hw. symmetry in Hw.
  by apply writes_extended in Hw.
Qed.

Lemma allPending_quiet (L : KeyLayout) (p p' : Pool) (evs : list Evidence) :
  quiet p p' -> allPending L p evs -> allPending L p' evs.
Proof.
  intros ((He & _) & _) H ev Hin. rewrite He. by apply H.
Qed.

(** The loop passes over pending duplicate vote evidence with fresh hashes
    without a write. *)
Lemma CheckEvidence_loop_pending (L : KeyLayout) (l1 : list Evidence) :
  forall (hashes : list bytes) (rest : list Evidence) (p : Pool),
    dbKeyLayout p = Some L -> db.reliable (evidenceStore p) ->
    allPending L p l1 -> NoDup (hashes ++ map Hash l1) ->
    exists p1, quiet p p1 /\
      CheckEvidence_loop verify (l1 ++ rest) hashes p
        = CheckEvidence_loop verify rest (hashes ++ map Hash l1) p1.
Proof.
  induction l1 as [|ev l1 IH]; intros hashes rest p HL HR Hall Hnd; simpl.
  { exists p. split; [apply quiet_refl|]. by rewrite app_nil_r. }
  destruct (Hall ev ltac:(by left)) as [Hlight Hp].
  destruct (verifyAndAdd_pending ev p L HL HR Hlight Hp) as (p' & E & Hq).
  unfold bind at 1. rewrite E.
  assert (Hfresh : existsb (String.eqb (Hash ev)) hashes = false).
  { apply not_true_is_false. rewrite existsb_eqb_elem_of. intros Hin.
    apply NoDup_app in Hnd as (_ & Hnd & _). apply (Hnd _ Hin). by left. }
  rewrite Hfresh.
  destruct (IH (hashes ++ [Hash ev]) rest p') as (p1 & Hq1 & E1).
  - eapply frame_layout; [by apply quiet_frame|done].
  - eapply frame_reliable; [by apply quiet_frame|done].
  - eapply allPending_quiet; [done|]. intros x Hx. apply Hall. by right.
  - by rewrite <- app_assoc.
  - exists p1. split; [by eapply quiet_trans|]. by rewrite E1, <- app_assoc.
Qed.

Lemma verifyAndAdd_committed (ev : Evidence) (p : Pool) (L : KeyLayout) :
  dbKeyLayout p = Some L -> db.reliable (evidenceStore p) ->
  IsLightClientAttackEvidence ev = true \/
    entries (evidenceStore p) !! CalcKeyPending L ev = None ->
  is_Some (entries (evidenceStore p) !! CalcKeyCommitted L ev) ->
  exists p', verifyAndAdd verify ev p
               = Ok (Some (ErrInvalidEvidence ev ErrEvidenceAlreadyCommitted)) p' /\
             quiet p p'.
Proof.
  intros HL HR Hcase Hc.
  cut (wp (verifyAndAdd verify ev) p (fun r p' =>
         r = Some (ErrInvalidEvidence ev ErrEvidenceAlreadyCommitted) /\ quiet p p')).
  { intros (r & p' & E & -> & Hq)%wp_elim. eauto. }
  { unfold verifyAndAdd. apply wp_bind.
    apply (wp_mono _ _ (fun recheck p1 => recheck = true /\ quiet p p1)).
    { destruct (IsLightClientAttackEvidence ev) eqn:El.
      - apply wp_ret. split; [done|apply quiet_refl].
      - destruct Hcase as [?|Hnp]; [done|]. apply wp_bind.
        eapply wp_mono; [by apply (isPending_spec ev p L)|].
        simpl. intros b p1 (Hq & _ & _ & _ & Hb). apply wp_ret. split; [|done].
        rewrite (Hb HR), Hnp, bool_decide_eq_false_2; [done|by intros [??]]. }
    simpl. intros recheck p1 [-> Hq1]. apply wp_bind.
    eapply wp_mono.
    { apply (isCommitted_spec ev p1 L). eapply frame_layout; [by apply quiet_frame|done]. }
    simpl. intros b p2 (Hq2 & _ & _ & _ & Hb).
    assert (HR1 : db.reliable (evidenceStore p1))
      by (eapply frame_reliable; [by apply quiet_frame|done]).
    pose proof Hq1 as ((He & _) & _). rewrite (Hb HR1), He, bool_decide_eq_true_2 by done.
    apply wp_ret. split; [done|]. by eapply quiet_trans. }
Qed.

(** X12. Whatever the verifier would say: when every piece of a list is
    duplicate vote evidence that the store, which does not fail, has as
    pending, and no hash occurs twice, [CheckEvidence] accepts the list
    without consulting the verifier's verdict and without a write. *)
Theorem CheckEvidence_accepts_pending_unverified
    (evList : list Evidence) (p : Pool) (L : KeyLayout) :
  dbKeyLayout p = Some L -> db.reliable (evidenceStore p) ->
  allPending L p evList -> NoDup (map Hash evList) ->
  exists p', CheckEvidence verify evList p = Ok None p' /\ quiet p p'.
Proof.
  intros HL HR Hall Hnd.
  destruct (CheckEvidence_loop_pending L evList [] [] p HL HR Hall Hnd) as (p1 & Hq & E).
  exists p1. split; [|done]. unfold CheckEvidence. rewrite <- (app_nil_r evList). exact E.
Qed.

(** X13. Evidence that was committed is refused: when the pieces before
    it are pending duplicate vote evidence with distinct hashes, and the piece
    itself is light client attack evidence or not pending and has its
    committed key in the store, [CheckEvidence] returns
    [ErrEvidenceAlreadyCommitted] for it, whatever follows in the list and
    whatever the verifier would say, and writes nothing. *)
Theorem CheckEvidence_refuses_committed
    (l1 : list Evidence) (ev : Evidence) (rest : list Evidence) (p : Pool) (L : KeyLayout) :
  dbKeyLayout p = Some L -> db.reliable (evidenceStore p) ->
  allPending L p l1 -> NoDup (map Hash l1) ->
  IsLightClientAttackEvidence ev = true \/
    entries (evidenceStore p) !! CalcKeyPending L ev = None ->
  is_Some (entries (evidenceStore p) !! CalcKeyCommitted L ev) ->
  exists p', CheckEvidence verify (l1 ++ ev :: rest) p
               = Ok (Some (ErrInvalidEvidence ev ErrEvidenceAlreadyCommitted)) p' /\
             quiet p p'.
Proof.
  intros HL HR Hall Hnd Hcase Hc.
  destruct (CheckEvidence_loop_pending L l1 [] (ev :: rest) p HL HR Hall Hnd)
    as (p1 & Hq & E).
  pose proof Hq as ((He & _) & _).
  destruct (verifyAndAdd_committed ev p1 L) as (p' & E' & Hq').
  - eapply frame_layout; [by apply quiet_frame|done].
  - eapply frame_reliable; [by apply quiet_frame|done].
  - by rewrite He.
  - by rewrite He.
  - exists p'. split; [|by eapply quiet_trans].
    unfold CheckEvidence. rewrite E. simpl. unfold bind at 1. by rewrite E'.
Qed.

(** ** PendingEvidence on a damaged store *)

(** X14. [PendingEvidence] never hands out a partial list: when the
    counter is not zero and a pending entry of the store does not decode, a
    call without size limit returns the empty list and size 0, although
    [listEvidence] has read the entries before the damaged one, and the pool
    is left as it was. *)
Theorem PendingEvidence_empty_on_undecodable_entry
    (p : Pool) (L : KeyLayout) (key value : bytes) :
  dbKeyLayout p = Some L -> Size p <> 0 ->
  entries (evidenceStore p) !! key = Some value ->
  HasPrefix key (PrefixToBytesPending L) = true ->
  decoded (key, value) = None ->
  exists p', PendingEvidence (-1) p = Ok ([], 0) p' /\ quiet p p'.
Proof.
  intros HL Hz Hk Hp Hbad.
  cut (wp (PendingEvidence (-1)) p (fun r p' => r = ([], 0) /\ quiet p p')).
  { intros (r & p' & E & -> & Hq)%wp_elim. eauto. }
  unfold PendingEvidence. apply wp_bind, wp_get.
  destruct (Z.eqb_spec (Size p) 0); [done|].
  apply wp_bind, (wp_layout _ L); [done|]. apply wp_bind.
  eapply wp_mono; [by apply (listEvidence_undecodable _ key value)|].
  simpl. intros [[evidence size] e] p1 [Hq [e' He]]. simpl in He. subst e.
  apply wp_bind, wp_log. intros l. apply wp_ret. split; [done|].
  eapply quiet_trans; [done|apply quiet_set_logger].
Qed.

(** ** Evidence from the consensus buffer *)

(** X15. A buffered pair of votes of the height of the new state becomes
    duplicate vote evidence with the block time and the validators of that new
    state (the pool still holds the old one); when the store does not fail,
    the evidence is neither pending nor committed and can be marshalled,
    [processConsensusBuffer] writes it under its pending key, counts it, puts
    it at the back of the list and empties the buffer. *)
Theorem processConsensusBuffer_forms_evidence_with_new_state
    (newState : sm_State) (voteSet : duplicateVoteSet) (p : Pool) (L : KeyLayout)
    (dve : Evidence) (evpb : EvidencePB) (evBytes : bytes) :
  dbKeyLayout p = Some L -> db.reliable (evidenceStore p) ->
  consensusBuffer p = [voteSet] ->
  Vote_Height (VoteA voteSet) = LastBlockHeight newState ->
  NewDuplicateVoteEvidence (VoteA voteSet) (VoteB voteSet)
    (LastBlockTime newState) (LastValidators newState) = inl dve ->
  entries (evidenceStore p) !! CalcKeyPending L dve = None ->
  entries (evidenceStore p) !! CalcKeyCommitted L dve = None ->
  EvidenceToProto dve = inl evpb -> Marshal evpb = inl evBytes ->
  exists p', processConsensusBuffer newState p = Ok tt p' /\
    consensusBuffer p' = [] /\
    entries (evidenceStore p') = <[CalcKeyPending L dve := evBytes]> (entries (evidenceStore p)) /\
    evidenceSize p' = uint32.add (evidenceSize p) 1 /\
    evidenceList p' = evidenceList p ++ [dve] /\
    state p' = state p.
Proof.
  intros HL HR Hbuf Hh Hdve Hnp Hnc E1 E2.
  cut (wp (processConsensusBuffer newState) p (fun _ p' =>
         consensusBuffer p' = [] /\
         entries (evidenceStore p')
           = <[CalcKeyPending L dve := evBytes]> (entries (evidenceStore p)) /\
         evidenceSize p' = uint32.add (evidenceSize p) 1 /\
         evidenceList p' = evidenceList p ++ [dve] /\ state p' = state p)).
  { intros ([] & p' & E & H)%wp_elim. eauto. }
  unfold processConsensusBuffer. apply wp_bind, wp_get. rewrite Hbuf. simpl.
  apply wp_bind, wp_bind. unfold processVoteSet.
  rewrite Hh, Z.eqb_refl. apply wp_bind, wp_ret. rewrite Hdve. simpl.
  apply wp_bind. eapply wp_mono; [by apply (isPending_spec dve p L)|].
  simpl. intros b p1 (Hq1 & _ & _ & _ & Hb). specialize (Hb HR).
  rewrite Hnp, bool_decide_eq_false_2 in Hb by (by intros [??]). subst b.
  assert (HL1 : dbKeyLayout p1 = Some L) by (eapply frame_layout; [by apply quiet_frame|done]).
  assert (HR1 : db.reliable (evidenceStore p1))
    by (eapply frame_reliable; [by apply quiet_frame|done]).
  pose proof Hq1 as ((He1 & _) & Hl1 & Hz1 & Hf1).
  apply wp_bind. eapply wp_mono; [by apply (isCommitted_spec dve p1 L)|].
  simpl. intros b p2 (Hq2 & _ & _ & _ & Hb). specialize (Hb HR1).
  rewrite He1, Hnc, bool_decide_eq_false_2 in Hb by (by intros [??]). subst b.
  assert (HL2 : dbKeyLayout p2 = Some L) by (eapply frame_layout; [by apply quiet_frame|done]).
  assert (HR2 : db.reliable (evidenceStore p2))
    by (eapply frame_reliable; [by apply quiet_frame|done]).
  pose proof Hq2 as ((He2 & _) & Hl2 & Hz2 & Hf2).
  apply wp_bind. eapply wp_mono; [by apply (addPendingEvidence_spec dve p2 L)|].
  simpl. intros [e|] p3 (Hf3 & Hl3 & _ & H3).
  { destruct H3 as (_ & _ & Hcodec). destruct (Hcodec HR2 evpb E1) as [m Hm]. congruence. }
  destruct H3 as (evpb' & evBytes' & E1' & E2' & He3 & _ & Hz3).
  assert (evBytes' = evBytes) as -> by congruence.
  apply wp_bind, wp_modify, wp_log. intros l. apply wp_ret, wp_modify. simpl.
  split; [done|]. split; [by rewrite He3, He2, He1|].
  split; [by rewrite Hz3, Hz2, Hz1|]. split; [by rewrite Hl3, Hl2, Hl1|].
  rewrite (frame_state _ _ Hf3), (frame_state _ _ Hf2). by apply frame_state.
Qed.

(** ** Opening the pool over a sound store *)

Lemma forEach_PushBack (l : list Evidence) :
  forall p, wp (forEach l PushBack) p
    (fun _ p' => evidenceList p' = evidenceList p ++ l /\
       evidenceStore p' = evidenceStore p /\ evidenceSize p' = evidenceSize p /\
       same_frame p p').
Proof.
  induction l as [|ev l IH]; intros p; simpl.
  { apply wp_ret. rewrite app_nil_r. split; [done|]. split; [done|]. split; [done|].
    apply same_frame_refl. }
  apply wp_bind, wp_modify. eapply wp_mono; [apply IH|].
  simpl. intros _ p' (Hl & Hs & Hz & Hf). rewrite Hl, <- app_assoc.
  split; [done|]. split; [done|]. split; [done|].
  eapply same_frame_trans; [apply (frame_set_list (evidenceList p ++ [ev]) p)|done].
Qed.

(** X16. Opening a pool without options over a store that does not fail:
    the version record is written, the scan of the pruner deletes the expired
    entries it meets before the first live one, and when the pending entries
    that remain all decode, [NewPool] returns a pool whose list holds their
    evidence in key order, whose size is their number (as a 32 bit counter),
    and whose pruning thresholds are those of the scan. *)
Theorem NewPool_recovers_pending_evidence
    (evidenceDB : DB) (stateDB : sm_Store) (blockStore : BlockStore)
    (newState : sm_State) (L : KeyLayout) (version : string)
    (des : list (EvidencePB * Evidence)) :
  Load stateDB = inl newState ->
  db.reliable evidenceDB ->
  layoutOf (selectedVersion "v1" evidenceDB) = Some (L, version) ->
  let p0 := mkPool NopLogger evidenceDB [] 0 stateDB blockStore newState [] 0 time.zero None in
  let m1 := <["version" := version]> (entries evidenceDB) in
  let scan := expiredBefore p0 (prefixEntries (PrefixToBytesPending L) m1) in
  let m2 := deleteAll L scan.1 m1 in
  Forall2 decodes (prefixEntries (PrefixToBytesPending L) m2) des ->
  exists pool, NewPool evidenceDB stateDB blockStore [] = NewPoolOk pool /\
    entries (evidenceStore pool) = m2 /\
    evidenceList pool = map snd des /\
    Size pool = uint32.wrap (Z.of_nat (length des)) /\
    State pool = newState /\ dbKeyLayout pool = Some L /\
    (pruningHeight pool, pruningTime pool) = nextPruning p0 scan.2.
Proof.
  intros HLoad HR Hlay p0 m1 scan m2 Hdes.
  unfold NewPool. rewrite HLoad. fold p0. lazy zeta.
  match goal with
  | |- context [match ?c p0 with Ok _ _ => _ | Panic _ _ => _ end] =>
      assert (W : wp c p0 (fun r pool =>
        r = None /\ entries (evidenceStore pool) = m2 /\
        evidenceList pool = map snd des /\
        Size pool = uint32.wrap (Z.of_nat (length des)) /\
        State pool = newState /\ dbKeyLayout pool = Some L /\
        (pruningHeight pool, pruningTime pool) = nextPruning p0 scan.2))
  end.
  { simpl forEach. apply wp_bind, wp_ret, wp_bind, wp_get. simpl dbKeyLayout.
    apply wp_bind.
    pose proof (setDBLayout_spec "v1" p0 HR) as Hset. simpl evidenceStore in Hset.
    rewrite Hlay in Hset. destruct Hset as (p1 & E1 & HL1 & He1 & _ & Hf1 & Hl1 & _).
    eapply wp_intro; [exact E1|].
    assert (HR1 : db.reliable (evidenceStore p1)) by (by eapply (frame_reliable _ _ Hf1)).
    assert (Hs1 : state p1 = newState) by (by rewrite (frame_state _ _ Hf1)).
    assert (Hs10 : state p1 = state p0) by done.
    simpl in He1. fold m1 in He1.
    apply wp_bind.
    eapply wp_mono; [by apply (removeExpiredPendingEvidence_exact L p1)|].
    simpl. intros [h t] p2 (Hf2 & Hr2 & He2 & _ & Hl2).
    rewrite He1 in Hr2, He2. rewrite (expiredBefore_state p0 p1) in Hr2, He2 by done.
    rewrite (nextPruning_state p0 p1) in Hr2 by done. fold scan in Hr2, He2. fold m2 in He2.
    apply wp_bind, wp_modify.
    apply wp_bind, (wp_layout _ L); [simpl; by eapply frame_layout|].
    apply wp_bind.
    eapply wp_mono.
    { apply (listEvidence_exact _ _ _ des).
      - simpl. by eapply frame_reliable.
      - simpl. by rewrite He2. }
    simpl. intros [[evList size] r] p3 [Hq3 Hr3].
    destruct (within_spec (-1) (map fst des) []) as (_ & Hn & _).
    rewrite (Hn eq_refl), length_map in Hr3.
    rewrite firstn_all2 in Hr3 by (by rewrite length_map).
    injection Hr3 as -> _ ->.
    apply wp_bind, wp_modify, wp_bind.
    eapply wp_mono; [apply forEach_PushBack|].
    simpl. intros _ p4 (Hl4 & Hs4 & Hz4 & Hf4). apply wp_ret.
    destruct Hq3 as ((He3 & _) & Hl3 & _ & Hf3). simpl in *.
    split; [done|]. split; [by rewrite Hs4, He3|].
    split.
    { rewrite Hl4, Hl3, Hl2, Hl1. simpl. unfold withoutHashes. done. }
    split; [by rewrite length_map in Hz4|].
    split.
    { unfold State. rewrite (frame_state _ _ Hf4). simpl.
      rewrite (frame_state _ _ Hf3). simpl. by rewrite (frame_state _ _ Hf2). }
    split.
    { eapply frame_layout; [exact Hf4|]. simpl.
      eapply frame_layout; [exact Hf3|]. simpl. by eapply frame_layout. }
    destruct Hf4 as (_&_&_&_&_&Hh4&Ht4&_). destruct Hf3 as (_&_&_&_&_&Hh3&Ht3&_).
    simpl in *. by rewrite Hh4, Ht4, Hh3, Ht3. }
  destruct (wp_elim _ _ _ W) as (r & pool & E & -> & H). rewrite E. eauto.
Qed.

(** ** Added evidence is listed *)

Lemma Forall2_decodes_exists (items : list (bytes * bytes)) :
  (forall kv, kv ∈ items -> exists d, decodes kv d) ->
  exists des, Forall2 decodes items des.
Proof.
  induction items as [|kv rest IH]; intros H.
  { exists []. constructor. }
  destruct (H kv ltac:(by left)) as [d Hd].
  destruct IH as [des Hdes]; [intros x Hx; apply H; by right|].
  exists (d :: des). by constructor.
Qed.

Lemma decodes_functional (kv : bytes * bytes) (d d' : EvidencePB * Evidence) :
  decodes kv d -> decodes kv d' -> d = d'.
Proof.
  destruct d as [pb ev], d' as [pb' ev']. unfold decodes. simpl.
  intros [H1 H2] [H1' H2']. assert (pb' = pb) as -> by congruence. congruence.
Qed.

Lemma PendingEvidence_all (p : Pool) (L : KeyLayout) (des : list (EvidencePB * Evidence)) :
  dbKeyLayout p = Some L -> db.reliable (evidenceStore p) -> Size p <> 0 ->
  Forall2 decodes (prefixEntries (PrefixToBytesPending L) (entries (evidenceStore p))) des ->
  wp (PendingEvidence (-1)) p (fun r p' => quiet p p' /\ r.1 = map snd des).
Proof.
  intros HL HR Hz Hdes. unfold PendingEvidence. apply wp_bind, wp_get.
  destruct (Z.eqb_spec (Size p) 0); [done|].
  apply wp_bind, (wp_layout _ L); [done|]. apply wp_bind.
  eapply wp_mono; [by apply (listEvidence_exact _ _ _ des)|].
  simpl. intros [[evidence size] e] p1 [Hq Hr].
  destruct (within_spec (-1) (map fst des) []) as (_ & Hn & _).
  rewrite (Hn eq_refl), length_map in Hr.
  rewrite firstn_all2 in Hr by (by rewrite length_map).
  injection Hr as -> _ ->. by apply wp_ret.
Qed.

(** X17. Evidence that [AddEvidence] has accepted is handed out by the
    [PendingEvidence] that follows: on a store that does not fail and whose
    pending entries decode, with a pending key under the pending prefix and a
    counter that does not wrap to zero, a call without size limit lists what
    the stored bytes decode to, next to one piece for every entry that was
    pending before. *)
Theorem AddEvidence_then_PendingEvidence_lists_it
    (ev ev' : Evidence) (evpb evpb' : EvidencePB) (evBytes : bytes) (p : Pool) (L : KeyLayout) :
  dbKeyLayout p = Some L -> db.reliable (evidenceStore p) ->
  entries (evidenceStore p) !! CalcKeyPending L ev = None ->
  entries (evidenceStore p) !! CalcKeyCommitted L ev = None ->
  verify (State p) (stateDB p) (blockStore p) ev = None ->
  EvidenceToProto ev = inl evpb -> Marshal evpb = inl evBytes ->
  Unmarshal evBytes = inl evpb' -> EvidenceFromProto evpb' = inl ev' ->
  HasPrefix (CalcKeyPending L ev) (PrefixToBytesPending L) = true ->
  (forall kv, kv ∈ prefixEntries (PrefixToBytesPending L) (entries (evidenceStore p)) ->
     exists d, decodes kv d) ->
  uint32.add (evidenceSize p) 1 <> 0 ->
  exists p1 evs size p2,
    AddEvidence verify ev p = Ok None p1 /\
    PendingEvidence (-1) p1 = Ok (evs, size) p2 /\
    ev' ∈ evs /\
    length evs
      = S (length (prefixEntries (PrefixToBytesPending L) (entries (evidenceStore p)))).
Proof.
  intros HL HR Hnp Hnc Hv E1 E2 E3 E4 Hpre Hold Hz.
  destruct (wp_elim _ _ _ (AddEvidence_outcome ev p L HL HR Hnp Hnc))
    as (r & p1 & E & Hf & H).
  rewrite Hv in H. destruct r as [e|].
  { destruct H as (_ & e' & _ & Hcodec). destruct (Hcodec evpb E1) as [m Hm]. congruence. }
  destruct H as ((evpb0 & evBytes0 & E1' & E2' & He & _ & Hz1) & Hl).
  assert (evBytes0 = evBytes) as -> by congruence. clear evpb0 E1' E2'.
  set (prefix := PrefixToBytesPending L) in *.
  set (key := CalcKeyPending L ev) in *.
  assert (Hnew : (key, evBytes) ∈ prefixEntries prefix (entries (evidenceStore p1))).
  { apply elem_of_prefixEntries. rewrite He, lookup_insert_eq. done. }
  destruct (Forall2_decodes_exists (prefixEntries prefix (entries (evidenceStore p1))))
    as [des Hdes].
  { intros [k v] [Hk Hp]%elem_of_prefixEntries. rewrite He in Hk.
    destruct (decide (k = key)) as [->|Hne].
    - rewrite lookup_insert_eq in Hk. injection Hk as <-. by exists (evpb', ev').
    - rewrite lookup_insert_ne in Hk by done. apply Hold. by apply elem_of_prefixEntries. }
  assert (HL1 : dbKeyLayout p1 = Some L) by (by eapply frame_layout).
  assert (HR1 : db.reliable (evidenceStore p1)) by (by eapply frame_reliable).
  assert (Hz1' : Size p1 <> 0) by (unfold Size; by rewrite Hz1).
  destruct (wp_elim _ _ _ (PendingEvidence_all p1 L des HL1 HR1 Hz1' Hdes))
    as ([evs size] & p2 & E' & _ & Hr). simpl in Hr. subst evs.
  exists p1, (map snd des), size, p2. split; [done|]. split; [done|]. split.
  - destruct (proj1 (list_elem_of_lookup _ _) Hnew) as [i Hi].
    destruct (Forall2_lookup_l _ _ _ _ _ Hdes Hi) as (d & Hd & Hdec).
    assert (d = (evpb', ev')) as -> by (by apply (decodes_functional (key, evBytes))).
    apply list_elem_of_In, in_map_iff. exists (evpb', ev'). split; [done|].
    apply list_elem_of_In. by eapply list_elem_of_lookup_2.
  - rewrite length_map, <- (Forall2_length _ _ _ Hdes).
    unfold prefixEntries, sortedEntries.
    assert (Hperm : merge_sort key_le (map_to_list (entries (evidenceStore p1)))
              ≡ₚ (key, evBytes) :: merge_sort key_le (map_to_list (entries (evidenceStore p)))).
    { rewrite !merge_sort_Permutation, He. by apply map_to_list_insert. }
    assert (Hfil : forall l l' : list (bytes * bytes), l ≡ₚ l' ->
              length (List.filter (fun kv => HasPrefix kv.1 prefix) l)
              = length (List.filter (fun kv => HasPrefix kv.1 prefix) l')).
    { intros l l' Hp. induction Hp; simpl; [done| | |congruence].
      - destruct (HasPrefix x.1 prefix); simpl; congruence.
      - destruct (HasPrefix x.1 prefix), (HasPrefix y.1 prefix); simpl; congruence. }
    rewrite (Hfil _ _ Hperm). simpl. by rewrite Hpre.
Qed.

(** ** CheckEvidence on evidence that is checked *)

Lemma verifyAndAdd_checked (ev : Evidence) (p : Pool) (L : KeyLayout) :
  dbKeyLayout p = Some L -> db.reliable (evidenceStore p) ->
  IsLightClientAttackEvidence ev = true \/
    entries (evidenceStore p) !! CalcKeyPending L ev = None ->
  entries (evidenceStore p) !! CalcKeyCommitted L ev = None ->
  wp (verifyAndAdd verify ev) p
    (fun r p' => same_frame p p' /\ evidenceList p' = evidenceList p /\
       match verify (State p) (stateDB p) (blockStore p) ev with
       | Some e => r = Some e /\ quiet p p'
       | None =>
           r = None /\
           ((exists evpb, EvidenceToProto ev = inl evpb /\ exists evBytes, Marshal evpb = inl evBytes) ->
            added L ev p p')
       end).
Proof.
  intros HL HR Hcase Hnc. unfold verifyAndAdd. apply wp_bind.
  apply (wp_mono _ _ (fun recheck p1 => recheck = true /\ quiet p p1)).
  { destruct (IsLightClientAttackEvidence ev) eqn:El.
    - apply wp_ret. split; [done|apply quiet_refl].
    - destruct Hcase as [?|Hnp]; [done|]. apply wp_bind.
      eapply wp_mono; [by apply (isPending_spec ev p L)|].
      simpl. intros b p1 (Hq & _ & _ & _ & Hb). apply wp_ret. split; [|done].
      rewrite (Hb HR), Hnp, bool_decide_eq_false_2; [done|by intros [??]]. }
  simpl. intros recheck p1 [-> Hq1].
  assert (HL1 : dbKeyLayout p1 = Some L) by (eapply frame_layout; [by apply quiet_frame|done]).
  assert (HR1 : db.reliable (evidenceStore p1))
    by (eapply frame_reliable; [by apply quiet_frame|done]).
  apply wp_bind. eapply wp_mono; [by apply (isCommitted_spec ev p1 L)|].
  simpl. intros b p2 (Hq2 & _ & _ & _ & Hb).
  pose proof Hq1 as ((He1 & Hw1 & _) & Hl1 & Hz1 & Hf1).
  rewrite (Hb HR1), He1, Hnc, bool_decide_eq_false_2 by (by intros [??]).
  assert (Hq : quiet p p2) by (by eapply quiet_trans).
  assert (HL2 : dbKeyLayout p2 = Some L) by (eapply frame_layout; [by apply quiet_frame|done]).
  assert (HR2 : db.reliable (evidenceStore p2))
    by (eapply frame_reliable; [by apply quiet_frame|done]).
  pose proof Hq as ((He2 & Hw2 & _) & Hl2 & Hz2 & Hf2).
  apply wp_bind, wp_get.
  assert (Hv : verify (State p2) (stateDB p2) (blockStore p2) ev
               = verify (State p) (stateDB p) (blockStore p) ev).
  { destruct Hf2 as (_ & -> & -> & Hs & _). unfold State. by rewrite Hs. }
  rewrite Hv. destruct (verify (State p) (stateDB p) (blockStore p) ev) as [e|].
  { apply wp_ret. split; [by apply quiet_frame|]. split; [done|]. done. }
  apply wp_bind. eapply wp_mono; [by apply (addPendingEvidence_spec ev p2 L)|].
  simpl. intros r p3 (Hf3 & Hl3 & _ & H3).
  apply wp_bind.
  apply (wp_mono _ _ (fun _ p4 => same_frame p3 p4 /\ evidenceList p4 = evidenceList p3 /\
           evidenceStore p4 = evidenceStore p3 /\ evidenceSize p4 = evidenceSize p3)).
  { destruct r; [apply wp_log; intros l|apply wp_ret].
    - split; [apply frame_set_logger|done].
    - split; [apply same_frame_refl|done]. }
  simpl. intros _ p4 (Hf4 & Hl4 & Hs4 & Hz4). apply wp_bind, wp_log. intros l. apply wp_ret.
  split.
  { eapply same_frame_trans; [exact Hf2|]. eapply same_frame_trans; [exact Hf3|].
    eapply same_frame_trans; [exact Hf4|apply frame_set_logger]. }
  split; [simpl; by rewrite Hl4, Hl3, Hl2|].
  split; [done|]. intros (evpb & E1 & evBytes & E2).
  destruct r as [e|].
  { destruct H3 as (_ & _ & Hcodec). destruct (Hcodec HR2 evpb E1) as [m Hm]. congruence. }
  destruct H3 as (evpb' & evBytes' & E1' & E2' & He3 & Hw3 & Hz3).
  exists evpb', evBytes'. simpl. rewrite Hs4, Hz4.
  split; [done|]. split; [done|]. split; [by rewrite He3, He2|].
  split; [by rewrite Hw3, Hw2|by rewrite Hz3, Hz2].
Qed.

(** X18. [CheckEvidence] returns the verdict of the verifier as it is: when
    the pieces before are pending duplicate vote evidence with distinct hashes
    and a piece that is light client attack evidence or not pending, and not
    committed, is rejected by the verifier with [e], the call returns [e]
    itself (not wrapped into an invalid evidence error, as [AddEvidence]
    does), whatever follows in the list, and writes nothing. *)
Theorem CheckEvidence_returns_verifier_error
    (l1 : list Evidence) (ev : Evidence) (rest : list Evidence) (p : Pool) (L : KeyLayout)
    (e : error) :
  dbKeyLayout p = Some L -> db.reliable (evidenceStore p) ->
  allPending L p l1 -> NoDup (map Hash l1) ->
  IsLightClientAttackEvidence ev = true \/
    entries (evidenceStore p) !! CalcKeyPending L ev = None ->
  entries (evidenceStore p) !! CalcKeyCommitted L ev = None ->
  verify (State p) (stateDB p) (blockStore p) ev = Some e ->
  exists p', CheckEvidence verify (l1 ++ ev :: rest) p = Ok (Some e) p' /\ quiet p p'.
Proof.
  intros HL HR Hall Hnd Hcase Hnc Hv.
  destruct (CheckEvidence_loop_pending L l1 [] (ev :: rest) p HL HR Hall Hnd)
    as (p1 & Hq & E).
  pose proof Hq as ((He & _) & _ & _ & Hf).
  assert (HL1 : dbKeyLayout p1 = Some L) by (by eapply frame_layout).
  assert (HR1 : db.reliable (evidenceStore p1)) by (by eapply frame_reliable).
  destruct (wp_elim _ _ _ (verifyAndAdd_checked ev p1 L HL1 HR1
              ltac:(by rewrite He) ltac:(by rewrite He))) as (r & p' & E' & _ & _ & H).
  assert (Hv1 : verify (State p1) (stateDB p1) (blockStore p1) ev = Some e).
  { destruct Hf as (_ & -> & -> & Hs & _). unfold State. by rewrite Hs. }
  rewrite Hv1 in H. destruct H as [-> Hq'].
  exists p'. split; [|by eapply quiet_trans].
  unfold CheckEvidence. rewrite E. simpl. unfold bind at 1. by rewrite E'.
Qed.

(** X19. Evidence that [CheckEvidence] verifies is stored and counted but
    not listed: when the last piece of a list is light client attack evidence
    or not pending, is not committed, is accepted by the verifier and can be
    marshalled, and the pieces before it are pending duplicate vote evidence,
    all hashes distinct, the call returns nil, the marshalled evidence is under
    the pending key and the size is one higher, while the list of the pool is
    as it was.  For light client attack evidence this holds also when the
    pending key was in the store already, so that the size grows and the
    number of pending entries does not. *)
Theorem CheckEvidence_stores_but_does_not_list
    (l1 : list Evidence) (ev : Evidence) (p : Pool) (L : KeyLayout)
    (evpb : EvidencePB) (evBytes : bytes) :
  dbKeyLayout p = Some L -> db.reliable (evidenceStore p) ->
  allPending L p l1 -> NoDup (map Hash (l1 ++ [ev])) ->
  IsLightClientAttackEvidence ev = true \/
    entries (evidenceStore p) !! CalcKeyPending L ev = None ->
  entries (evidenceStore p) !! CalcKeyCommitted L ev = None ->
  verify (State p) (stateDB p) (blockStore p) ev = None ->
  EvidenceToProto ev = inl evpb -> Marshal evpb = inl evBytes ->
  exists p', CheckEvidence verify (l1 ++ [ev]) p = Ok None p' /\
    entries (evidenceStore p') = <[CalcKeyPending L ev := evBytes]> (entries (evidenceStore p)) /\
    Size p' = uint32.add (Size p) 1 /\
    evidenceList p' = evidenceList p.
Proof.
  intros HL HR Hall Hnd Hcase Hnc Hv E1 E2.
  rewrite map_app in Hnd. pose proof Hnd as (Hnd1 & Hfresh & _)%NoDup_app.
  destruct (CheckEvidence_loop_pending L l1 [] [ev] p HL HR Hall Hnd1) as (p1 & Hq & E).
  pose proof Hq as ((He & _) & Hl & Hz & Hf).
  assert (HL1 : dbKeyLayout p1 = Some L) by (by eapply frame_layout).
  assert (HR1 : db.reliable (evidenceStore p1)) by (by eapply frame_reliable).
  destruct (wp_elim _ _ _ (verifyAndAdd_checked ev p1 L HL1 HR1
              ltac:(by rewrite He) ltac:(by rewrite He))) as (r & p' & E' & _ & Hl' & H).
  assert (Hv1 : verify (State p1) (stateDB p1) (blockStore p1) ev = None).
  { destruct Hf as (_ & -> & -> & Hs & _). unfold State. by rewrite Hs. }
  rewrite Hv1 in H. destruct H as [-> Hadd].
  destruct Hadd as (evpb' & evBytes' & E1' & E2' & He' & _ & Hz'); [eauto|].
  assert (evBytes' = evBytes) as -> by congruence.
  exists p'. split.
  - unfold CheckEvidence. rewrite E. simpl. unfold bind at 1. rewrite E'.
    assert (Hnew : existsb (String.eqb (Hash ev)) (map Hash l1) = false).
    { apply not_true_is_false. rewrite existsb_eqb_elem_of. intros Hin.
      apply (Hfresh _ Hin). simpl. by left. }
    by rewrite Hnew.
  - split; [by rewrite He', He|]. split; [unfold Size; by rewrite Hz', Hz|by rewrite Hl', Hl].
Qed.

(** ** When the store fails *)

(** X20. When the two lookups of [AddEvidence] succeed and the write that
    follows fails, the call returns the store's error, wrapped twice, and the
    evidence, though verified, is neither stored nor counted nor listed. *)
Theorem AddEvidence_write_failure_leaves_pool
    (ev : Evidence) (p : Pool) (L : KeyLayout) (evpb : EvidencePB) (evBytes : bytes) :
  dbKeyLayout p = Some L ->
  faulty (evidenceStore p) (clock (evidenceStore p)) = false ->
  faulty (evidenceStore p) (S (clock (evidenceStore p))) = false ->
  faulty (evidenceStore p) (S (S (clock (evidenceStore p)))) = true ->
  entries (evidenceStore p) !! CalcKeyPending L ev = None ->
  entries (evidenceStore p) !! CalcKeyCommitted L ev = None ->
  verify (State p) (stateDB p) (blockStore p) ev = None ->
  EvidenceToProto ev = inl evpb -> Marshal evpb = inl evBytes ->
  exists p',
    AddEvidence verify ev p
      = Ok (Some (Errorf "can't add evidence to pending list: %w"
                    (Errorf "can't persist evidence: %w" ErrDatabase))) p' /\
    quiet p p'.
Proof.
  intros HL H0 H1 H2 Hnp Hnc Hv E1 E2.
  cut (wp (AddEvidence verify ev) p (fun r p' =>
         r = Some (Errorf "can't add evidence to pending list: %w"
                     (Errorf "can't persist evidence: %w" ErrDatabase)) /\ quiet p p')).
  { intros (r & p' & E & -> & Hq)%wp_elim. eauto. }
  unfold AddEvidence. apply wp_bind, wp_log. intros l.
  unfold isPending. apply wp_bind, wp_bind, (wp_layout _ L); [done|].
  apply wp_bind, wp_store. intros r d E. simpl in E.
  unfold db.Has, db.op in E. rewrite H0 in E. injection E as <- <-.
  rewrite bool_decide_eq_false_2 by (simpl; rewrite Hnp; by intros [??]).
  apply wp_ret.
  unfold isCommitted. apply wp_bind, wp_bind, (wp_layout _ L); [done|].
  apply wp_bind, wp_store. intros r d E. simpl in E.
  unfold db.Has, db.op in E. simpl in E. rewrite H1 in E. injection E as <- <-.
  rewrite bool_decide_eq_false_2 by (simpl; rewrite Hnc; by intros [??]).
  apply wp_ret, wp_bind, wp_get. unfold State. simpl. unfold State in Hv. rewrite Hv.
  apply wp_bind. unfold addPendingEvidence. rewrite E1. simpl. rewrite E2. simpl.
  apply wp_bind, (wp_layout _ L); [done|].
  apply wp_bind, wp_store. intros r d E. simpl in E.
  unfold db.Set_, db.op in E. simpl in E. rewrite H2 in E. injection E as <- <-.
  apply wp_ret, wp_ret. split; [done|]. by repeat split.
Qed.

(** X21. When the store cannot iterate over the pending entries, the
    pruner deletes nothing and returns the height and time of the pool's state
    as the next pruning thresholds. *)
Theorem removeExpiredPendingEvidence_on_iterator_failure (p : Pool) (L : KeyLayout) :
  dbKeyLayout p = Some L ->
  faulty (evidenceStore p) (clock (evidenceStore p)) = true ->
  exists p',
    removeExpiredPendingEvidence p
      = Ok (LastBlockHeight (State p), LastBlockTime (State p)) p' /\
    quiet p p'.
Proof.
  intros HL H0.
  cut (wp removeExpiredPendingEvidence p (fun r p' =>
         r = (LastBlockHeight (State p), LastBlockTime (State p)) /\ quiet p p')).
  { intros (r & p' & E & -> & Hq)%wp_elim. eauto. }
  unfold removeExpiredPendingEvidence. apply wp_bind, (wp_layout _ L); [done|].
  apply wp_bind, wp_store. intros r d E.
  unfold db.IteratePrefix, db.op in E. rewrite H0 in E. injection E as <- <-.
  apply wp_bind, wp_log. intros l. apply wp_bind, wp_get, wp_ret.
  split; [done|]. by repeat split.
Qed.

(** ** Expiry and the passing of time *)

(** X22. Expired evidence stays expired: while the evidence parameters
    stay as they are and heights and time differences are in range, evidence
    that is expired for the pool's state is expired for every state that is
    not lower and not earlier. *)
Theorem isExpired_stays_expired (p : Pool) (newState : sm_State) (h : Z) (t : time.Time) :
  ConsensusParams_Evidence newState = ConsensusParams_Evidence (State p) ->
  0 <= h <= int64.max ->
  0 <= LastBlockHeight (State p) -> LastBlockHeight (State p) <= LastBlockHeight newState ->
  LastBlockHeight newState <= int64.max ->
  LastBlockTime (State p) <= LastBlockTime newState ->
  int64.in_range (LastBlockTime (State p) - t) ->
  int64.in_range (LastBlockTime newState - t) ->
  isExpired p h t = true -> isExpired (set_state newState p) h t = true.
Proof.
  intros Hpar Hh Hl0 Hl Hmax Ht Hr Hr'.
  rewrite (isExpired_exact p), (isExpired_exact (set_state newState p));
    unfold State in *; simpl; [|done|lia|done|done|lia|done].
  rewrite Hpar. lia.
Qed.

End Properties.

(** * The properties on concrete pools *)

(** [Update] with the height of the pool's own state. *)
Lemma Update_panics_on_height_regression_witness :
  LastBlockHeight (Toy.stateAt 8 9) <= LastBlockHeight (state Toy.fresh) /\
  exists msg, Update (Toy.stateAt 8 9) [] Toy.fresh
              = Panic msg Toy.fresh.
Proof.
  split; [simpl; lia|].
  apply (Update_panics_on_height_regression Toy.fresh
           (Toy.stateAt 8 9) []).
  simpl. lia.
Defined.

(** Keys of evidence at heights 5 and 30. *)
Lemma v1_pending_key_order_follows_height_witness :
  0 <= Height Toy.old /\ Height Toy.old < Height Toy.recent /\ Height Toy.recent <= int64.max /\
  bytes_lt (CalcKeyPending v1LegacyLayout Toy.old) (CalcKeyPending v1LegacyLayout Toy.recent).
Proof.
  assert (H1 : 0 <= Height Toy.old) by (simpl; lia).
  assert (H2 : Height Toy.old < Height Toy.recent) by (simpl; lia).
  assert (H3 : Height Toy.recent <= int64.max) by (unfold int64.max; simpl; lia).
  split; [exact H1|]. split; [exact H2|]. split; [exact H3|].
  exact (proj1 v1_pending_key_order_follows_height Toy.old Toy.recent H1 H2 H3).
Defined.

(** Two pieces of evidence at height 1: the key of the first is above the key
    of the second, because its hash is. *)
Lemma v1_pending_key_equal_heights_by_hash :
  0 <= Height Toy.first_B /\ Height Toy.first_B <= Height Toy.then_A /\
  Height Toy.then_A <= int64.max /\
  ~ bytes_le (CalcKeyPending v1LegacyLayout Toy.first_B) (CalcKeyPending v1LegacyLayout Toy.then_A).
Proof.
  split; [simpl; lia|]. split; [simpl; lia|]. split; [unfold int64.max; simpl; lia|].
  unfold bytes_le. intros H. apply H. vm_compute. reflexivity.
Defined.

(** A buffer with votes of the new height and votes of a later height. *)
Lemma Update_empties_consensus_buffer_witness :
  dbKeyLayout Toy.buffered = Some v1LegacyLayout /\
  LastBlockHeight (state Toy.buffered) < LastBlockHeight (Toy.stateAt 41 400) /\
  exists p', Update (Toy.stateAt 41 400) [] Toy.buffered = Ok tt p' /\ consensusBuffer p' = [].
Proof.
  assert (HL : dbKeyLayout Toy.buffered = Some v1LegacyLayout) by reflexivity.
  assert (Hh : LastBlockHeight (state Toy.buffered) < LastBlockHeight (Toy.stateAt 41 400))
    by (simpl; lia).
  split; [exact HL|]. split; [exact Hh|].
  exact (proj1 (proj2 (Update_empties_consensus_buffer (Toy.stateAt 41 400) [] Toy.buffered
                         v1LegacyLayout HL)) Hh).
Defined.

(** A store with one pending entry and no version record, opened with v2. *)
Lemma setDBLayout_selects_and_records_witness :
  db.reliable (evidenceStore Toy.unversioned) /\
  exists p', setDBLayout "v2" Toy.unversioned = Ok tt p' /\ dbKeyLayout p' = Some v2Layout /\
    entries (evidenceStore p') = <["version" := "v2"]> (entries (evidenceStore Toy.unversioned)) /\
    writes (evidenceStore p') = writes (evidenceStore Toy.unversioned) ++ [WSetSync "version" "v2"].
Proof.
  assert (HR : db.reliable (evidenceStore Toy.unversioned)) by (intros n; reflexivity).
  split; [exact HR|].
  exact (proj2 (proj2 (setDBLayout_selects_and_records "v2" Toy.unversioned HR))).
Defined.

(** The same store: the claim asks for v1, the code installs v2. *)
Lemma setDBLayout_unversioned_nonempty_store_uses_request :
  entries (evidenceStore Toy.unversioned) <> ∅ /\
  entries (evidenceStore Toy.unversioned) !! "version" = None /\
  exists p', setDBLayout "v2" Toy.unversioned = Ok tt p' /\
    dbKeyLayout p' = Some v2Layout /\ dbKeyLayout p' <> Some v1LegacyLayout /\
    entries (evidenceStore p') !! "version" = Some "v2".
Proof.
  split.
  { intros H. apply (f_equal (fun m : gmap string string => m !! (Toy.entry Toy.old).1)) in H.
    vm_compute in H. discriminate H. }
  split; [vm_compute; reflexivity|].
  destruct (setDBLayout_spec "v2" Toy.unversioned ltac:(intros n; reflexivity)) as (p' & E & HL & He & _).
  exists p'. split; [exact E|]. split; [exact HL|]. split.
  - rewrite HL. intros H.
    assert (H' := f_equal (fun o : option KeyLayout =>
                             match o with
                             | Some l => PrefixToBytesPending l
                             | None => EmptyString
                             end) H).
    vm_compute in H'. discriminate H'.
  - rewrite He. apply lookup_insert_eq.
Defined.

(** [old] is pending: adding it again returns nil even with the verifier
    that rejects everything, and adding it twice leaves the size alone. *)
Lemma AddEvidence_known_is_noop_and_idempotent_witness :
  alreadyPending Toy.old Toy.twoPending /\
  (exists p', AddEvidence Toy.reject Toy.old Toy.twoPending = Ok None p' /\
              quiet Toy.twoPending p') /\
  dbKeyLayout Toy.twoPending = Some v1LegacyLayout /\
  db.reliable (evidenceStore Toy.twoPending) /\
  exists r1 p1 r2 p2,
    AddEvidence Toy.reject Toy.old Toy.twoPending = Ok r1 p1 /\
    AddEvidence Toy.reject Toy.old p1 = Ok r2 p2 /\ Size p2 = Size p1.
Proof.
  assert (Hp : alreadyPending Toy.old Toy.twoPending).
  { unfold alreadyPending.
    destruct (@isPending Toy.externals Toy.old Toy.twoPending) as [b p1|msg p1] eqn:E.
    - assert (H := f_equal (fun o : outcome bool =>
                              match o with
                              | Ok b _ => Some b
                              | Panic _ _ => None
                              end) E).
      vm_compute in H. injection H as Hb. exists p1. by rewrite <- Hb.
    - assert (H := f_equal (fun o : outcome bool =>
                              match o with
                              | Ok _ _ => true
                              | Panic _ _ => false
                              end) E).
      vm_compute in H. discriminate H. }
  assert (HL : dbKeyLayout Toy.twoPending = Some v1LegacyLayout) by reflexivity.
  assert (HR : db.reliable (evidenceStore Toy.twoPending)) by (intros n; reflexivity).
  destruct (AddEvidence_known_is_noop_and_idempotent Toy.reject Toy.old Toy.twoPending)
    as [H1 H2].
  split; [exact Hp|]. split; [exact (H1 (or_introl Hp))|]. split; [exact HL|].
  split; [exact HR|]. exact (H2 v1LegacyLayout HL HR).
Defined.

(** The scan over [old], which is expired, and [recent], which is not. *)
Lemma removeExpiredPendingEvidence_prunes_until_first_live_witness :
  dbKeyLayout Toy.twoPending = Some v1LegacyLayout /\
  db.reliable (evidenceStore Toy.twoPending) /\
  exists r p', removeExpiredPendingEvidence Toy.twoPending = Ok r p'.
Proof.
  assert (HL : dbKeyLayout Toy.twoPending = Some v1LegacyLayout) by reflexivity.
  assert (HR : db.reliable (evidenceStore Toy.twoPending)) by (intros n; reflexivity).
  split; [exact HL|]. split; [exact HR|].
  destruct (removeExpiredPendingEvidence_prunes_until_first_live Toy.twoPending
              v1LegacyLayout HL HR) as (expired & first & rest & p' & _ & _ & _ & E & _).
  eauto.
Defined.

(** Listing two pending entries with a limit of eight bytes. *)
Lemma PendingEvidence_within_limit_in_order_witness :
  dbKeyLayout Toy.twoPending = Some v1LegacyLayout /\
  db.reliable (evidenceStore Toy.twoPending) /\
  Forall2 decodes
    (prefixEntries (PrefixToBytesPending v1LegacyLayout) (entries (evidenceStore Toy.twoPending)))
    [(Toy.old, Toy.old); (Toy.recent, Toy.recent)] /\
  (Size Toy.twoPending = 0 -> [(Toy.old, Toy.old); (Toy.recent, Toy.recent)] = []) /\
  exists r p', PendingEvidence 8 Toy.twoPending = Ok r p' /\ r.2 <= 8.
Proof.
  assert (HL : dbKeyLayout Toy.twoPending = Some v1LegacyLayout) by reflexivity.
  assert (HR : db.reliable (evidenceStore Toy.twoPending)) by (intros n; reflexivity).
  assert (Hd : Forall2 decodes
            (prefixEntries (PrefixToBytesPending v1LegacyLayout)
               (entries (evidenceStore Toy.twoPending)))
            [(Toy.old, Toy.old); (Toy.recent, Toy.recent)]).
  { assert (E : prefixEntries (PrefixToBytesPending v1LegacyLayout)
                  (entries (evidenceStore Toy.twoPending))
                = [Toy.entry Toy.old; Toy.entry Toy.recent]) by (vm_compute; reflexivity).
    rewrite E. repeat constructor. }
  assert (Hs : Size Toy.twoPending = 0 -> [(Toy.old, Toy.old); (Toy.recent, Toy.recent)] = [])
    by (vm_compute; discriminate).
  split; [exact HL|]. split; [exact HR|]. split; [exact Hd|]. split; [exact Hs|].
  destruct (PendingEvidence_within_limit_in_order 8 Toy.twoPending v1LegacyLayout
              [(Toy.old, Toy.old); (Toy.recent, Toy.recent)] HL) as [(r & p' & E & _ & Hb) H2].
  destruct (H2 HR Hd Hs) as (n & p'' & E' & _).
  exists r, p'. split; [exact E|]. apply Hb. lia.
Defined.

(** A list that holds [old] twice, in a pool where [old] is pending. *)
Lemma CheckEvidence_repeated_hash_witness :
  dbKeyLayout Toy.twoPending = Some v1LegacyLayout /\
  (exists (i j : nat) e1 e2, (i < j)%nat /\ [Toy.old; Toy.old] !! i = Some e1 /\
     [Toy.old; Toy.old] !! j = Some e2 /\ Hash e1 = Hash e2) /\
  exists r p', CheckEvidence Toy.accept [Toy.old; Toy.old] Toy.twoPending = Ok r p' /\
               r <> None.
Proof.
  assert (HL : dbKeyLayout Toy.twoPending = Some v1LegacyLayout) by reflexivity.
  assert (Hrep : exists (i j : nat) e1 e2, (i < j)%nat /\ [Toy.old; Toy.old] !! i = Some e1 /\
            [Toy.old; Toy.old] !! j = Some e2 /\ Hash e1 = Hash e2).
  { exists 0%nat, 1%nat, Toy.old, Toy.old. repeat split. lia. }
  split; [exact HL|]. split; [exact Hrep|].
  destruct (CheckEvidence_repeated_hash Toy.accept [Toy.old; Toy.old] Toy.twoPending
              v1LegacyLayout HL Hrep)
    as (l1 & ev & l2 & r & p' & ws & _ & _ & _ & E & Hne & _).
  eauto.
Defined.

(** The list that holds [old] twice, in an empty pool: the first occurrence
    is verified and written to the pending keys before the second is found to
    repeat it.  The claim asks for no write. *)
Lemma CheckEvidence_writes_before_duplicate_found :
  writes (evidenceStore Toy.fresh) = [] /\
  exists p', CheckEvidence Toy.accept [Toy.old; Toy.old] Toy.fresh
               = Ok (Some (ErrInvalidEvidence Toy.old ErrDuplicateEvidence)) p' /\
    writes (evidenceStore p') = [WSet (Toy.entry Toy.old).1 (Toy.entry Toy.old).2] /\
    writes (evidenceStore p') <> writes (evidenceStore Toy.fresh).
Proof.
  split; [reflexivity|].
  destruct (CheckEvidence Toy.accept [Toy.old; Toy.old] Toy.fresh) as [r p'|msg p'] eqn:E.
  - assert (H := f_equal (fun o : outcome (option error) =>
                            match o with
                            | Ok r p => Some (r, writes (evidenceStore p))
                            | Panic _ _ => None
                            end) E).
    vm_compute in H. injection H as Hr Hw.
    assert (Hw' : writes (evidenceStore p')
                  = [WSet (Toy.entry Toy.old).1 (Toy.entry Toy.old).2])
      by (symmetry; exact Hw).
    exists p'. split; [by rewrite <- Hr|]. split; [exact Hw'|].
    rewrite Hw'. discriminate.
  - assert (H := f_equal (fun o : outcome (option error) =>
                            match o with
                            | Ok _ _ => true
                            | Panic _ _ => false
                            end) E).
    vm_compute in H. discriminate H.
Defined.

(** With the verifier that rejects, the same list gets the verifier's
    error, not the duplicate evidence error. *)
Lemma CheckEvidence_rejected_before_duplicate_found :
  exists p', CheckEvidence Toy.reject [Toy.old; Toy.old] Toy.fresh
               = Ok (Some (ErrExternal "rejected")) p'.
Proof.
  destruct (CheckEvidence Toy.reject [Toy.old; Toy.old] Toy.fresh) as [r p'|msg p'] eqn:E.
  - assert (H := f_equal (fun o : outcome (option error) =>
                            match o with
                            | Ok r p => Some r
                            | Panic _ _ => None
                            end) E).
    vm_compute in H. injection H as Hr. exists p'. by rewrite <- Hr.
  - assert (H := f_equal (fun o : outcome (option error) =>
                            match o with
                            | Ok _ _ => true
                            | Panic _ _ => false
                            end) E).
    vm_compute in H. discriminate H.
Defined.

Lemma Toy_corrupt_canonical : canonical v1LegacyLayout (entries (db.mem Toy.corrupt)).
Proof.
  intros key value ev Hk _ Hd. simpl in Hk.
  apply elem_of_map_to_list in Hk.
  set (l := map_to_list Toy.corrupt) in Hk. vm_compute in l. subst l.
  repeat (apply elem_of_cons in Hk as [Hk|Hk]); try (by apply elem_of_nil in Hk);
    injection Hk as -> ->; vm_compute in Hd; [discriminate Hd|].
  injection Hd as <-. reflexivity.
Defined.

(** Opening a pool over a store with the entry of [recent] and an entry that
    does not decode. *)
Lemma NewPool_fails_on_undecodable_entry_witness :
  Load (Toy.stateStore Toy.now) = inl Toy.now /\
  db.reliable (db.mem Toy.corrupt) /\
  layoutOf (selectedVersion "v1" (db.mem Toy.corrupt)) = Some (v1LegacyLayout, "v1") /\
  HasPrefix "version" (PrefixToBytesPending v1LegacyLayout) = false /\
  canonical v1LegacyLayout (entries (db.mem Toy.corrupt)) /\
  entries (db.mem Toy.corrupt) !! Toy.badKey = Some "x" /\
  HasPrefix Toy.badKey (PrefixToBytesPending v1LegacyLayout) = true /\
  bytesToEv "x" = inr (ErrExternal "unexpected end of input") /\
  exists e' evidenceDB',
    NewPool (db.mem Toy.corrupt) (Toy.stateStore Toy.now) Toy.blocks [] = NewPoolErr e' evidenceDB' /\
    entries evidenceDB' !! Toy.badKey = Some "x".
Proof.
  assert (H1 : Load (Toy.stateStore Toy.now) = inl Toy.now) by reflexivity.
  assert (H2 : db.reliable (db.mem Toy.corrupt)) by (intros n; reflexivity).
  assert (H3 : layoutOf (selectedVersion "v1" (db.mem Toy.corrupt))
               = Some (v1LegacyLayout, "v1")) by reflexivity.
  assert (H4 : HasPrefix "version" (PrefixToBytesPending v1LegacyLayout) = false)
    by reflexivity.
  assert (H6 : entries (db.mem Toy.corrupt) !! Toy.badKey = Some "x")
    by (vm_compute; reflexivity).
  assert (H7 : HasPrefix Toy.badKey (PrefixToBytesPending v1LegacyLayout) = true)
    by reflexivity.
  assert (H8 : bytesToEv "x" = inr (ErrExternal "unexpected end of input")) by reflexivity.
  repeat (split; [first [exact H1|exact H2|exact H3|exact H4|exact Toy_corrupt_canonical
                        |exact H6|exact H7|exact H8]|]).
  exact (NewPool_fails_on_undecodable_entry (db.mem Toy.corrupt) (Toy.stateStore Toy.now)
           Toy.blocks Toy.now v1LegacyLayout "v1" Toy.badKey "x"
           (ErrExternal "unexpected end of input")
           H1 H2 H3 H4 Toy_corrupt_canonical H6 H7 H8).
Defined.

(** The same store: [NewPool] returns the error of the entry that does not
    decode, and no pool, although the entry of [recent] decodes.  The claim
    asks for a pool with the remaining entries. *)
Lemma NewPool_returns_error_for_undecodable_entry :
  (exists ev, bytesToEv (Toy.entry Toy.recent).2 = inl ev /\
     Toy.corrupt !! (Toy.entry Toy.recent).1 = Some (Toy.entry Toy.recent).2) /\
  (exists evidenceDB',
     NewPool (db.mem Toy.corrupt) (Toy.stateStore Toy.now) Toy.blocks []
       = NewPoolErr (ErrExternal "unexpected end of input") evidenceDB') /\
  forall pool,
    NewPool (db.mem Toy.corrupt) (Toy.stateStore Toy.now) Toy.blocks [] <> NewPoolOk pool.
Proof.
  split.
  { exists Toy.recent. split; [reflexivity|vm_compute; reflexivity]. }
  destruct (NewPool (db.mem Toy.corrupt) (Toy.stateStore Toy.now) Toy.blocks [])
    as [pool|e d|msg d] eqn:E.
  - assert (H := f_equal (fun r : NewPoolResult =>
                            match r with
                            | NewPoolOk _ => 0
                            | NewPoolErr _ _ => 1
                            | NewPoolPanic _ _ => 2
                            end) E).
    vm_compute in H. discriminate H.
  - assert (H := f_equal (fun r : NewPoolResult =>
                            match r with
                            | NewPoolErr (ErrExternal msg) _ => msg
                            | _ => EmptyString
                            end) E).
    vm_compute in H.
    destruct e as [msg| | | | | | |]; try discriminate H. subst msg.
    split; [by exists d|]. intros pool. discriminate.
  - assert (H := f_equal (fun r : NewPoolResult =>
                            match r with
                            | NewPoolOk _ => 0
                            | NewPoolErr _ _ => 1
                            | NewPoolPanic _ _ => 2
                            end) E).
    vm_compute in H. discriminate H.
Defined.

(** * The further properties on concrete pools *)

(** [old] and a piece that differs from it in time and kind have one key. *)
Lemma v1_keys_identify_height_and_hash_witness :
  0 <= Height Toy.old <= int64.max /\ 0 <= Height Toy.old_again <= int64.max /\
  CalcKeyPending v1LegacyLayout Toy.old = CalcKeyPending v1LegacyLayout Toy.old_again /\
  Height Toy.old = Height Toy.old_again /\ Hash Toy.old = Hash Toy.old_again.
Proof.
  assert (H1 : 0 <= Height Toy.old <= int64.max) by (unfold int64.max; simpl; lia).
  assert (H2 : 0 <= Height Toy.old_again <= int64.max) by (unfold int64.max; simpl; lia).
  assert (H3 : CalcKeyPending v1LegacyLayout Toy.old
               = CalcKeyPending v1LegacyLayout Toy.old_again) by reflexivity.
  split; [exact H1|]. split; [exact H2|]. split; [exact H3|].
  exact (v1_keys_identify_height_and_hash (Ext := Toy.externals) Toy.old Toy.old_again H1 H2 (or_introl H3)).
Defined.

(** Heights -7, -3 and 5: the keys are in the order -3, -7, 5. *)
Lemma v1_pending_key_order_negative_heights_witness :
  int64.min <= Height Toy.lower /\ Height Toy.lower < 0 /\
  0 <= Height Toy.old /\ Height Toy.lower < Height Toy.below /\ Height Toy.below < 0 /\
  bytes_lt (CalcKeyPending v1LegacyLayout Toy.lower) (CalcKeyPending v1LegacyLayout Toy.old) /\
  bytes_lt (CalcKeyPending v1LegacyLayout Toy.below) (CalcKeyPending v1LegacyLayout Toy.lower).
Proof.
  assert (H1 : int64.min <= Height Toy.lower) by (unfold int64.min; simpl; lia).
  assert (H2 : Height Toy.lower < 0) by (simpl; lia).
  assert (H3 : 0 <= Height Toy.old) by (simpl; lia).
  assert (H4 : Height Toy.lower < Height Toy.below) by (simpl; lia).
  assert (H5 : Height Toy.below < 0) by (simpl; lia).
  split; [exact H1|]. split; [exact H2|]. split; [exact H3|]. split; [exact H4|].
  split; [exact H5|]. split.
  - exact (proj1 (v1_pending_key_order_negative_heights (Ext := Toy.externals) Toy.lower Toy.old H1 H2) H3).
  - exact (proj2 (v1_pending_key_order_negative_heights (Ext := Toy.externals) Toy.lower Toy.below H1 H2) H4 H5).
Defined.

(** Writing [old] into the empty pool. *)
Lemma addPendingEvidence_then_isPending_witness :
  dbKeyLayout Toy.fresh = Some v1LegacyLayout /\ db.reliable (evidenceStore Toy.fresh) /\
  exists r p1, addPendingEvidence Toy.old Toy.fresh = Ok r p1.
Proof.
  assert (HL : dbKeyLayout Toy.fresh = Some v1LegacyLayout) by reflexivity.
  assert (HR : db.reliable (evidenceStore Toy.fresh)) by (intros n; reflexivity).
  split; [exact HL|]. split; [exact HR|].
  destruct (addPendingEvidence_then_isPending (Ext := Toy.externals) Toy.old Toy.fresh v1LegacyLayout HL HR)
    as (r & p1 & E & _).
  eauto.
Defined.

(** Writing [old] into the empty pool and deleting it again. *)
Lemma removePendingEvidence_undoes_add_witness :
  dbKeyLayout Toy.fresh = Some v1LegacyLayout /\ db.reliable (evidenceStore Toy.fresh) /\
  entries (evidenceStore Toy.fresh) !! CalcKeyPending v1LegacyLayout Toy.old = None /\
  0 <= evidenceSize Toy.fresh < 2 ^ 32 /\
  exists p1, addPendingEvidence Toy.old Toy.fresh = Ok None p1 /\
    exists p2, removePendingEvidence Toy.old p1 = Ok tt p2 /\
      entries (evidenceStore p2) = entries (evidenceStore Toy.fresh) /\
      evidenceSize p2 = evidenceSize Toy.fresh /\ evidenceList p2 = evidenceList Toy.fresh.
Proof.
  assert (HL : dbKeyLayout Toy.fresh = Some v1LegacyLayout) by reflexivity.
  assert (HR : db.reliable (evidenceStore Toy.fresh)) by (intros n; reflexivity).
  assert (Hk : entries (evidenceStore Toy.fresh) !! CalcKeyPending v1LegacyLayout Toy.old = None)
    by reflexivity.
  assert (Hz : 0 <= evidenceSize Toy.fresh < 2 ^ 32) by (simpl; lia).
  split; [exact HL|]. split; [exact HR|]. split; [exact Hk|]. split; [exact Hz|].
  destruct (@addPendingEvidence Toy.externals Toy.old Toy.fresh) as [r p1|msg p1] eqn:E.
  - assert (H := f_equal (fun o : outcome (option error) =>
                            match o with
                            | Ok (Some _) _ => 1
                            | Ok None _ => 0
                            | Panic _ _ => 2
                            end) E).
    vm_compute in H. destruct r as [e|]; [discriminate H|].
    exists p1. split; [reflexivity|].
    exact (removePendingEvidence_undoes_add (Ext := Toy.externals) Toy.old Toy.fresh p1 v1LegacyLayout HL HR Hk Hz E).
  - assert (H := f_equal (fun o : outcome (option error) =>
                            match o with
                            | Ok _ _ => true
                            | Panic _ _ => false
                            end) E).
    vm_compute in H. discriminate H.
Defined.

(** Deleting [old] from the empty pool: the size wraps around. *)
Lemma removePendingEvidence_of_absent_key_witness :
  dbKeyLayout Toy.fresh = Some v1LegacyLayout /\ db.reliable (evidenceStore Toy.fresh) /\
  entries (evidenceStore Toy.fresh) !! CalcKeyPending v1LegacyLayout Toy.old = None /\
  exists p', removePendingEvidence Toy.old Toy.fresh = Ok tt p' /\
    evidenceSize p' = 4294967295.
Proof.
  assert (HL : dbKeyLayout Toy.fresh = Some v1LegacyLayout) by reflexivity.
  assert (HR : db.reliable (evidenceStore Toy.fresh)) by (intros n; reflexivity).
  assert (Hk : entries (evidenceStore Toy.fresh) !! CalcKeyPending v1LegacyLayout Toy.old = None)
    by reflexivity.
  split; [exact HL|]. split; [exact HR|]. split; [exact Hk|].
  destruct (removePendingEvidence_of_absent_key (Ext := Toy.externals) Toy.old Toy.fresh v1LegacyLayout HL HR Hk)
    as (p' & E & _ & _ & _ & Hz).
  exists p'. split; [exact E|]. apply Hz. reflexivity.
Defined.

(** Adding [old] to the empty pool, with the verifier that accepts. *)
Lemma AddEvidence_rejects_or_adds_witness :
  dbKeyLayout Toy.fresh = Some v1LegacyLayout /\ db.reliable (evidenceStore Toy.fresh) /\
  entries (evidenceStore Toy.fresh) !! CalcKeyPending v1LegacyLayout Toy.old = None /\
  entries (evidenceStore Toy.fresh) !! CalcKeyCommitted v1LegacyLayout Toy.old = None /\
  exists p', AddEvidence Toy.accept Toy.old Toy.fresh = Ok None p' /\
    evidenceList p' = [Toy.old].
Proof.
  assert (HL : dbKeyLayout Toy.fresh = Some v1LegacyLayout) by reflexivity.
  assert (HR : db.reliable (evidenceStore Toy.fresh)) by (intros n; reflexivity).
  assert (Hk : entries (evidenceStore Toy.fresh) !! CalcKeyPending v1LegacyLayout Toy.old = None)
    by reflexivity.
  assert (Hc : entries (evidenceStore Toy.fresh) !! CalcKeyCommitted v1LegacyLayout Toy.old = None)
    by reflexivity.
  split; [exact HL|]. split; [exact HR|]. split; [exact Hk|]. split; [exact Hc|].
  destruct (proj2 (AddEvidence_rejects_or_adds (Ext := Toy.externals) Toy.accept Toy.old Toy.fresh v1LegacyLayout
                     HL HR Hk Hc) Toy.old (Toy.entry Toy.old).2 eq_refl eq_refl eq_refl)
    as (p' & E & _ & _ & Hl).
  exists p'. split; [exact E|exact Hl].
Defined.

Lemma Toy_heightsMarshal (evs : list Toy.Ev) : heightsMarshal (Ext := Toy.externals) evs.
Proof. intros ev _. eexists. reflexivity. Defined.

(** Committing [old], which is pending. *)
Lemma markEvidenceAsCommitted_moves_keys_witness :
  dbKeyLayout Toy.twoPending = Some v1LegacyLayout /\
  db.reliable (evidenceStore Toy.twoPending) /\
  keysDisjoint v1LegacyLayout /\ heightsMarshal [Toy.old] /\
  exists p', markEvidenceAsCommitted [Toy.old] Toy.twoPending = Ok tt p' /\
    is_Some (entries (evidenceStore p') !! CalcKeyCommitted v1LegacyLayout Toy.old) /\
    entries (evidenceStore p') !! CalcKeyPending v1LegacyLayout Toy.old = None.
Proof.
  assert (HL : dbKeyLayout Toy.twoPending = Some v1LegacyLayout) by reflexivity.
  assert (HR : db.reliable (evidenceStore Toy.twoPending)) by (intros n; reflexivity).
  split; [exact HL|]. split; [exact HR|]. split; [exact v1_keysDisjoint|].
  split; [exact (Toy_heightsMarshal [Toy.old])|].
  destruct (markEvidenceAsCommitted_moves_keys (Ext := Toy.externals) [Toy.old] Toy.twoPending
              v1LegacyLayout HL HR v1_keysDisjoint (Toy_heightsMarshal [Toy.old]))
    as (p' & E & Hcom & _).
  exists p'. split; [exact E|]. apply Hcom. left.
Defined.

(** An update to height 41 with a block that holds [old]. *)
Lemma Update_commits_block_evidence_witness :
  dbKeyLayout Toy.twoPending = Some v1LegacyLayout /\
  db.reliable (evidenceStore Toy.twoPending) /\
  keysDisjoint v1LegacyLayout /\ heightsMarshal [Toy.old] /\
  LastBlockHeight (state Toy.twoPending) < LastBlockHeight (Toy.stateAt 41 400) /\
  exists p', Update (Toy.stateAt 41 400) [Toy.old] Toy.twoPending = Ok tt p' /\
    (exists q, isCommitted Toy.old p' = Ok true q) /\
    (exists q, isPending Toy.old p' = Ok false q).
Proof.
  assert (HL : dbKeyLayout Toy.twoPending = Some v1LegacyLayout) by reflexivity.
  assert (HR : db.reliable (evidenceStore Toy.twoPending)) by (intros n; reflexivity).
  assert (Hh : LastBlockHeight (state Toy.twoPending) < LastBlockHeight (Toy.stateAt 41 400))
    by (simpl; lia).
  split; [exact HL|]. split; [exact HR|]. split; [exact v1_keysDisjoint|].
  split; [exact (Toy_heightsMarshal [Toy.old])|]. split; [exact Hh|].
  destruct (Update_commits_block_evidence (Ext := Toy.externals) (Toy.stateAt 41 400)
              [Toy.old] Toy.twoPending v1LegacyLayout HL HR v1_keysDisjoint
              (Toy_heightsMarshal [Toy.old]) Hh)
    as (p' & E & _ & H).
  exists p'. split; [exact E|]. apply H. left.
Defined.

(** The scan stopped at [recent] (height 30, time 200); at height 45, two
    seconds later, pruning is due and [recent] is expired. *)
Lemma pruning_due_only_after_first_live_entry_expired_witness :
  ConsensusParams_Evidence (Toy.stateAt 45 2000000200)
    = ConsensusParams_Evidence (State Toy.twoPending) /\
  0 <= Height Toy.recent /\
  0 <= MaxAgeNumBlocks (ConsensusParams_Evidence (State Toy.twoPending)) /\
  Height Toy.recent + MaxAgeNumBlocks (ConsensusParams_Evidence (State Toy.twoPending)) + 1
    <= int64.max /\
  0 <= LastBlockHeight (Toy.stateAt 45 2000000200) <= int64.max /\
  int64.in_range (LastBlockTime (Toy.stateAt 45 2000000200) - Time Toy.recent) /\
  isExpired (set_state (Toy.stateAt 45 2000000200) Toy.twoPending)
    (Height Toy.recent) (Time Toy.recent) = true.
Proof.
  assert (H1 : ConsensusParams_Evidence (Toy.stateAt 45 2000000200)
               = ConsensusParams_Evidence (State Toy.twoPending)) by reflexivity.
  assert (H2 : 0 <= Height Toy.recent) by (simpl; lia).
  assert (H3 : 0 <= MaxAgeNumBlocks (ConsensusParams_Evidence (State Toy.twoPending)))
    by (simpl; lia).
  assert (H4 : Height Toy.recent
                 + MaxAgeNumBlocks (ConsensusParams_Evidence (State Toy.twoPending)) + 1
               <= int64.max) by (unfold int64.max; simpl; lia).
  assert (H5 : 0 <= LastBlockHeight (Toy.stateAt 45 2000000200) <= int64.max)
    by (unfold int64.max; simpl; lia).
  assert (H6 : int64.in_range (LastBlockTime (Toy.stateAt 45 2000000200) - Time Toy.recent))
    by (unfold int64.in_range, int64.min, int64.max; simpl; lia).
  split; [exact H1|]. split; [exact H2|]. split; [exact H3|]. split; [exact H4|].
  split; [exact H5|]. split; [exact H6|].
  exact (proj2 (proj2 (proj1 (pruning_due_only_after_first_live_entry_expired
                                (Ext := Toy.externals) Toy.twoPending Toy.recent
                                (Toy.stateAt 45 2000000200) H1 H2 H3 H4 H5 H6)
                         eq_refl))).
Defined.

(** The store without version record is opened with v2; a later request for
    v1 still installs v2. *)
Lemma setDBLayout_recorded_version_wins_witness :
  db.reliable (evidenceStore Toy.unversioned) /\
  exists p1, setDBLayout "v2" Toy.unversioned = Ok tt p1 /\
    db.reliable (evidenceStore p1) /\
    exists q1, setDBLayout "v1" p1 = Ok tt q1 /\ dbKeyLayout q1 = Some v2Layout.
Proof.
  assert (HR : db.reliable (evidenceStore Toy.unversioned)) by (intros n; reflexivity).
  split; [exact HR|].
  destruct (setDBLayout_spec "v2" Toy.unversioned HR) as (p1 & E & HL & _ & _ & Hf & _).
  assert (HR1 : db.reliable (evidenceStore p1)).
  { intros n. destruct Hf as (Hfa & _). rewrite Hfa. reflexivity. }
  exists p1. split; [exact E|]. split; [exact HR1|].
  destruct (setDBLayout_recorded_version_wins (Ext := Toy.externals) "v2" "v1"
              Toy.unversioned p1 p1 HR E HR1 eq_refl) as (q1 & E1 & HL1 & _).
  exists q1. split; [exact E1|]. rewrite HL1. exact HL.
Defined.

Lemma Toy_twoPending_allPending :
  allPending v1LegacyLayout Toy.twoPending [Toy.old; Toy.recent].
Proof.
  intros ev Hin. apply elem_of_cons in Hin as [->|Hin].
  { split; [reflexivity|]. exists (Toy.entry Toy.old).2. vm_compute. reflexivity. }
  apply elem_of_cons in Hin as [->|Hin].
  { split; [reflexivity|]. exists (Toy.entry Toy.recent).2. vm_compute. reflexivity. }
  by apply elem_of_nil in Hin.
Defined.

Lemma Toy_twoPending_NoDup : NoDup (map Hash [Toy.old; Toy.recent]).
Proof.
  simpl. apply NoDup_cons. split.
  - intros Hin. apply elem_of_cons in Hin as [Hin|Hin]; [discriminate Hin|].
    by apply elem_of_nil in Hin.
  - apply NoDup_cons. split; [by intros ?%elem_of_nil|apply NoDup_nil_2].
Defined.

(** [old] and [recent] are pending: the verifier that rejects everything is
    not heard. *)
Lemma CheckEvidence_accepts_pending_unverified_witness :
  dbKeyLayout Toy.twoPending = Some v1LegacyLayout /\
  db.reliable (evidenceStore Toy.twoPending) /\
  allPending v1LegacyLayout Toy.twoPending [Toy.old; Toy.recent] /\
  NoDup (map Hash [Toy.old; Toy.recent]) /\
  exists p', CheckEvidence Toy.reject [Toy.old; Toy.recent] Toy.twoPending = Ok None p'.
Proof.
  assert (HL : dbKeyLayout Toy.twoPending = Some v1LegacyLayout) by reflexivity.
  assert (HR : db.reliable (evidenceStore Toy.twoPending)) by (intros n; reflexivity).
  split; [exact HL|]. split; [exact HR|]. split; [exact Toy_twoPending_allPending|].
  split; [exact Toy_twoPending_NoDup|].
  destruct (CheckEvidence_accepts_pending_unverified (Ext := Toy.externals) Toy.reject
              [Toy.old; Toy.recent] Toy.twoPending v1LegacyLayout HL HR
              Toy_twoPending_allPending Toy_twoPending_NoDup) as (p' & E & _).
  exists p'. exact E.
Defined.

Lemma Toy_allPending_nil (p : Pool) : allPending (Ext := Toy.externals) v1LegacyLayout p [].
Proof. intros ev Hin. by apply elem_of_nil in Hin. Defined.

(** [old] is committed and not pending; the list goes on with [recent]. *)
Lemma CheckEvidence_refuses_committed_witness :
  dbKeyLayout Toy.oldCommitted = Some v1LegacyLayout /\
  db.reliable (evidenceStore Toy.oldCommitted) /\
  entries (evidenceStore Toy.oldCommitted) !! CalcKeyPending v1LegacyLayout Toy.old = None /\
  is_Some (entries (evidenceStore Toy.oldCommitted) !! CalcKeyCommitted v1LegacyLayout Toy.old) /\
  exists p', CheckEvidence Toy.accept [Toy.old; Toy.recent] Toy.oldCommitted
               = Ok (Some (ErrInvalidEvidence Toy.old ErrEvidenceAlreadyCommitted)) p'.
Proof.
  assert (HL : dbKeyLayout Toy.oldCommitted = Some v1LegacyLayout) by reflexivity.
  assert (HR : db.reliable (evidenceStore Toy.oldCommitted)) by (intros n; reflexivity).
  assert (Hk : entries (evidenceStore Toy.oldCommitted)
                 !! CalcKeyPending v1LegacyLayout Toy.old = None)
    by (vm_compute; reflexivity).
  assert (Hc : is_Some (entries (evidenceStore Toy.oldCommitted)
                          !! CalcKeyCommitted v1LegacyLayout Toy.old))
    by (exists "x"; vm_compute; reflexivity).
  split; [exact HL|]. split; [exact HR|]. split; [exact Hk|]. split; [exact Hc|].
  destruct (CheckEvidence_refuses_committed (Ext := Toy.externals) Toy.accept
              [] Toy.old [Toy.recent] Toy.oldCommitted v1LegacyLayout HL HR
              (Toy_allPending_nil Toy.oldCommitted) (NoDup_nil_2 (A := string))
              (or_intror Hk) Hc) as (p' & E & _).
  exists p'. exact E.
Defined.

(** The damaged store: [recent] decodes, the entry after it does not. *)
Lemma PendingEvidence_empty_on_undecodable_entry_witness :
  dbKeyLayout Toy.damaged = Some v1LegacyLayout /\ Size Toy.damaged <> 0 /\
  entries (evidenceStore Toy.damaged) !! Toy.badKey = Some "x" /\
  HasPrefix Toy.badKey (PrefixToBytesPending v1LegacyLayout) = true /\
  decoded (Toy.badKey, "x") = None /\
  exists p', PendingEvidence (-1) Toy.damaged = Ok ([], 0) p'.
Proof.
  assert (HL : dbKeyLayout Toy.damaged = Some v1LegacyLayout) by reflexivity.
  assert (Hz : Size Toy.damaged <> 0) by (vm_compute; discriminate).
  assert (Hk : entries (evidenceStore Toy.damaged) !! Toy.badKey = Some "x")
    by (vm_compute; reflexivity).
  assert (Hp : HasPrefix Toy.badKey (PrefixToBytesPending v1LegacyLayout) = true)
    by reflexivity.
  assert (Hd : decoded (Toy.badKey, "x") = None) by reflexivity.
  split; [exact HL|]. split; [exact Hz|]. split; [exact Hk|]. split; [exact Hp|].
  split; [exact Hd|].
  destruct (PendingEvidence_empty_on_undecodable_entry (Ext := Toy.externals) Toy.damaged
              v1LegacyLayout Toy.badKey "x" HL Hz Hk Hp Hd) as (p' & E & _).
  exists p'. exact E.
Defined.

(** Votes of height 9 are buffered; the new state is at height 9, time 10. *)
Lemma processConsensusBuffer_forms_evidence_with_new_state_witness :
  dbKeyLayout Toy.oneBuffered = Some v1LegacyLayout /\
  db.reliable (evidenceStore Toy.oneBuffered) /\
  consensusBuffer Toy.oneBuffered = [Toy.votesAt 9] /\
  Vote_Height (VoteA (Toy.votesAt 9)) = LastBlockHeight (Toy.stateAt 9 10) /\
  NewDuplicateVoteEvidence (VoteA (Toy.votesAt 9)) (VoteB (Toy.votesAt 9))
    (LastBlockTime (Toy.stateAt 9 10)) (LastValidators (Toy.stateAt 9 10))
    = inl (Toy.mkEv 9 10 false "XY") /\
  exists p', processConsensusBuffer (Toy.stateAt 9 10) Toy.oneBuffered = Ok tt p' /\
    consensusBuffer p' = [] /\ evidenceList p' = [Toy.mkEv 9 10 false "XY"] /\
    state p' = Toy.stateAt 8 9.
Proof.
  assert (HL : dbKeyLayout Toy.oneBuffered = Some v1LegacyLayout) by reflexivity.
  assert (HR : db.reliable (evidenceStore Toy.oneBuffered)) by (intros n; reflexivity).
  assert (Hb : consensusBuffer Toy.oneBuffered = [Toy.votesAt 9]) by reflexivity.
  assert (Hh : Vote_Height (VoteA (Toy.votesAt 9)) = LastBlockHeight (Toy.stateAt 9 10))
    by reflexivity.
  assert (Hd : NewDuplicateVoteEvidence (VoteA (Toy.votesAt 9)) (VoteB (Toy.votesAt 9))
                 (LastBlockTime (Toy.stateAt 9 10)) (LastValidators (Toy.stateAt 9 10))
               = inl (Toy.mkEv 9 10 false "XY")) by reflexivity.
  split; [exact HL|]. split; [exact HR|]. split; [exact Hb|]. split; [exact Hh|].
  split; [exact Hd|].
  destruct (processConsensusBuffer_forms_evidence_with_new_state (Ext := Toy.externals)
              (Toy.stateAt 9 10) (Toy.votesAt 9) Toy.oneBuffered v1LegacyLayout
              (Toy.mkEv 9 10 false "XY") (Toy.mkEv 9 10 false "XY")
              (Toy.entry (Toy.mkEv 9 10 false "XY")).2
              HL HR Hb Hh Hd eq_refl eq_refl eq_refl eq_refl)
    as (p' & E & Hb' & _ & _ & Hl & Hs).
  exists p'. split; [exact E|]. split; [exact Hb'|]. split; [exact Hl|exact Hs].
Defined.

(** Opening a pool at height 40 over a store with [old] and [recent]:
    [old] is pruned, [recent] is recovered. *)
Lemma NewPool_recovers_pending_evidence_witness :
  Load (Toy.stateStore Toy.now) = inl Toy.now /\
  db.reliable (db.mem (Toy.storeOf [Toy.old; Toy.recent])) /\
  layoutOf (selectedVersion "v1" (db.mem (Toy.storeOf [Toy.old; Toy.recent])))
    = Some (v1LegacyLayout, "v1") /\
  exists pool,
    NewPool (db.mem (Toy.storeOf [Toy.old; Toy.recent])) (Toy.stateStore Toy.now) Toy.blocks []
      = NewPoolOk pool /\
    evidenceList pool = [Toy.recent] /\ Size pool = 1.
Proof.
  assert (H1 : Load (Toy.stateStore Toy.now) = inl Toy.now) by reflexivity.
  assert (H2 : db.reliable (db.mem (Toy.storeOf [Toy.old; Toy.recent])))
    by (intros n; reflexivity).
  assert (H3 : layoutOf (selectedVersion "v1" (db.mem (Toy.storeOf [Toy.old; Toy.recent])))
               = Some (v1LegacyLayout, "v1")) by reflexivity.
  split; [exact H1|]. split; [exact H2|]. split; [exact H3|].
  assert (E : prefixEntries (PrefixToBytesPending v1LegacyLayout)
                (deleteAll v1LegacyLayout
                   (expiredBefore
                      (mkPool NopLogger (db.mem (Toy.storeOf [Toy.old; Toy.recent])) [] 0
                         (Toy.stateStore Toy.now) Toy.blocks Toy.now [] 0 time.zero None)
                      (prefixEntries (PrefixToBytesPending v1LegacyLayout)
                         (<["version" := "v1"]>
                            (entries (db.mem (Toy.storeOf [Toy.old; Toy.recent])))))).1
                   (<["version" := "v1"]>
                      (entries (db.mem (Toy.storeOf [Toy.old; Toy.recent])))))
              = [Toy.entry Toy.recent]) by (vm_compute; reflexivity).
  assert (Hd : Forall2 decodes
                 (prefixEntries (PrefixToBytesPending v1LegacyLayout)
                    (deleteAll v1LegacyLayout
                       (expiredBefore
                          (mkPool NopLogger (db.mem (Toy.storeOf [Toy.old; Toy.recent])) [] 0
                             (Toy.stateStore Toy.now) Toy.blocks Toy.now [] 0 time.zero None)
                          (prefixEntries (PrefixToBytesPending v1LegacyLayout)
                             (<["version" := "v1"]>
                                (entries (db.mem (Toy.storeOf [Toy.old; Toy.recent])))))).1
                       (<["version" := "v1"]>
                          (entries (db.mem (Toy.storeOf [Toy.old; Toy.recent]))))))
                 [(Toy.recent, Toy.recent)]).
  { rewrite E. repeat constructor. }
  destruct (NewPool_recovers_pending_evidence (Ext := Toy.externals)
              (db.mem (Toy.storeOf [Toy.old; Toy.recent])) (Toy.stateStore Toy.now)
              Toy.blocks Toy.now v1LegacyLayout "v1" [(Toy.recent, Toy.recent)]
              H1 H2 H3 Hd) as (pool & E' & _ & Hl & Hz & _).
  exists pool. split; [exact E'|]. split; [exact Hl|exact Hz].
Defined.

(** [old] is new to the empty pool, and the verifier rejects it. *)
Lemma CheckEvidence_returns_verifier_error_witness :
  dbKeyLayout Toy.fresh = Some v1LegacyLayout /\ db.reliable (evidenceStore Toy.fresh) /\
  entries (evidenceStore Toy.fresh) !! CalcKeyPending v1LegacyLayout Toy.old = None /\
  entries (evidenceStore Toy.fresh) !! CalcKeyCommitted v1LegacyLayout Toy.old = None /\
  Toy.reject (State Toy.fresh) (stateDB Toy.fresh) (blockStore Toy.fresh) Toy.old
    = Some (ErrExternal "rejected") /\
  exists p', CheckEvidence Toy.reject [Toy.old; Toy.recent] Toy.fresh
               = Ok (Some (ErrExternal "rejected")) p'.
Proof.
  assert (HL : dbKeyLayout Toy.fresh = Some v1LegacyLayout) by reflexivity.
  assert (HR : db.reliable (evidenceStore Toy.fresh)) by (intros n; reflexivity).
  assert (Hk : entries (evidenceStore Toy.fresh) !! CalcKeyPending v1LegacyLayout Toy.old = None)
    by reflexivity.
  assert (Hc : entries (evidenceStore Toy.fresh) !! CalcKeyCommitted v1LegacyLayout Toy.old = None)
    by reflexivity.
  assert (Hv : Toy.reject (State Toy.fresh) (stateDB Toy.fresh) (blockStore Toy.fresh) Toy.old
               = Some (ErrExternal "rejected")) by reflexivity.
  split; [exact HL|]. split; [exact HR|]. split; [exact Hk|]. split; [exact Hc|].
  split; [exact Hv|].
  destruct (CheckEvidence_returns_verifier_error (Ext := Toy.externals) Toy.reject
              [] Toy.old [Toy.recent] Toy.fresh v1LegacyLayout (ErrExternal "rejected")
              HL HR (Toy_allPending_nil Toy.fresh) (NoDup_nil_2 (A := string))
              (or_intror Hk) Hc Hv) as (p' & E & _).
  exists p'. exact E.
Defined.

(** Light client attack evidence that is pending already is checked again:
    the size becomes 2 with one pending entry. *)
Lemma CheckEvidence_stores_but_does_not_list_witness :
  dbKeyLayout Toy.attackPending = Some v1LegacyLayout /\
  db.reliable (evidenceStore Toy.attackPending) /\
  IsLightClientAttackEvidence Toy.attack = true /\
  entries (evidenceStore Toy.attackPending) !! CalcKeyCommitted v1LegacyLayout Toy.attack = None /\
  Size Toy.attackPending = 1 /\
  exists p', CheckEvidence Toy.accept [Toy.attack] Toy.attackPending = Ok None p' /\
    Size p' = 2 /\ evidenceList p' = [Toy.attack] /\
    entries (evidenceStore p') = entries (evidenceStore Toy.attackPending).
Proof.
  assert (HL : dbKeyLayout Toy.attackPending = Some v1LegacyLayout) by reflexivity.
  assert (HR : db.reliable (evidenceStore Toy.attackPending)) by (intros n; reflexivity).
  assert (Hli : IsLightClientAttackEvidence Toy.attack = true) by reflexivity.
  assert (Hc : entries (evidenceStore Toy.attackPending)
                 !! CalcKeyCommitted v1LegacyLayout Toy.attack = None)
    by (vm_compute; reflexivity).
  assert (Hnd : NoDup (map Hash ([] ++ [Toy.attack]))).
  { simpl. apply NoDup_cons. split; [by intros ?%elem_of_nil|apply NoDup_nil_2]. }
  split; [exact HL|]. split; [exact HR|]. split; [exact Hli|]. split; [exact Hc|].
  split; [reflexivity|].
  destruct (CheckEvidence_stores_but_does_not_list (Ext := Toy.externals) Toy.accept
              [] Toy.attack Toy.attackPending v1LegacyLayout Toy.attack
              (Toy.entry Toy.attack).2 HL HR (Toy_allPending_nil Toy.attackPending) Hnd
              (or_introl Hli) Hc eq_refl eq_refl eq_refl) as (p' & E & He & Hz & Hl).
  exists p'. split; [exact E|]. split; [rewrite Hz; reflexivity|]. split; [exact Hl|].
  rewrite He. apply insert_id. vm_compute. reflexivity.
Defined.

(** The third operation of the store, the write, fails. *)
Lemma AddEvidence_write_failure_leaves_pool_witness :
  dbKeyLayout Toy.failsOnWrite = Some v1LegacyLayout /\
  faulty (evidenceStore Toy.failsOnWrite) (clock (evidenceStore Toy.failsOnWrite)) = false /\
  faulty (evidenceStore Toy.failsOnWrite) (S (clock (evidenceStore Toy.failsOnWrite))) = false /\
  faulty (evidenceStore Toy.failsOnWrite) (S (S (clock (evidenceStore Toy.failsOnWrite)))) = true /\
  exists p', AddEvidence Toy.accept Toy.old Toy.failsOnWrite
      = Ok (Some (Errorf "can't add evidence to pending list: %w"
                    (Errorf "can't persist evidence: %w" ErrDatabase))) p' /\
    quiet Toy.failsOnWrite p'.
Proof.
  split; [reflexivity|]. split; [reflexivity|]. split; [reflexivity|]. split; [reflexivity|].
  exact (AddEvidence_write_failure_leaves_pool (Ext := Toy.externals) Toy.accept Toy.old
           Toy.failsOnWrite v1LegacyLayout Toy.old (Toy.entry Toy.old).2
           eq_refl eq_refl eq_refl eq_refl eq_refl eq_refl eq_refl eq_refl eq_refl).
Defined.

(** The first operation of the store, the iteration, fails. *)
Lemma removeExpiredPendingEvidence_on_iterator_failure_witness :
  dbKeyLayout Toy.failsOnScan = Some v1LegacyLayout /\
  faulty (evidenceStore Toy.failsOnScan) (clock (evidenceStore Toy.failsOnScan)) = true /\
  exists p', removeExpiredPendingEvidence Toy.failsOnScan = Ok (40, 300) p' /\
    quiet Toy.failsOnScan p'.
Proof.
  split; [reflexivity|]. split; [reflexivity|].
  exact (removeExpiredPendingEvidence_on_iterator_failure (Ext := Toy.externals)
           Toy.failsOnScan v1LegacyLayout eq_refl eq_refl).
Defined.

(** [old] is expired at height 40 and time 300, and at height 41 and time 400. *)
Lemma isExpired_stays_expired_witness :
  ConsensusParams_Evidence (Toy.stateAt 41 400)
    = ConsensusParams_Evidence (State Toy.twoPending) /\
  0 <= Height Toy.old <= int64.max /\
  0 <= LastBlockHeight (State Toy.twoPending) /\
  LastBlockHeight (State Toy.twoPending) <= LastBlockHeight (Toy.stateAt 41 400) /\
  LastBlockHeight (Toy.stateAt 41 400) <= int64.max /\
  LastBlockTime (State Toy.twoPending) <= LastBlockTime (Toy.stateAt 41 400) /\
  int64.in_range (LastBlockTime (State Toy.twoPending) - Time Toy.old) /\
  int64.in_range (LastBlockTime (Toy.stateAt 41 400) - Time Toy.old) /\
  isExpired Toy.twoPending (Height Toy.old) (Time Toy.old) = true /\
  isExpired (set_state (Toy.stateAt 41 400) Toy.twoPending) (Height Toy.old) (Time Toy.old)
    = true.
Proof.
  assert (H1 : ConsensusParams_Evidence (Toy.stateAt 41 400)
               = ConsensusParams_Evidence (State Toy.twoPending)) by reflexivity.
  assert (H2 : 0 <= Height Toy.old <= int64.max) by (unfold int64.max; simpl; lia).
  assert (H3 : 0 <= LastBlockHeight (State Toy.twoPending)) by (simpl; lia).
  assert (H4 : LastBlockHeight (State Toy.twoPending) <= LastBlockHeight (Toy.stateAt 41 400))
    by (simpl; lia).
  assert (H5 : LastBlockHeight (Toy.stateAt 41 400) <= int64.max)
    by (unfold int64.max; simpl; lia).
  assert (H6 : LastBlockTime (State Toy.twoPending) <= LastBlockTime (Toy.stateAt 41 400))
    by (simpl; lia).
  assert (H7 : int64.in_range (LastBlockTime (State Toy.twoPending) - Time Toy.old))
    by (unfold int64.in_range, int64.min, int64.max; simpl; lia).
  assert (H8 : int64.in_range (LastBlockTime (Toy.stateAt 41 400) - Time Toy.old))
    by (unfold int64.in_range, int64.min, int64.max; simpl; lia).
  assert (H9 : isExpired Toy.twoPending (Height Toy.old) (Time Toy.old) = true)
    by reflexivity.
  split; [exact H1|]. split; [exact H2|]. split; [exact H3|]. split; [exact H4|].
  split; [exact H5|]. split; [exact H6|]. split; [exact H7|]. split; [exact H8|].
  split; [exact H9|].
  exact (isExpired_stays_expired (Ext := Toy.externals) Toy.twoPending (Toy.stateAt 41 400)
           (Height Toy.old) (Time Toy.old) H1 H2 H3 H4 H5 H6 H7 H8 H9).
Defined.

(** Adding [old] to the pool in which [recent] is pending, and listing. *)
Lemma AddEvidence_then_PendingEvidence_lists_it_witness :
  dbKeyLayout Toy.recentPending = Some v1LegacyLayout /\
  db.reliable (evidenceStore Toy.recentPending) /\
  entries (evidenceStore Toy.recentPending) !! CalcKeyPending v1LegacyLayout Toy.old = None /\
  entries (evidenceStore Toy.recentPending) !! CalcKeyCommitted v1LegacyLayout Toy.old = None /\
  uint32.add (evidenceSize Toy.recentPending) 1 <> 0 /\
  exists p1 evs size p2,
    AddEvidence Toy.accept Toy.old Toy.recentPending = Ok None p1 /\
    PendingEvidence (-1) p1 = Ok (evs, size) p2 /\ Toy.old ∈ evs /\ length evs = 2%nat.
Proof.
  assert (HL : dbKeyLayout Toy.recentPending = Some v1LegacyLayout) by reflexivity.
  assert (HR : db.reliable (evidenceStore Toy.recentPending)) by (intros n; reflexivity).
  assert (Hk : entries (evidenceStore Toy.recentPending)
                 !! CalcKeyPending v1LegacyLayout Toy.old = None) by (vm_compute; reflexivity).
  assert (Hc : entries (evidenceStore Toy.recentPending)
                 !! CalcKeyCommitted v1LegacyLayout Toy.old = None) by (vm_compute; reflexivity).
  assert (Hz : uint32.add (evidenceSize Toy.recentPending) 1 <> 0) by (vm_compute; discriminate).
  assert (E : prefixEntries (PrefixToBytesPending v1LegacyLayout)
                (entries (evidenceStore Toy.recentPending)) = [Toy.entry Toy.recent])
    by (vm_compute; reflexivity).
  assert (Hold : forall kv,
            kv ∈ prefixEntries (PrefixToBytesPending v1LegacyLayout)
                   (entries (evidenceStore Toy.recentPending)) ->
            exists d, decodes kv d).
  { rewrite E. intros kv Hin. apply elem_of_cons in Hin as [->|Hin].
    - exists (Toy.recent, Toy.recent). split; reflexivity.
    - apply elem_of_nil in Hin. destruct Hin. }
  split; [exact HL|]. split; [exact HR|]. split; [exact Hk|]. split; [exact Hc|].
  split; [exact Hz|].
  destruct (AddEvidence_then_PendingEvidence_lists_it (Ext := Toy.externals) Toy.accept
              Toy.old Toy.old Toy.old Toy.old (Toy.entry Toy.old).2 Toy.recentPending
              v1LegacyLayout HL HR Hk Hc eq_refl eq_refl eq_refl eq_refl eq_refl eq_refl
              Hold Hz) as (p1 & evs & size & p2 & E1 & E2 & Hin & Hlen).
  exists p1, evs, size, p2. split; [exact E1|]. split; [exact E2|]. split; [exact Hin|].
  rewrite Hlen, E. reflexivity.
Defined.
